(** * k8s-playground: reservation lifecycle, terminal gateway and owner slugs

    A shallow embedding of the Go sources of k8s-playground:
    - [pkg/queue]: the [QueueItem] record, [ShouldBeCollected] and the
      Redis-backed work queue ([UpdateItem], [GetItem], ...);
    - [pkg/k8s]: [sanitizeName], the calls that create and delete a
      workload, [IsPodRunning], [GetPodNameForWorkload] and the services
      read off the output of netstat;
    - the collector, generator and killer control loops;
    - [internal/controllers]: the REST handlers and their owner checks,
      the session middlewares with login and logout, the terminal resize
      queue, the chunked WebSocket writer, the pages of the command log
      and the keystroke parser of the command audit.

    Go strings are byte strings: they are modelled by [string] (a list of
    8-bit [ascii]); runes are code points in [N]; [time.Time] and
    [time.Duration] are integers counting nanoseconds. *)

From Stdlib Require Import ZArith NArith Ascii String List Lia Bool Sorted.
From stdpp Require Import base gmap strings list fin_maps pretty.

Local Open Scope string_scope.
Local Open Scope list_scope.

(** ** Byte strings *)

Definition bytes := list ascii.

Definition code (c : ascii) : N := N_of_ascii c.
Definition byte (n : N) : ascii := ascii_of_N n.

Definition b2s (l : bytes) : string := string_of_list_ascii l.
Definition s2b (s : string) : bytes := list_ascii_of_string s.

Definition CR : ascii := "013"%char.
Definition LF : ascii := "010"%char.
Definition TAB : ascii := "009"%char.
Definition BS : ascii := "008"%char.
Definition DEL : ascii := "127"%char.
Definition ESC : ascii := "027"%char.
Definition DASH : ascii := "-"%char.

(** ** UTF-8, as Go's [unicode/utf8] reads and writes it *)

Module utf8.

Definition rune := N.
Definition RuneError : rune := 0xFFFD%N.
Definition RuneSelf : N := 0x80%N.
Definition MaxRune : rune := 0x10FFFF%N.

Definition between (lo hi x : N) : bool := ((lo <=? x) && (x <=? hi))%N.

(** The [first] table together with [acceptRanges]: for a leading byte, the
    length of the sequence and the range accepted for the second byte;
    [None] for the bytes that cannot start a sequence. *)
Definition first (s0 : N) : option (nat * N * N) :=
  if between 0xC2 0xDF s0 then Some (2%nat, 0x80%N, 0xBF%N)
  else if (s0 =? 0xE0)%N then Some (3%nat, 0xA0%N, 0xBF%N)
  else if between 0xE1 0xEC s0 then Some (3%nat, 0x80%N, 0xBF%N)
  else if (s0 =? 0xED)%N then Some (3%nat, 0x80%N, 0x9F%N)
  else if between 0xEE 0xEF s0 then Some (3%nat, 0x80%N, 0xBF%N)
  else if (s0 =? 0xF0)%N then Some (4%nat, 0x90%N, 0xBF%N)
  else if between 0xF1 0xF3 s0 then Some (4%nat, 0x80%N, 0xBF%N)
  else if (s0 =? 0xF4)%N then Some (4%nat, 0x80%N, 0x8F%N)
  else None.

Definition locb : N := 0x80%N.
Definition hicb : N := 0xBF%N.

(** [utf8.DecodeRuneInString]: the first rune of [s] and its width in
    bytes; an invalid or short sequence decodes as [(RuneError, 1)]. *)
Definition DecodeRuneInString (s : bytes) : rune * nat :=
  match s with
  | [] => (RuneError, 0)
  | c0 :: t0 =>
    let s0 := code c0 in
    if (s0 <? RuneSelf)%N then (s0, 1)
    else match first s0 with
    | None => (RuneError, 1)
    | Some (sz, lo, hi) =>
      if (length s <? sz)%nat then (RuneError, 1)
      else match t0 with
      | [] => (RuneError, 1)
      | c1 :: t1 =>
        let s1 := code c1 in
        if negb (between lo hi s1) then (RuneError, 1)
        else if (sz <=? 2)%nat then
          (N.lor (N.shiftl (N.land s0 0x1F) 6) (N.land s1 0x3F), 2)
        else match t1 with
        | [] => (RuneError, 1)
        | c2 :: t2 =>
          let s2 := code c2 in
          if negb (between locb hicb s2) then (RuneError, 1)
          else if (sz <=? 3)%nat then
            (N.lor (N.lor (N.shiftl (N.land s0 0x0F) 12)
                          (N.shiftl (N.land s1 0x3F) 6))
                   (N.land s2 0x3F), 3)
          else match t2 with
          | [] => (RuneError, 1)
          | c3 :: _ =>
            let s3 := code c3 in
            if negb (between locb hicb s3) then (RuneError, 1)
            else
              (N.lor (N.lor (N.lor (N.shiftl (N.land s0 0x07) 18)
                                   (N.shiftl (N.land s1 0x3F) 12))
                            (N.shiftl (N.land s2 0x3F) 6))
                     (N.land s3 0x3F), 4)
          end
        end
      end
    end
  end.

Definition RuneStart (b : N) : bool := negb (N.land b 0xC0 =? 0x80)%N.

(** The loop of [DecodeLastRuneInString] that walks back from [start] to
    the nearest byte that can start a rune, not below [lim]. *)
Fixpoint scanStart (fuel : nat) (s : bytes) (start lim : Z) : Z :=
  match fuel with
  | O => start
  | S fuel' =>
    if (start <? lim)%Z then start
    else
      match s !! Z.to_nat start with
      | Some c => if RuneStart (code c) then start
                  else scanStart fuel' s (start - 1) lim
      | None => start
      end
  end.

(** [utf8.DecodeLastRuneInString]: the last rune of [s] and its width. *)
Definition DecodeLastRuneInString (s : bytes) : rune * nat :=
  match rev s with
  | [] => (RuneError, 0)
  | c :: _ =>
    if (code c <? RuneSelf)%N then (code c, 1)
    else
      let end_ := Z.of_nat (length s) in
      let lim := Z.max 0 (end_ - 4) in
      let start := Z.max 0 (scanStart 4 s (end_ - 2) lim) in
      let '(r, size) := DecodeRuneInString (drop (Z.to_nat start) s) in
      if (start + Z.of_nat size =? end_)%Z then (r, size) else (RuneError, 1)
  end.

(** What [for _, r := range s] yields: every rune of [s] in order, each
    with the bytes it was decoded from. *)
Fixpoint rangeFrom (fuel : nat) (s : bytes) : list (rune * bytes) :=
  match fuel with
  | O => []
  | S fuel' =>
    match s with
    | [] => []
    | _ :: _ =>
      let '(r, w) := DecodeRuneInString s in
      (r, take w s) :: rangeFrom fuel' (drop w s)
    end
  end.

Definition runes (s : bytes) : list (rune * bytes) := rangeFrom (length s) s.

(** [utf8.AppendRune]: the encoding of [r]; surrogates and values above
    [MaxRune] are written as [RuneError]. *)
Definition encode3 (r : rune) : bytes :=
  [ byte (N.lor 0xE0 (N.shiftr r 12) mod 256);
    byte (N.lor 0x80 (N.land (N.shiftr r 6) 0x3F));
    byte (N.lor 0x80 (N.land r 0x3F)) ].

Definition AppendRune (r : rune) : bytes :=
  if (r <=? 0x7F)%N then [byte r]
  else if (r <=? 0x7FF)%N then
    [ byte (N.lor 0xC0 (N.shiftr r 6) mod 256);
      byte (N.lor 0x80 (N.land r 0x3F)) ]
  else if (MaxRune <? r)%N || between 0xD800 0xDFFF r then encode3 RuneError
  else if (r <=? 0xFFFF)%N then encode3 r
  else
    [ byte (N.lor 0xF0 (N.shiftr r 18) mod 256);
      byte (N.lor 0x80 (N.land (N.shiftr r 12) 0x3F));
      byte (N.lor 0x80 (N.land (N.shiftr r 6) 0x3F));
      byte (N.lor 0x80 (N.land r 0x3F)) ].

End utf8.

(** ** The pieces of Go's [unicode], [strings] and [regexp] that
       [sanitizeName] and the keystroke parser call *)

Module unicode.

(** [unicode.ToLower]: ASCII is handled in place; every other rune goes
    through the case tables of the Unicode database, which are data of the
    Go distribution and are taken as the parameter [caseTable]. *)
Definition ToLower (caseTable : utf8.rune -> utf8.rune) (r : utf8.rune)
  : utf8.rune :=
  if (r <=? 0x7F)%N then
    (if utf8.between 0x41 0x5A r then r + 0x20 else r)%N
  else caseTable r.

End unicode.

Module gostrings.

Definition isUpperByte (c : ascii) : bool := utf8.between 0x41 0x5A (code c).

Definition lowerByte (c : ascii) : ascii :=
  if isUpperByte c then byte (code c + 0x20) else c.

(** [strings.Map]: every rune of [s] is replaced by the encoding of its
    image; a byte that is not valid UTF-8 is read as [RuneError]. *)
Definition Map (mapping : utf8.rune -> utf8.rune) (s : bytes) : bytes :=
  flat_map (fun rb => utf8.AppendRune (mapping (fst rb))) (utf8.runes s).

(** [strings.ToLower]: a string of ASCII bytes is lowered byte by byte
    (and returned as it is when it has no upper-case letter); any other
    string goes through [Map unicode.ToLower]. *)
Definition ToLower (caseTable : utf8.rune -> utf8.rune) (s : bytes) : bytes :=
  if forallb (fun c => (code c <? utf8.RuneSelf)%N) s then
    if existsb isUpperByte s then map lowerByte s else s
  else Map (unicode.ToLower caseTable) s.

Fixpoint trimLeftByte (s : bytes) (c : ascii) : bytes :=
  match s with
  | x :: t => if Ascii.eqb x c then trimLeftByte t c else s
  | [] => []
  end.

Definition trimRightByte (s : bytes) (c : ascii) : bytes :=
  rev (trimLeftByte (rev s) c).

(** [strings.Trim s cutset] for a cutset of one ASCII byte. *)
Definition Trim1 (s : bytes) (c : ascii) : bytes :=
  trimLeftByte (trimRightByte s c) c.

(** [asciiSpace] of the [strings] package: tab, LF, VT, FF, CR, space. *)
Definition asciiSpace (c : ascii) : bool :=
  let n := code c in
  (utf8.between 0x09 0x0D n || (n =? 0x20))%N.

(** [unicode.IsSpace]. *)
Definition IsSpace (r : utf8.rune) : bool :=
  (utf8.between 0x09 0x0D r || (r =? 0x20) || (r =? 0x85) || (r =? 0xA0)
   || (r =? 0x1680) || utf8.between 0x2000 0x200A r || (r =? 0x2028)
   || (r =? 0x2029) || (r =? 0x202F) || (r =? 0x205F) || (r =? 0x3000))%N.

(** [strings.TrimLeftFunc s unicode.IsSpace]. *)
Fixpoint trimLeftSpace (fuel : nat) (s : bytes) : bytes :=
  match fuel with
  | O => s
  | S fuel' =>
    match s with
    | [] => []
    | _ :: _ =>
      let '(r, w) := utf8.DecodeRuneInString s in
      if IsSpace r then trimLeftSpace fuel' (drop w s) else s
    end
  end.

(** [lastIndexFunc s unicode.IsSpace false], scanning [s[0:i]] backwards:
    the index of the last rune that is not white space. *)
Fixpoint lastIndexNonSpace (fuel : nat) (s : bytes) (i : nat) : option nat :=
  match fuel with
  | O => None
  | S fuel' =>
    if (i =? 0)%nat then None
    else
      let '(r, size) := utf8.DecodeLastRuneInString (take i s) in
      let i' := (i - size)%nat in
      if IsSpace r then lastIndexNonSpace fuel' s i' else Some i'
  end.

(** [strings.TrimRightFunc s unicode.IsSpace]. *)
Definition trimRightSpace (s : bytes) : bytes :=
  match lastIndexNonSpace (length s) s (length s) with
  | None => []
  | Some i =>
    match drop i s with
    | c :: _ =>
      if (utf8.RuneSelf <=? code c)%N
      then take (i + snd (utf8.DecodeRuneInString (drop i s))) s
      else take (i + 1) s
    | [] => take (i + 1) s
    end
  end.

(** The two loops of [strings.TrimSpace] over ASCII white space; each
    hands over to the Unicode-aware trimming at the first byte that is not
    ASCII. *)
Fixpoint trimSpaceStop (s : bytes) : bytes :=
  match s with
  | [] => []
  | c :: t =>
    if (utf8.RuneSelf <=? code c)%N then rev (trimRightSpace (rev s))
    else if asciiSpace c then trimSpaceStop t
    else s
  end.

Fixpoint trimSpaceStart (s : bytes) : bytes :=
  match s with
  | [] => []
  | c :: t =>
    if (utf8.RuneSelf <=? code c)%N
    then trimRightSpace (trimLeftSpace (length s) s)
    else if asciiSpace c then trimSpaceStart t
    else rev (trimSpaceStop (rev s))
  end.

(** [strings.TrimSpace]. *)
Definition TrimSpace (s : bytes) : bytes := trimSpaceStart s.

Fixpoint Contains1 (s : bytes) (c : ascii) : bool :=
  match s with
  | x :: t => Ascii.eqb x c || Contains1 t c
  | [] => false
  end.

(** [strings.HasPrefix]. *)
Fixpoint HasPrefix (s prefix : bytes) : bool :=
  match prefix, s with
  | [], _ => true
  | p :: ps, x :: xs => Ascii.eqb x p && HasPrefix xs ps
  | _ :: _, [] => false
  end.

(** [strings.Contains]. *)
Fixpoint Contains (s substr : bytes) : bool :=
  HasPrefix s substr ||
  match s with
  | [] => false
  | _ :: t => Contains t substr
  end.

(** [strings.Split s sep] for a separator of one byte: the pieces between
    the separators, one more than there are separators. *)
Fixpoint Split1 (s : bytes) (sep : ascii) : list bytes :=
  match s with
  | [] => [[]]
  | x :: rest =>
    if Ascii.eqb x sep then [] :: Split1 rest sep
    else match Split1 rest sep with
         | piece :: pieces => (x :: piece) :: pieces
         | [] => [[x]]
         end
  end.

(** The loop of [strings.FieldsFunc s unicode.IsSpace] over the runes of
    [s]: [field] holds the bytes of the field that is open, if one is. *)
Fixpoint fieldsFrom (rs : list (utf8.rune * bytes)) (field : option bytes)
  : list bytes :=
  match rs with
  | [] => match field with Some f => [f] | None => [] end
  | (r, bs) :: rest =>
    if IsSpace r
    then match field with
         | Some f => f :: fieldsFrom rest None
         | None => fieldsFrom rest None
         end
    else fieldsFrom rest (Some (default [] field ++ bs))
  end.

(** [strings.Fields]: the maximal runs of runes that are not white space.
    (On a string of ASCII bytes Go takes a faster path with the same
    result.) *)
Definition Fields (s : bytes) : list bytes := fieldsFrom (utf8.runes s) None.

End gostrings.

Module regexp.

(** The character class [a-z0-9-]. *)
Definition slugRune (r : utf8.rune) : bool :=
  (utf8.between 0x61 0x7A r || utf8.between 0x30 0x39 r || (r =? 0x2D))%N.

(** [regexp.MustCompile("[^a-z0-9-]+").ReplaceAllString(s, repl)]: every
    maximal run of runes outside the class is replaced by [repl]; the bytes
    of the other runes are copied.  [inMatch] tells that the previous rune
    already belongs to the current run. *)
Fixpoint replaceRuns (rs : list (utf8.rune * bytes)) (repl : bytes)
    (inMatch : bool) : bytes :=
  match rs with
  | [] => []
  | (r, bs) :: rest =>
    if slugRune r then bs ++ replaceRuns rest repl false
    else if inMatch then replaceRuns rest repl true
    else repl ++ replaceRuns rest repl true
  end.

Definition ReplaceAllNonSlug (s repl : bytes) : bytes :=
  replaceRuns (utf8.runes s) repl false.

End regexp.

(** ** pkg/k8s: the owner slug *)

Definition sanitizeBytes (caseTable : utf8.rune -> utf8.rune) (name : bytes)
  : bytes :=
  let sanitized := gostrings.ToLower caseTable name in
  let sanitized := regexp.ReplaceAllNonSlug sanitized [DASH] in
  gostrings.Trim1 sanitized DASH.

(** [sanitizeName] of [pkg/k8s]. *)
Definition sanitizeName (caseTable : utf8.rune -> utf8.rune) (name : string)
  : string :=
  let sanitized := sanitizeBytes caseTable (s2b name) in
  if (length sanitized =? 0)%nat then "invalid-name" else b2s sanitized.

(** ** pkg/queue: the reservation record *)

Definition QueueStatus := string.

Definition StatusPending : QueueStatus := "pending".
Definition StatusGenerating : QueueStatus := "generating".
Definition StatusError : QueueStatus := "error".
Definition StatusAvailable : QueueStatus := "available".
Definition StatusShutdown : QueueStatus := "shutdown".
Definition StatusTerminated : QueueStatus := "terminated".

Record QueueItem := mkItem {
  Owner : string;
  K8sVersion : string;
  Status : QueueStatus;
  ErrorMessage : string;
  StatusUpdatedAt : Z;
  PodID : string;
  ExpiresAt : Z;
  ID : string;
  DisplayName : string;
  WorkloadType : string }.

Definition set_Status (s : QueueStatus) (q : QueueItem) : QueueItem :=
  mkItem (Owner q) (K8sVersion q) s (ErrorMessage q) (StatusUpdatedAt q)
         (PodID q) (ExpiresAt q) (ID q) (DisplayName q) (WorkloadType q).
Definition set_ErrorMessage (m : string) (q : QueueItem) : QueueItem :=
  mkItem (Owner q) (K8sVersion q) (Status q) m (StatusUpdatedAt q)
         (PodID q) (ExpiresAt q) (ID q) (DisplayName q) (WorkloadType q).
Definition set_StatusUpdatedAt (t : Z) (q : QueueItem) : QueueItem :=
  mkItem (Owner q) (K8sVersion q) (Status q) (ErrorMessage q) t
         (PodID q) (ExpiresAt q) (ID q) (DisplayName q) (WorkloadType q).
Definition set_PodID (p : string) (q : QueueItem) : QueueItem :=
  mkItem (Owner q) (K8sVersion q) (Status q) (ErrorMessage q)
         (StatusUpdatedAt q) p (ExpiresAt q) (ID q) (DisplayName q)
         (WorkloadType q).
Definition set_ID (i : string) (q : QueueItem) : QueueItem :=
  mkItem (Owner q) (K8sVersion q) (Status q) (ErrorMessage q)
         (StatusUpdatedAt q) (PodID q) (ExpiresAt q) i (DisplayName q)
         (WorkloadType q).
Definition set_DisplayName (n : string) (q : QueueItem) : QueueItem :=
  mkItem (Owner q) (K8sVersion q) (Status q) (ErrorMessage q)
         (StatusUpdatedAt q) (PodID q) (ExpiresAt q) (ID q) n
         (WorkloadType q).

(** Durations, in nanoseconds. *)
Definition Second : Z := 1000000000.
Definition Minute : Z := 60 * Second.
Definition Hour : Z := 60 * Minute.

(** [t.After(u)]. *)
Definition After (t u : Z) : bool := (u <? t)%Z.

(** ** The outer Kubernetes API, as the controllers see it *)

Record ContainerStatus := mkCS {
  csName : string;
  csReady : bool;
  csWaiting : option string;      (* State.Waiting.Reason *)
  csTerminated : option Z }.      (* State.Terminated.ExitCode *)

Record Pod := mkPod {
  podName : string;
  podPhase : string;
  podContainers : list ContainerStatus }.

Inductive ExecReply :=
| ExecDone                                  (* the command ran *)
| ExecNoExecutor (e : string)               (* no SPDY executor *)
| ExecStreamFailed (stderr e : string).     (* the stream broke *)

(** The objects of the namespace that the controllers create and delete,
    and the answers of the API server that do not depend on them: a script
    of faults for the calls that create or delete ([Some e]: the call is
    refused with the error [e], which is neither NotFound nor
    AlreadyExists), and scripts of answers for the reads and the execs. *)
Record Kube := mkKube {
  statefulsets : gset string;
  deployments : gset string;
  services : gset string;
  pvcs : gset string;
  kube_faults : list (option string);
  serviceGets : list (string + string);    (* the ClusterIP, or an error *)
  execs : list ExecReply;
  podLists : list (list Pod + string);     (* the pods, or an error *)
  podGets : list (Pod + string) }.         (* the pod, or an error *)

Inductive Kind := KStatefulSet | KDeployment | KService | KPVC.

(** ** The world the controllers run in *)

Inductive Event :=
| EvHSet (item : QueueItem)                (* the record was written *)
| EvHSetFailed (id : string)               (* the write was refused *)
| EvHDel (id : string)
| EvCreate (k : Kind) (name : string)      (* a create call was sent *)
| EvDelete (k : Kind) (name : string)      (* a delete call was sent *)
| EvLog (line : string).

Inductive Wake := WakeCancel | WakeTimeout | WakeTick.

Record World := mkWorld {
  hash : gmap string QueueItem;       (* the Redis hash [QueueKey], each
                                         field read as the record that its
                                         JSON value decodes to *)
  redis_faults : list (option string);(* per Redis command: its error *)
  now : Z;                            (* the last reading of the clock *)
  drift : list Z;                     (* time elapsed before each reading *)
  uuids : list string;                (* what [uuid.New] will return *)
  wakes : list Wake;                  (* what each [select] wakes up on *)
  kube : Kube;
  journal : list Event }.

Definition set_hash (h : gmap string QueueItem) (w : World) : World :=
  mkWorld h (redis_faults w) (now w) (drift w) (uuids w) (wakes w) (kube w)
          (journal w).
Definition set_redis_faults (f : list (option string)) (w : World) : World :=
  mkWorld (hash w) f (now w) (drift w) (uuids w) (wakes w) (kube w)
          (journal w).
Definition set_clock (t : Z) (d : list Z) (w : World) : World :=
  mkWorld (hash w) (redis_faults w) t d (uuids w) (wakes w) (kube w)
          (journal w).
Definition set_uuids (u : list string) (w : World) : World :=
  mkWorld (hash w) (redis_faults w) (now w) (drift w) u (wakes w) (kube w)
          (journal w).
Definition set_wakes (k : list Wake) (w : World) : World :=
  mkWorld (hash w) (redis_faults w) (now w) (drift w) (uuids w) k (kube w)
          (journal w).
Definition set_kube (k : Kube) (w : World) : World :=
  mkWorld (hash w) (redis_faults w) (now w) (drift w) (uuids w) (wakes w) k
          (journal w).
Definition emit (e : Event) (w : World) : World :=
  mkWorld (hash w) (redis_faults w) (now w) (drift w) (uuids w) (wakes w)
          (kube w) (journal w ++ [e]).

(** A small state monad over the world. *)
Definition M (A : Type) : Type := World -> A * World.

Definition ret {A} (a : A) : M A := fun w => (a, w).
Definition bind {A B} (m : M A) (k : A -> M B) : M B :=
  fun w => let '(a, w') := m w in k a w'.

Notation "'let*' x ':=' m 'in' k" := (bind m (fun x => k))
  (at level 10, x name, m at level 100, k at level 200).
Notation "'let*' ( x , y ) ':=' m 'in' k" := (bind m (fun '(x, y) => k))
  (at level 10, x name, y name, m at level 100, k at level 200).

(** Go's [error]: [None] is [nil]. *)
Definition error := option string.

(** [fmt.Errorf("<msg>: %w", err)]. *)
Definition wrap (msg inner : string) : string := msg +:+ ": " +:+ inner.

Definition logLine (line : string) : M unit := fun w => (tt, emit (EvLog line) w).

(** [time.Now()]. *)
Definition timeNow : M Z := fun w =>
  let t := (now w + hd 0 (drift w))%Z in
  (t, set_clock t (tl (drift w)) w).

(** The outcome of the next Redis command. *)
Definition redisCommand : M error := fun w =>
  (mjoin (head (redis_faults w)), set_redis_faults (tl (redis_faults w)) w).

(** ** pkg/queue: [IsExpired], [ShouldBeCollected] *)

Definition IsExpired (q : QueueItem) : M bool :=
  let* t := timeNow in ret (After t (ExpiresAt q)).

Definition terminalStates : list QueueStatus :=
  [StatusShutdown; StatusTerminated; StatusError].

Definition ShouldBeCollected (q : QueueItem) : M bool :=
  if existsb (String.eqb (Status q)) terminalStates then ret false
  else IsExpired q.

(** ** pkg/queue: the Redis queue *)

(** [json.Marshal] followed by [HSet], for a record that [json.Marshal]
    encodes as it is: strings of valid UTF-8 and times with a year from 0
    to 9999, as the records have that the handlers build from decoded JSON
    and [time.Now()] and that the loops read back from the store.  (For
    other records [json.Marshal] replaces invalid bytes by U+FFFD or
    returns an error; that step is not part of this model.) *)
Definition HSet (item : QueueItem) : M error :=
  let* e := redisCommand in
  match e with
  | Some msg => fun w => (Some msg, emit (EvHSetFailed (ID item)) w)
  | None => fun w => (None, emit (EvHSet item) (set_hash (<[ID item := item]> (hash w)) w))
  end.

Definition nilUUID : string := "00000000-0000-0000-0000-000000000000".

Definition uuidNew : M string := fun w =>
  (hd nilUUID (uuids w), set_uuids (tl (uuids w)) w).

Definition AddItem (item : QueueItem) : M (QueueItem * error) :=
  let* item := (if String.eqb (ID item) EmptyString
                then (let* u := uuidNew in ret (set_ID u item))
                else ret item) in
  let* e := HSet item in
  ret (item, e).

Definition itemNotFound : string := "item not found".

Definition GetItem (id : string) : M (QueueItem + string) :=
  let* e := redisCommand in
  match e with
  | Some msg => ret (inr (wrap "failed to get queue item" msg))
  | None => fun w =>
    match hash w !! id with
    | Some item => (inl item, w)
    | None => (inr itemNotFound, w)
    end
  end.

(** [UpdateItem] stamps the caller's record, then writes it. *)
Definition UpdateItem (item : QueueItem) : M (QueueItem * error) :=
  let* t := timeNow in
  let item := set_StatusUpdatedAt t item in
  let* e := HSet item in
  ret (item, e).

(** The records of the hash, in the order in which Go ranges over the map
    returned by [HGetAll] (an order that Go leaves unspecified). *)
Definition GetAllItems : M (list QueueItem + string) :=
  let* e := redisCommand in
  match e with
  | Some msg => ret (inr (wrap "failed to get all queue items" msg))
  | None => fun w => (inl ((map_to_list (hash w)).*2), w)
  end.

Definition GetItemsByStatus (status : QueueStatus) : M (list QueueItem + string) :=
  let* r := GetAllItems in
  match r with
  | inr e => ret (inr e)
  | inl allItems => ret (inl (filter (fun it => Status it = status) allItems))
  end.

Definition GetItemsByOwner (owner : string) : M (list QueueItem + string) :=
  let* r := GetAllItems in
  match r with
  | inr e => ret (inr e)
  | inl allItems => ret (inl (filter (fun it => Owner it = owner) allItems))
  end.

Definition DeleteItem (id : string) : M error :=
  let* e := redisCommand in
  match e with
  | Some msg => ret (Some msg)
  | None => fun w => (None, emit (EvHDel id) (set_hash (delete id (hash w)) w))
  end.

(** ** pkg/k8s: deleting a workload *)

Inductive ApiError :=
| ErrNotFound (k : Kind) (name : string)
| ErrAlreadyExists (k : Kind) (name : string)
| ErrOther (msg : string).

Definition IsNotFound (e : ApiError) : bool :=
  match e with ErrNotFound _ _ => true | _ => false end.

Definition IsAlreadyExists (e : ApiError) : bool :=
  match e with ErrAlreadyExists _ _ => true | _ => false end.

Definition resourceName (k : Kind) : string :=
  match k with
  | KStatefulSet => "statefulsets.apps"
  | KDeployment => "deployments.apps"
  | KService => "services"
  | KPVC => "persistentvolumeclaims"
  end.

Definition quote : string := String "034"%char EmptyString.

Definition apiErrorText (e : ApiError) : string :=
  match e with
  | ErrNotFound k n => resourceName k +:+ " " +:+ quote +:+ n +:+ quote +:+ " not found"
  | ErrAlreadyExists k n => resourceName k +:+ " " +:+ quote +:+ n +:+ quote +:+ " already exists"
  | ErrOther msg => msg
  end.

Definition objects (k : Kind) (kb : Kube) : gset string :=
  match k with
  | KStatefulSet => statefulsets kb
  | KDeployment => deployments kb
  | KService => services kb
  | KPVC => pvcs kb
  end.

Definition set_objects (k : Kind) (s : gset string) (kb : Kube) : Kube :=
  match k with
  | KStatefulSet =>
    mkKube s (deployments kb) (services kb) (pvcs kb) (kube_faults kb)
           (serviceGets kb) (execs kb) (podLists kb) (podGets kb)
  | KDeployment =>
    mkKube (statefulsets kb) s (services kb) (pvcs kb) (kube_faults kb)
           (serviceGets kb) (execs kb) (podLists kb) (podGets kb)
  | KService =>
    mkKube (statefulsets kb) (deployments kb) s (pvcs kb) (kube_faults kb)
           (serviceGets kb) (execs kb) (podLists kb) (podGets kb)
  | KPVC =>
    mkKube (statefulsets kb) (deployments kb) (services kb) s (kube_faults kb)
           (serviceGets kb) (execs kb) (podLists kb) (podGets kb)
  end.

Definition set_kube_faults (f : list (option string)) (kb : Kube) : Kube :=
  mkKube (statefulsets kb) (deployments kb) (services kb) (pvcs kb) f
         (serviceGets kb) (execs kb) (podLists kb) (podGets kb).

(** The fault, if any, that the API server answers the next create or
    delete call with. *)
Definition kubeFault : M error := fun w =>
  (mjoin (head (kube_faults (kube w))),
   set_kube (set_kube_faults (tl (kube_faults (kube w))) (kube w)) w).

(** [clientset...Delete(ctx, name, ...)] on objects of kind [k]. *)
Definition kubeDelete (k : Kind) (name : string) : M (option ApiError) :=
  let* _ := (fun w => (tt, emit (EvDelete k name) w)) in
  let* f := kubeFault in
  match f with
  | Some msg => ret (Some (ErrOther msg))
  | None => fun w =>
    if decide (name ∈ objects k (kube w))
    then (None, set_kube (set_objects k (objects k (kube w) ∖ {[name]}) (kube w)) w)
    else (Some (ErrNotFound k name), w)
  end.

(** [err != nil && !apierrors.IsNotFound(err)]. *)
Definition realFailure (e : option ApiError) : option string :=
  match e with
  | Some err => if IsNotFound err then None else Some (apiErrorText err)
  | None => None
  end.

Definition pvcNameOf (name : string) : string :=
  "docker-graph-storage-" +:+ name +:+ "-0".

Definition DeleteDinDStatefulSet (name : string) : M error :=
  let* err := kubeDelete KStatefulSet name in
  match realFailure err with
  | Some m => ret (Some (wrap ("failed to delete statefulset " +:+ name) m))
  | None =>
    let* err := kubeDelete KService name in
    match realFailure err with
    | Some m => ret (Some (wrap ("failed to delete service " +:+ name) m))
    | None =>
      let pvcName := pvcNameOf name in
      let* err := kubeDelete KPVC pvcName in
      match realFailure err with
      | Some m => ret (Some (wrap ("failed to delete pvc " +:+ pvcName) m))
      | None => ret None
      end
    end
  end.

Definition DeleteDinDDeployment (name : string) : M error :=
  let* err := kubeDelete KDeployment name in
  match realFailure err with
  | Some m => ret (Some (wrap ("failed to delete deployment " +:+ name) m))
  | None =>
    let* err := kubeDelete KService name in
    match realFailure err with
    | Some m => ret (Some (wrap ("failed to delete service " +:+ name) m))
    | None => ret None
    end
  end.

(** Running a loop body over the items of a slice. *)
Fixpoint forEach {A} (body : A -> M unit) (l : list A) : M unit :=
  match l with
  | [] => ret tt
  | x :: rest => let* _ := body x in forEach body rest
  end.

(** ** cmd/killer-controller

    Of the lines the controllers log, the journal keeps those that report
    a failure. *)

Definition processShutdownItem (item : QueueItem) : M (QueueItem * error) :=
  let item := set_Status StatusTerminated item in
  let* (item, err) := UpdateItem item in
  match err with
  | Some m =>
    ret (item, Some (wrap "failed to update item status to terminating" m))
  | None =>
    let* _ :=
      (if negb (String.eqb (PodID item) EmptyString) then
         let* err :=
           (if String.eqb (WorkloadType item) "deployment"
            then DeleteDinDDeployment (PodID item)
            else DeleteDinDStatefulSet (PodID item)) in
         match err with
         | Some m =>
           logLine ("Warning: Failed to delete workload " +:+ PodID item +:+ ": " +:+ m)
         | None => ret tt
         end
       else ret tt) in
    ret (item, None)
  end.

(** The body of the loop of [processShutdownItems]. *)
Definition shutdownOne (item : QueueItem) : M unit :=
  let* (item, err) := processShutdownItem item in
  match err with
  | None => ret tt
  | Some m =>
    let* _ := logLine ("Error processing shutdown item " +:+ ID item +:+ ": " +:+ m) in
    let item := set_ErrorMessage m (set_Status StatusError item) in
    let* (item, updateErr) := UpdateItem item in
    match updateErr with
    | Some um => logLine ("Failed to update item status to error: " +:+ um)
    | None => ret tt
    end
  end.

Definition processShutdownItems : M error :=
  let* r := GetItemsByStatus StatusShutdown in
  match r with
  | inr e => ret (Some (wrap "failed to get shutdown items" e))
  | inl shutdownItems =>
    let* _ := forEach shutdownOne shutdownItems in
    ret None
  end.

(** ** cmd/collector-controller *)

Definition terminatedGracePeriod : Z := 5 * Minute.

(** The body of the loop of [cleanupItems]; [now0] is the time read before
    the loop. *)
Definition cleanupOne (now0 : Z) (item : QueueItem) : M unit :=
  let* expired := ShouldBeCollected item in
  if expired then
    let item := set_Status StatusShutdown item in
    let* (item, err) := UpdateItem item in
    match err with
    | Some m =>
      let* _ := logLine ("Failed to update item " +:+ ID item +:+ " status to shutdown: " +:+ m) in
      let item := set_ErrorMessage "Failed to mark for shutdown during collection"
                    (set_Status StatusError item) in
      let* (item, updateErr) := UpdateItem item in
      match updateErr with
      | Some um => logLine ("Failed to update item " +:+ ID item +:+ " status to error: " +:+ um)
      | None => ret tt
      end
    | None => ret tt
    end
  else if String.eqb (Status item) StatusTerminated then
    if (terminatedGracePeriod <? now0 - StatusUpdatedAt item)%Z then
      let* err := DeleteItem (ID item) in
      match err with
      | Some m => logLine ("Failed to delete terminated item " +:+ ID item +:+ ": " +:+ m)
      | None => ret tt
      end
    else ret tt
  else ret tt.

Definition cleanupItems : M error :=
  let* r := GetAllItems in
  match r with
  | inr e => ret (Some e)
  | inl allItems =>
    let* now0 := timeNow in
    let* _ := forEach (cleanupOne now0) allItems in
    ret None
  end.

(** ** pkg/k8s: what the generator calls *)

Definition set_serviceGets (l : list (string + string)) (kb : Kube) : Kube :=
  mkKube (statefulsets kb) (deployments kb) (services kb) (pvcs kb)
         (kube_faults kb) l (execs kb) (podLists kb) (podGets kb).
Definition set_execs (l : list ExecReply) (kb : Kube) : Kube :=
  mkKube (statefulsets kb) (deployments kb) (services kb) (pvcs kb)
         (kube_faults kb) (serviceGets kb) l (podLists kb) (podGets kb).
Definition set_podLists (l : list (list Pod + string)) (kb : Kube) : Kube :=
  mkKube (statefulsets kb) (deployments kb) (services kb) (pvcs kb)
         (kube_faults kb) (serviceGets kb) (execs kb) l (podGets kb).
Definition set_podGets (l : list (Pod + string)) (kb : Kube) : Kube :=
  mkKube (statefulsets kb) (deployments kb) (services kb) (pvcs kb)
         (kube_faults kb) (serviceGets kb) (execs kb) (podLists kb) l.

Definition unreachable : string := "context deadline exceeded".

(** [clientset...Create(ctx, obj, ...)] on objects of kind [k]. *)
Definition kubeCreate (k : Kind) (name : string) : M (option ApiError) :=
  let* _ := (fun w => (tt, emit (EvCreate k name) w)) in
  let* f := kubeFault in
  match f with
  | Some msg => ret (Some (ErrOther msg))
  | None => fun w =>
    if decide (name ∈ objects k (kube w))
    then (Some (ErrAlreadyExists k name), w)
    else (None, set_kube (set_objects k ({[name]} ∪ objects k (kube w)) (kube w)) w)
  end.

(** A value, an error, or a panic of the process. *)
Inductive Res (A : Type) :=
| Ok (a : A)
| Fail (msg : string)
| Crash (msg : string).
Arguments Ok {A} a.
Arguments Fail {A} msg.
Arguments Crash {A} msg.

Section Cluster.

(** The namespace of the workloads, the case tables of Unicode, and the
    quantities that [resource.MustParse] accepts. *)
Variable namespace : string.
Variable caseTable : utf8.rune -> utf8.rune.
Variable quantityParses : string -> bool.

Definition GetServiceClusterIP (name : string) : M (string + string) := fun w =>
  let w' := set_kube (set_serviceGets (tl (serviceGets (kube w))) (kube w)) w in
  match hd (inr unreachable) (serviceGets (kube w)) with
  | inr e =>
    (inr (wrap ("failed to get service " +:+ name +:+ " in namespace " +:+ namespace) e), w')
  | inl ip =>
    if String.eqb ip EmptyString || String.eqb ip "None"
    then (inr ("service " +:+ name +:+ " does not have a ClusterIP"), w')
    else (inl ip, w')
  end.

Definition EnsureNFSDirectory (ownerID : string) : M (string + string) := fun w =>
  let dirName := sanitizeName caseTable ownerID in
  let w' := set_kube (set_execs (tl (execs (kube w))) (kube w)) w in
  match hd (ExecStreamFailed EmptyString unreachable) (execs (kube w)) with
  | ExecNoExecutor e =>
    (inr (wrap "failed to create SPDY executor for nfs-server" e), w')
  | ExecStreamFailed stderr e =>
    (inr (wrap "failed to exec mkdir on nfs-server" e),
     emit (EvLog ("mkdir stderr: " +:+ stderr)) w')
  | ExecDone => (inl dirName, w')
  end.

(** [err != nil && !apierrors.IsAlreadyExists(err)]. *)
Definition createFailure (e : option ApiError) : option string :=
  match e with
  | Some err => if IsAlreadyExists err then None else Some (apiErrorText err)
  | None => None
  end.

Definition CreateDinDStatefulSet (name pvcSize : string) : M (Res string) :=
  let* err := kubeCreate KService name in
  match createFailure err with
  | Some m => ret (Fail (wrap "failed to create headless service" m))
  | None =>
    if negb (quantityParses pvcSize)
    then ret (Crash "cannot parse quantity")
    else
      let* err := kubeCreate KStatefulSet name in
      match err with
      | Some e =>
        let* _ := kubeDelete KService name in
        ret (Fail (wrap "failed to create statefulset" (apiErrorText e)))
      | None => ret (Ok (name +:+ "-0"))
      end
  end.

Definition CreateDinDDeployment (name : string) : M (Res string) :=
  let* err := kubeCreate KService name in
  match createFailure err with
  | Some m => ret (Fail (wrap "failed to create service for deployment" m))
  | None =>
    let* err := kubeCreate KDeployment name in
    match err with
    | Some e =>
      let* _ := kubeDelete KService name in
      ret (Fail (wrap "failed to create deployment" (apiErrorText e)))
    | None => ret (Ok name)
    end
  end.

Definition GetPod (name : string) : M (Pod + string) := fun w =>
  let w' := set_kube (set_podGets (tl (podGets (kube w))) (kube w)) w in
  match hd (inr unreachable) (podGets (kube w)) with
  | inr e =>
    (inr (wrap ("failed to get pod " +:+ name +:+ " in namespace " +:+ namespace) e), w')
  | inl pod => (inl pod, w')
  end.

Definition PodRunning : string := "Running".
Definition PodPending : string := "Pending".
Definition PodFailed : string := "Failed".
Definition PodSucceeded : string := "Succeeded".

Definition GetPodNameForWorkload (workloadName : string) : M (string + string) := fun w =>
  let w' := set_kube (set_podLists (tl (podLists (kube w))) (kube w)) w in
  match hd (inr unreachable) (podLists (kube w)) with
  | inr e => (inr (wrap ("failed to list pods for workload " +:+ workloadName) e), w')
  | inl [] => (inr ("no pods found for workload " +:+ workloadName), w')
  | inl (p0 :: rest) =>
    match List.find (fun p => String.eqb (podPhase p) PodRunning
                              || String.eqb (podPhase p) PodPending) (p0 :: rest) with
    | Some p => (inl (podName p), w')
    | None => (inl (podName p0), w')
    end
  end.

(** The loop of [IsPodRunning] over the container statuses: it stops at
    the first container that is not ready. *)
Fixpoint containersReady (l : list ContainerStatus) : bool + string :=
  match l with
  | [] => inl true
  | cs :: rest =>
    if csReady cs then containersReady rest
    else
      match csWaiting cs with
      | Some reason =>
        if String.eqb reason "CrashLoopBackOff" || String.eqb reason "ImagePullBackOff"
           || String.eqb reason "ErrImagePull"
        then inr ("container " +:+ csName cs +:+ " in CrashLoopBackOff or ImagePull error state")
        else match csTerminated cs with
             | Some exitCode =>
               inr ("container " +:+ csName cs +:+ " terminated with exit code " +:+ pretty exitCode)
             | None => inl false
             end
      | None =>
        match csTerminated cs with
        | Some exitCode =>
          inr ("container " +:+ csName cs +:+ " terminated with exit code " +:+ pretty exitCode)
        | None => inl false
        end
      end
  end.

Definition IsPodRunning (name : string) : M (bool + string) :=
  let* r := GetPod name in
  match r with
  | inr e => ret (inr e)
  | inl pod =>
    if String.eqb (podPhase pod) PodFailed || String.eqb (podPhase pod) PodSucceeded
    then ret (inl false)
    else if negb (String.eqb (podPhase pod) PodRunning) then ret (inl false)
    else match podContainers pod with
         | [] => ret (inl false)
         | _ :: _ => ret (containersReady (podContainers pod))
         end
  end.

End Cluster.

(** ** cmd/generator-controller *)

(** [getEnv]: the value of an environment variable ([EmptyString] when it
    is not set), or the default. *)
Definition getEnv (value defaultValue : string) : string :=
  if negb (String.eqb value EmptyString) then value else defaultValue.

(** [fmt]'s [%v] of a slice of strings. *)
Definition fmtStrings (l : list string) : string :=
  "[" +:+ String.concat " " l +:+ "]".

(** [getMapKeys]: the keys in the order of Go's [range] over the map. *)
Definition getMapKeys (m : gmap string string) : list string :=
  (map_to_list m).*1.

(** [s[:n]], which panics when [s] is shorter than [n] bytes. *)
Definition slicePrefix (s : string) (n : nat) : option string :=
  if (String.length s <? n)%nat then None else Some (String.substring 0 n s).

Section Generator.

Variable namespace : string.
Variable caseTable : utf8.rune -> utf8.rune.
Variable quantityParses : string -> bool.
(** The package variables set by [main], and [DIND_PVC_SIZE] of the
    environment. *)
Variable dindImageBaseRepository : string.
Variable dindImageVersions : gmap string string.
Variable DIND_PVC_SIZE : string.

Definition unsupportedVersion (version : string) : string :=
  "unsupported k8s version for DinD image: " +:+ version
  +:+ ". Check DIND_IMAGE_VERSIONS_JSON configuration. Available versions: "
  +:+ fmtStrings (getMapKeys dindImageVersions).

Definition nextWake : M Wake := fun w =>
  (hd WakeTimeout (wakes w), set_wakes (tl (wakes w)) w).

(** The [for { select { ... } }] of [processItem].  Each turn consumes one
    wake-up of the script; when the script is over the five-minute timer
    has fired. *)
Fixpoint awaitPod (turns : nat) (item : QueueItem)
    (workloadName workloadType podName : string) : M (QueueItem * Res unit) :=
  match turns with
  | O => ret (item, Fail ("timeout waiting for pod to be running for workload " +:+ workloadName))
  | S turns' =>
    let* wk := nextWake in
    match wk with
    | WakeCancel => ret (item, Fail "context canceled")
    | WakeTimeout =>
      ret (item, Fail ("timeout waiting for pod to be running for workload " +:+ workloadName))
    | WakeTick =>
      let* resolved :=
        (if String.eqb podName EmptyString && String.eqb workloadType "deployment"
         then
           let* r := GetPodNameForWorkload workloadName in
           match r with
           | inr _ => ret None
           | inl n => ret (Some n)
           end
         else ret (Some podName)) in
      match resolved with
      | None => awaitPod turns' item workloadName workloadType podName
      | Some podName =>
        if String.eqb podName EmptyString
        then awaitPod turns' item workloadName workloadType podName
        else
          let* r := IsPodRunning namespace podName in
          match r with
          | inr e =>
            let* _ := logLine ("Failed to check pod status for " +:+ podName
                               +:+ ", assuming creation failed: " +:+ e) in
            ret (item, Fail (wrap ("failed to check pod status for " +:+ podName) e))
          | inl true =>
            let item := set_Status StatusAvailable item in
            let* (item, err) := UpdateItem item in
            match err with
            | Some m => ret (item, Fail (wrap "failed to update item status to available" m))
            | None => ret (item, Ok tt)
            end
          | inl false =>
            let* _ := GetPod namespace podName in
            awaitPod turns' item workloadName workloadType podName
          end
      end
    end
  end.

Definition processItem (item : QueueItem) : M (QueueItem * Res unit) :=
  let item := set_Status StatusGenerating item in
  let* (item, err) := UpdateItem item in
  match err with
  | Some m => ret (item, Fail (wrap "failed to update item status to generating" m))
  | None =>
    match slicePrefix (ID item) 8 with
    | None => ret (item, Crash "slice bounds out of range")
    | Some idPrefix =>
      let workloadName := "k8s-playground-" +:+ idPrefix in
      match dindImageVersions !! K8sVersion item with
      | None =>
        let err := unsupportedVersion (K8sVersion item) in
        let* _ := logLine err in
        let item := set_ErrorMessage err (set_Status StatusError item) in
        let* (item, updateErr) := UpdateItem item in
        let* _ :=
          match updateErr with
          | Some um =>
            logLine ("Failed to update item status to error after unsupported K8s version: " +:+ um)
          | None => ret tt
          end in
        ret (item, Fail err)
      | Some imageTag =>
        let dindImageName := dindImageBaseRepository +:+ ":" +:+ imageTag in
        let workloadType :=
          if String.eqb (WorkloadType item) EmptyString then "statefulset"
          else WorkloadType item in
        let* ip := GetServiceClusterIP namespace "k8s-playground-nfs-server" in
        match ip with
        | inr e => ret (item, Fail (wrap "failed to get nfs server service IP" e))
        | inl nfsServerIP =>
          let* sub := EnsureNFSDirectory caseTable (Owner item) in
          match sub with
          | inr e =>
            ret (item, Fail (wrap ("failed to ensure nfs directory for owner " +:+ Owner item) e))
          | inl nfsSubPath =>
            let* created :=
              (if String.eqb workloadType "deployment"
               then
                 let* r := CreateDinDDeployment workloadName in
                 match r with
                 | Ok _ => ret (Ok EmptyString)
                 | Fail m => ret (Fail m)
                 | Crash m => ret (Crash m)
                 end
               else
                 let pvcSize := getEnv DIND_PVC_SIZE "10Gi" in
                 CreateDinDStatefulSet quantityParses workloadName pvcSize) in
            match created with
            | Crash m => ret (item, Crash m)
            | Fail m =>
              ret (item, Fail (wrap ("failed to create DinD workload with image " +:+ dindImageName) m))
            | Ok podName =>
              let item := set_PodID workloadName item in
              let* turns := (fun w => (S (length (wakes w)), w)) in
              awaitPod turns item workloadName workloadType podName
            end
          end
        end
      end
    end
  end.

(** The loop of [processPendingItems]; a panic ends the process. *)
Fixpoint pendingLoop (items : list QueueItem) : M (Res unit) :=
  match items with
  | [] => ret (Ok tt)
  | item :: rest =>
    let* (item, r) := processItem item in
    match r with
    | Crash m => ret (Crash m)
    | Ok _ => pendingLoop rest
    | Fail m =>
      let* _ := logLine ("Error processing item " +:+ ID item +:+ ": " +:+ m) in
      let item := set_ErrorMessage m (set_Status StatusError item) in
      let* (item, updateErr) := UpdateItem item in
      let* _ :=
        match updateErr with
        | Some um =>
          logLine ("Failed to update item " +:+ ID item +:+ " status to error: " +:+ um)
        | None => ret tt
        end in
      pendingLoop rest
    end
  end.

Definition processPendingItems : M (Res unit) :=
  let* r := GetItemsByStatus StatusPending in
  match r with
  | inr e => ret (Fail (wrap "failed to get pending items" e))
  | inl pendingItems => pendingLoop pendingItems
  end.

End Generator.

(** ** internal/controllers: the REST handlers *)

Inductive Body :=
| ErrorBody (msg : string)                 (* [gin.H{"error": msg}] *)
| MessageBody (msg : string)
| EnvironmentBody (item : QueueItem)
| OtherBody.                                (* any other body, or none *)

Record Response := mkResponse { httpStatus : nat; httpBody : Body }.

Definition StatusOK : nat := 200.
Definition StatusCreated : nat := 201.
Definition StatusBadRequest : nat := 400.
Definition StatusForbidden : nat := 403.
Definition StatusNotFound : nat := 404.
Definition StatusInternalServerError : nat := 500.

Definition notOwner : Body := ErrorBody "You are not the owner of this environment".

(** [utf8.RuneCountInString]. *)
Definition RuneCount (s : string) : nat := length (utf8.runes (s2b s)).

(** [c.ShouldBindJSON(&req)] for a request with the one field
    [display_name] tagged [binding:"required,max=50"]: [decoded] is what
    the JSON decoder made of the request body (the field, empty when the
    body has none, or the decoder's error); the validator then wants it
    non-empty and of at most 50 runes. *)
Definition bindDisplayName (decoded : string + string) : string + string :=
  match decoded with
  | inr e => inr e
  | inl name =>
    if String.eqb name EmptyString
    then inr "Key: 'DisplayName' Error:Field validation for 'DisplayName' failed on the 'required' tag"
    else if (50 <? RuneCount name)%nat
    then inr "Key: 'DisplayName' Error:Field validation for 'DisplayName' failed on the 'max' tag"
    else inl name
  end.

(** The answer to a failed [GetItem]; [purpose] is what the log line of
    the handler says the record was wanted for. *)
Definition loadFailed (purpose id ownerID e : string) : M Response :=
  if String.eqb e itemNotFound
  then ret (mkResponse StatusNotFound (ErrorBody "Environment not found"))
  else
    let* _ := logLine ("Error getting environment " +:+ id +:+ purpose
                       +:+ ownerID +:+ ": " +:+ e) in
    ret (mkResponse StatusInternalServerError
           (ErrorBody "Failed to retrieve environment details")).

(** The answer to a principal that does not own the record; [action] is
    what the log line of the handler says was attempted. *)
Definition forbidden (action ownerID id : string) (item : QueueItem)
  : M Response :=
  let* _ := logLine ("Forbidden: Owner " +:+ ownerID +:+ " attempted to "
                     +:+ action +:+ " environment " +:+ id +:+ " owned by "
                     +:+ Owner item) in
  ret (mkResponse StatusForbidden notOwner).

Section Handlers.

(** The fields of [AppController] and the variables of the environment that
    the handlers read, and the parts of the handlers that talk to the pod:
    service discovery, the terminal session behind the WebSocket upgrade,
    and the proxy through the container. *)
Variable NAMESPACE : string.
Variable k8sClientPresent : bool.
Variable dindWorkloadType : string.
Variable GetServicesInPod : string -> string -> M (Body + string).
Variable handleTerminalSession : QueueItem -> string -> string -> M Response.
Variable proxyThroughDinDContainer :
  string -> string -> string -> string -> M Response.

Definition handlerNamespace : string := getEnv NAMESPACE "default".

Definition createEnvironment (ownerID : string)
    (decoded : (string * string) + string) : M Response :=
  match decoded with
  | inr e => ret (mkResponse StatusBadRequest (ErrorBody ("Invalid request: " +:+ e)))
  | inl (k8sVersion, displayName) =>
    if String.eqb k8sVersion EmptyString
    then ret (mkResponse StatusBadRequest (ErrorBody "k8s_version is required"))
    else if (50 <? String.length displayName)%nat
    then ret (mkResponse StatusBadRequest
                (ErrorBody "DisplayName cannot exceed 50 characters"))
    else
      let workloadType :=
        if negb (String.eqb dindWorkloadType "statefulset")
           && negb (String.eqb dindWorkloadType "deployment")
        then "statefulset" else dindWorkloadType in
      let* t1 := timeNow in
      let* t2 := timeNow in
      let item := mkItem ownerID k8sVersion StatusPending EmptyString t1
                         EmptyString (t2 + 24 * Hour)%Z EmptyString displayName
                         workloadType in
      let* (item, err) := AddItem item in
      match err with
      | Some m =>
        let* _ := logLine ("Error creating environment for owner " +:+ ownerID
                           +:+ " (version " +:+ k8sVersion +:+ ", name "
                           +:+ displayName +:+ "): " +:+ m) in
        ret (mkResponse StatusInternalServerError
               (ErrorBody "Failed to create environment"))
      | None => ret (mkResponse StatusCreated (EnvironmentBody item))
      end
  end.

Definition updateEnvironmentDisplayName (ownerID envID : string)
    (decoded : string + string) : M Response :=
  match bindDisplayName decoded with
  | inr e => ret (mkResponse StatusBadRequest (ErrorBody ("Invalid request: " +:+ e)))
  | inl displayName =>
    let* r := GetItem envID in
    match r with
    | inr e => loadFailed " for name update by owner " envID ownerID e
    | inl item =>
      if negb (String.eqb (Owner item) ownerID)
      then forbidden "update name for" ownerID envID item
      else
        let item := set_DisplayName displayName item in
        let* t := timeNow in
        let item := set_StatusUpdatedAt t item in
        let* (item, err) := UpdateItem item in
        match err with
        | Some m =>
          let* _ := logLine ("Error updating display name for environment "
                             +:+ envID +:+ " by owner " +:+ ownerID +:+ ": " +:+ m) in
          ret (mkResponse StatusInternalServerError
                 (ErrorBody "Failed to update environment display name"))
        | None => ret (mkResponse StatusOK (EnvironmentBody item))
        end
    end
  end.

Definition destroyEnvironment (ownerID id : string) : M Response :=
  let* r := GetItem id in
  match r with
  | inr e => loadFailed " for owner " id ownerID e
  | inl item =>
    if negb (String.eqb (Owner item) ownerID)
    then forbidden "destroy" ownerID id item
    else
      let item := set_Status StatusShutdown item in
      let* t := timeNow in
      let item := set_StatusUpdatedAt t item in
      let* (item, err) := UpdateItem item in
      match err with
      | Some m =>
        let* _ := logLine ("Error marking environment " +:+ id
                           +:+ " for destruction by owner " +:+ ownerID
                           +:+ ": " +:+ m) in
        ret (mkResponse StatusInternalServerError
               (ErrorBody "Failed to destroy environment"))
      | None =>
        ret (mkResponse StatusOK (MessageBody "Environment marked for destruction"))
      end
  end.

(** A handler that calls a method of the nil [k8sClient] panics on the
    first use of the client (a nil pointer dereference, before anything is
    written); the recovery middleware of [gin.Default] answers 500 without
    a body. *)
Definition nilClientPanic : M Response :=
  ret (mkResponse StatusInternalServerError OtherBody).

(** The name of the pod of a record: looked up for a deployment, derived
    for a stateful set. *)
Definition podNameOf (item : QueueItem) : M (string + string) :=
  if String.eqb (WorkloadType item) "deployment"
  then GetPodNameForWorkload (PodID item)
  else ret (inl (PodID item +:+ "-0")).

Definition connectEnvironment (ownerID envId : string) : M Response :=
  let* r := GetItem envId in
  match r with
  | inr e =>
    let* _ := logLine ("Connect: Environment " +:+ envId +:+ " not found for owner "
                       +:+ ownerID +:+ ". Error: " +:+ e) in
    ret (mkResponse StatusNotFound (ErrorBody "Environment not found"))
  | inl item =>
    if negb (String.eqb (Owner item) ownerID) then
      let* _ := logLine ("Connect: Owner " +:+ ownerID
                         +:+ " attempted to access environment " +:+ envId
                         +:+ " owned by " +:+ Owner item +:+ ".") in
      ret (mkResponse StatusForbidden notOwner)
    else if negb (String.eqb (Status item) StatusAvailable) then
      let* _ := logLine ("Connect: Environment " +:+ envId
                         +:+ " not available for owner " +:+ ownerID
                         +:+ ". Status: " +:+ Status item) in
      ret (mkResponse StatusBadRequest (ErrorBody "Environment not available"))
    else if negb k8sClientPresent then
      let* _ := logLine ("Connect: Kubernetes client not available for environment "
                         +:+ envId +:+ ", owner " +:+ ownerID +:+ ".") in
      ret (mkResponse StatusInternalServerError
             (ErrorBody "Kubernetes client not available"))
    else if String.eqb (PodID item) EmptyString then
      let* _ := logLine ("Connect: Pod ID (StatefulSet name) not available for environment "
                         +:+ envId +:+ ", owner " +:+ ownerID +:+ ".") in
      ret (mkResponse StatusBadRequest (ErrorBody "Pod ID not available"))
    else
      let* p := podNameOf item in
      match p with
      | inr e =>
        let* _ := logLine ("Connect: Failed to get pod name for workload "
                           +:+ PodID item +:+ " (env " +:+ envId +:+ "): " +:+ e) in
        ret (mkResponse StatusInternalServerError
               (ErrorBody "Could not find the running pod for the environment"))
      | inl podName => handleTerminalSession item podName handlerNamespace
      end
  end.

Definition getEnvironmentServices (ownerID envID : string) : M Response :=
  let* r := GetItem envID in
  match r with
  | inr e => loadFailed " for services by owner " envID ownerID e
  | inl item =>
    if negb (String.eqb (Owner item) ownerID)
    then forbidden "access services for" ownerID envID item
    else if negb (String.eqb (Status item) StatusAvailable)
    then ret (mkResponse StatusBadRequest (ErrorBody "Environment is not available"))
    else if String.eqb (PodID item) EmptyString
    then ret (mkResponse StatusBadRequest (ErrorBody "Pod ID not available"))
    else if negb k8sClientPresent then nilClientPanic
    else
      let* p := podNameOf item in
      match p with
      | inr e =>
        let* _ := logLine ("Failed to get pod name for workload " +:+ PodID item
                           +:+ " (env " +:+ envID +:+ "): " +:+ e) in
        ret (mkResponse StatusInternalServerError
               (ErrorBody "Could not find the running pod for the environment"))
      | inl podName =>
        let* s := GetServicesInPod podName handlerNamespace in
        match s with
        | inr e =>
          let* _ := logLine ("Error getting services for pod " +:+ podName
                             +:+ " in environment " +:+ envID +:+ ": " +:+ e) in
          ret (mkResponse StatusInternalServerError
                 (ErrorBody "Failed to retrieve services"))
        | inl services => ret (mkResponse StatusOK services)
        end
      end
  end.

Definition proxyToPod (ownerID envID path : string) (portQuery : option string)
  : M Response :=
  let* r := GetItem envID in
  match r with
  | inr e => loadFailed " for proxy by owner " envID ownerID e
  | inl item =>
    if negb (String.eqb (Owner item) ownerID)
    then forbidden "proxy to" ownerID envID item
    else if negb (String.eqb (Status item) StatusAvailable)
    then ret (mkResponse StatusBadRequest (ErrorBody "Environment is not available"))
    else if String.eqb (PodID item) EmptyString
    then ret (mkResponse StatusBadRequest (ErrorBody "Pod ID not available"))
    else if negb k8sClientPresent then nilClientPanic
    else
      let* p := podNameOf item in
      match p with
      | inr e =>
        let* _ := logLine ("Failed to get pod name for workload " +:+ PodID item
                           +:+ " (env " +:+ envID +:+ "): " +:+ e) in
        ret (mkResponse StatusInternalServerError
               (ErrorBody "Could not find the running pod for the environment"))
      | inl podName =>
        let port := default "80" portQuery in
        proxyThroughDinDContainer podName handlerNamespace port path
      end
  end.

(** The resource-bound routes of [SetupRoutes]. *)
Inductive Request :=
| ReqDestroy                                         (* DELETE /api/environments/:id *)
| ReqRename (decoded : string + string)              (* PUT .../displayname *)
| ReqConnect                                         (* GET .../connect *)
| ReqServices                                        (* GET .../services *)
| ReqProxy (path : string) (port : option string).   (* ANY .../browser/*path *)

Definition serve (req : Request) (ownerID id : string) : M Response :=
  match req with
  | ReqDestroy => destroyEnvironment ownerID id
  | ReqRename decoded => updateEnvironmentDisplayName ownerID id decoded
  | ReqConnect => connectEnvironment ownerID id
  | ReqServices => getEnvironmentServices ownerID id
  | ReqProxy path port => proxyToPod ownerID id path port
  end.

End Handlers.

(** ** internal/controllers: the resize queue of a terminal session *)

Record TerminalSize := mkSize { Width : N; Height : N }.

(** [sizeChan], a channel with a buffer of two sizes (oldest first), and
    the sizes that [Next] has handed to the exec stream so far. *)
Record TerminalSession := mkSession {
  sizeChan : list TerminalSize;
  delivered : list TerminalSize }.

Definition sizeChanCap : nat := 2.

Definition NewTerminalSession : TerminalSession := mkSession [] [].

(** [Next], on a session that is not closed: the oldest size of the
    channel goes to the exec stream; on an empty channel [Next] waits. *)
Definition Next (t : TerminalSession) : TerminalSession :=
  match sizeChan t with
  | size :: rest => mkSession rest (delivered t ++ [size])
  | [] => t
  end.

Fixpoint NextN (n : nat) (t : TerminalSession) : TerminalSession :=
  match n with
  | O => t
  | S n' => NextN n' (Next t)
  end.

(** What the exec stream does while [Resize] waits on a full channel:
    nothing, or it receives within the 100 ms (and the send goes through),
    or it receives [k] sizes just after the timer has fired. *)
Inductive Receiver := Idle | ReceivesInTime | ReceivesLate (k : nat).

(** The inner [select] of [Resize], after the timer: one size is taken
    off the channel if there is one, and the new size is sent if there is
    room. *)
Definition replaceOldest (size : TerminalSize) (t : TerminalSession)
  : TerminalSession :=
  match sizeChan t with
  | _ :: rest =>
    if (length rest <? sizeChanCap)%nat
    then mkSession (rest ++ [size]) (delivered t)
    else mkSession rest (delivered t)
  | [] => t
  end.

Definition Resize (rcv : Receiver) (cols rows : N) (t : TerminalSession)
  : TerminalSession :=
  let size := mkSize cols rows in
  if (length (sizeChan t) <? sizeChanCap)%nat
  then mkSession (sizeChan t ++ [size]) (delivered t)
  else
    match rcv with
    | ReceivesInTime =>
      let t := Next t in mkSession (sizeChan t ++ [size]) (delivered t)
    | Idle => replaceOldest size t
    | ReceivesLate k => replaceOldest size (NextN k t)
    end.

(** ** internal/controllers: the keystroke parser of the command audit *)

Section Audit.

(** [json.Unmarshal(data, &controlMsg)] into a [map[string]interface{}]:
    the keys of the decoded object, or [None] when the decoder returns an
    error.  The decoder belongs to Go's library. *)
Variable jsonObjectKeys : bytes -> option (list string).

Definition isResizeFrame (data : bytes) : bool :=
  match jsonObjectKeys data with
  | Some keys => bool_decide ("resize" ∈ keys)
  | None => false
  end.

(** The runes that the parser keeps. *)
Definition printable (r : utf8.rune) : bool :=
  (((32 <=? r) && (r <=? 126)) || (r =? 32) || (r =? 9))%N.

(** The loop [for _, r := range str] that appends the kept runes. *)
Definition appendPrintable (buffer : bytes) (str : bytes) : bytes :=
  fold_left (fun buf rb => if printable (fst rb) then buf ++ [byte (fst rb)] else buf)
            (utf8.runes str) buffer.

(** [len(str) > 0 && str[0] == '\x1b']. *)
Definition startsWithESC (str : bytes) : bool :=
  match str with
  | c :: _ => Ascii.eqb c ESC
  | [] => false
  end.

(** [commandBuffer.LoadOrStore(sessionID, EmptyString)]. *)
Definition LoadOrStore (sessionID : string) (commandBuffer : gmap string string)
  : string * gmap string string :=
  match commandBuffer !! sessionID with
  | Some buffer => (buffer, commandBuffer)
  | None => (EmptyString, <[sessionID := EmptyString]> commandBuffer)
  end.

(** [commandBuffer] is the map from session id to the line typed so far;
    the result is the command returned and the map afterwards. *)
Definition ParseCommandFromWebSocketDataWithSession (data : bytes)
    (sessionID : string) (commandBuffer : gmap string string)
  : string * gmap string string :=
  if isResizeFrame data then (EmptyString, commandBuffer)
  else
    let str := data in
    if startsWithESC str then (EmptyString, commandBuffer)
    else
      let '(currentBuffer, commandBuffer) := LoadOrStore sessionID commandBuffer in
      if gostrings.Contains1 str CR || gostrings.Contains1 str LF then
        let command := b2s (gostrings.TrimSpace (s2b currentBuffer)) in
        let commandBuffer := <[sessionID := EmptyString]> commandBuffer in
        if (0 <? String.length command)%nat then (command, commandBuffer)
        else (EmptyString, commandBuffer)
      else if bool_decide (str = [BS]) || bool_decide (str = [DEL]) then
        if (0 <? String.length currentBuffer)%nat then
          (EmptyString,
           <[sessionID := b2s (removelast (s2b currentBuffer))]> commandBuffer)
        else (EmptyString, commandBuffer)
      else
        (EmptyString,
         <[sessionID := b2s (appendPrintable (s2b currentBuffer) str)]> commandBuffer).

(** Feeding a sequence of messages to one session: the commands returned,
    in order, and the buffers at the end. *)
Fixpoint feed (inputs : list bytes) (sessionID : string)
    (commandBuffer : gmap string string) : list string * gmap string string :=
  match inputs with
  | [] => ([], commandBuffer)
  | data :: rest =>
    let '(command, commandBuffer) :=
      ParseCommandFromWebSocketDataWithSession data sessionID commandBuffer in
    let '(commands, commandBuffer) := feed rest sessionID commandBuffer in
    (command :: commands, commandBuffer)
  end.

End Audit.

Module strconv.

(** The value of a string of decimal digits. *)
Fixpoint digits (s : bytes) (acc : Z) : option Z :=
  match s with
  | [] => Some acc
  | c :: t =>
    if utf8.between 48 57 (code c)
    then digits t (10 * acc + (Z.of_N (code c) - 48))
    else None
  end.

Definition maxInt : Z := 2 ^ 63 - 1.
Definition minInt : Z := - 2 ^ 63.

(** [strconv.Atoi] on a 64-bit platform: an optional sign and decimal
    digits, within the range of [int]; [None] stands for a non-nil
    error. *)
Definition Atoi (s : bytes) : option Z :=
  let '(neg, body) :=
    match s with
    | c :: t =>
      if Ascii.eqb c "-"%char then (true, t)
      else if Ascii.eqb c "+"%char then (false, t)
      else (false, s)
    | [] => (false, [])
    end in
  match body with
  | [] => None
  | _ :: _ =>
    match digits body 0 with
    | None => None
    | Some n =>
      let v := if neg then (- n)%Z else n in
      if (minInt <=? v)%Z && (v <=? maxInt)%Z then Some v else None
    end
  end.

End strconv.

(** ** pkg/k8s: the services of a pod, from the output of netstat *)

Record ServiceInfo := mkService {
  Name : string;
  Port : Z;
  Protocol : string;
  Description : string }.

(** [getServiceDescription]. *)
Definition getServiceDescription (port : Z) : string :=
  match port with
  | 80 => "HTTP Web Server"
  | 443 => "HTTPS Web Server"
  | 3000 => "Development Server"
  | 8000 => "HTTP Alternative"
  | 8080 => "HTTP Proxy/Alternative"
  | 8443 => "HTTPS Alternative"
  | 9000 => "Application Server"
  | 3306 => "MySQL Database"
  | 5432 => "PostgreSQL Database"
  | 6379 => "Redis Cache"
  | 27017 => "MongoDB Database"
  | 5000 => "Application Server"
  | 4000 => "Application Server"
  | 8888 => "Jupyter/Application Server"
  | 9090 => "Prometheus/Monitoring"
  | 3001 => "Development Server"
  | 8001 => "HTTP Alternative"
  | 8002 => "HTTP Alternative"
  | 8003 => "HTTP Alternative"
  | 8004 => "HTTP Alternative"
  | 8005 => "HTTP Alternative"
  | _ => "Service on port " +:+ pretty port
  end%Z.

(** [isWebPort]. *)
Definition isWebPort (port : Z) : bool :=
  bool_decide (port ∈ [80; 443; 3000; 8000; 8080; 8443; 9000; 5000; 4000;
                       3001; 8001; 8888]%Z).

(** The ports that [scanCommonPorts] probes. *)
Definition commonPorts : list Z :=
  [80; 443; 3000; 8000; 8080; 8443; 3001; 4000; 5000; 8001; 8888; 9000;
   30000; 30001; 30002; 30003; 30080; 31000]%Z.

(** [fields[i]], used where the length of [fields] has been checked. *)
Definition field (fields : list bytes) (i : nat) : bytes := nth i fields [].

(** The address and the protocol that the loop of [parseNetstatOutput]
    reads off the fields of a line; no address is the empty string. *)
Definition netstatAddress (fields : list bytes) : bytes * bytes :=
  if gostrings.HasPrefix (field fields 0) (s2b "tcp")
     || gostrings.HasPrefix (field fields 0) (s2b "udp")
  then (field fields 3, field fields 0)
  else if (2 <=? length fields)%nat
          && (gostrings.Contains (field fields 1) (s2b ":")
              || gostrings.Contains (field fields 0) (s2b ":"))
  then
    let address := field fields 1 in
    (if negb (gostrings.Contains address (s2b ":"))
        && gostrings.Contains (field fields 0) (s2b ":")
     then field fields 0 else address,
     s2b "tcp")
  else ([], []).

(** [port < 1024 && port != 80 && port != 443 && port != 8080 && port !=
    3000 && port != 8000]. *)
Definition systemPort (port : Z) : bool :=
  (port <? 1024)%Z && negb (port =? 80)%Z && negb (port =? 443)%Z
  && negb (port =? 8080)%Z && negb (port =? 3000)%Z && negb (port =? 8000)%Z.

(** The body of the loop of [parseNetstatOutput]. *)
Definition netstatLine (services : list ServiceInfo) (line : bytes)
  : list ServiceInfo :=
  let line := gostrings.TrimSpace line in
  if bool_decide (line = []) || negb (gostrings.Contains line (s2b "LISTEN"))
  then services
  else
    let fields := gostrings.Fields line in
    if (length fields <? 4)%nat then services
    else
      let '(address, protocol) := netstatAddress fields in
      if bool_decide (address = []) then services
      else
        let portStr :=
          if gostrings.Contains address (s2b ":")
          then List.last (gostrings.Split1 address ":"%char) []
          else [] in
        if bool_decide (portStr = []) || bool_decide (portStr = s2b "*")
        then services
        else
          match strconv.Atoi portStr with
          | None => services
          | Some port =>
            if systemPort port then services
            else
              let service := mkService ("service-" +:+ pretty port) port
                               (b2s protocol) (getServiceDescription port) in
              if existsb (fun existing => (Port existing =? port)%Z) services
              then services
              else services ++ [service]
          end.

Definition parseNetstatOutput (output : string) : list ServiceInfo :=
  fold_left netstatLine (gostrings.Split1 (s2b output) LF) [].

(** What the exec of the listing command in the [dind] container gives:
    no executor, a stream that broke, or the standard output. *)
Inductive ExecOutput :=
| OutNoExecutor (e : string)
| OutStreamFailed (e stderr : string)
| OutDone (stdout : string).

(** [getDinDContainerServices], on the answer to its exec of [netstat
    -tlnp | grep LISTEN || ss -tlnp | grep LISTEN || echo 'No listening
    services found']. *)
Definition getDinDContainerServices (reply : ExecOutput)
  : list ServiceInfo + string :=
  match reply with
  | OutNoExecutor e => inr (wrap "failed to create SPDY executor" e)
  | OutStreamFailed _ _ => inl []
  | OutDone output =>
    if gostrings.Contains (s2b output) (s2b "No listening services found")
       || String.eqb output EmptyString
    then inl []
    else inl (parseNetstatOutput output)
  end.

(** *** The services that [parseNetstatOutput] reports *)

(** A service as the loop reports it: named and described after its port,
    which is 80, 443 or not a system port, with a protocol that starts with
    [tcp] or [udp]. *)
Definition wellReported (s : ServiceInfo) : Prop :=
  Name s = "service-" +:+ pretty (Port s) /\
  Description s = getServiceDescription (Port s) /\
  (1024 <= Port s \/ Port s = 80 \/ Port s = 443)%Z /\
  (gostrings.HasPrefix (s2b (Protocol s)) (s2b "tcp")
   || gostrings.HasPrefix (s2b (Protocol s)) (s2b "udp")) = true.

Definition netstatInv (l : list ServiceInfo) : Prop :=
  NoDup (Port <$> l) /\ Forall wellReported l.

(** A line of the output of [ss -tlnp]: the state, the two queue lengths,
    then the addresses. *)
Definition ssLine (line : bytes) : Prop :=
  exists recvQ rest,
    gostrings.Fields (gostrings.TrimSpace line) = s2b "LISTEN" :: recvQ :: rest /\
    gostrings.Contains recvQ (s2b ":") = false.

(** An output of [ss -tlnp | grep LISTEN]: every line that mentions
    [LISTEN] is a line of [ss]; the other pieces between the newlines (the
    empty one after the last newline, for one) are free. *)
Definition ssOutput (output : string) : Prop :=
  Forall (fun line =>
            gostrings.Contains (gostrings.TrimSpace line) (s2b "LISTEN") = true ->
            ssLine line)
         (gostrings.Split1 (s2b output) LF).

Definition netstatSample : string :=
  "tcp        0      0 0.0.0.0:8080            0.0.0.0:*               LISTEN      1/nginx"
  +:+ String LF
  ("tcp6       0      0 :::22                   :::*                    LISTEN      7/sshd"
  +:+ String LF
  "tcp        0      0 127.0.0.1:8080          0.0.0.0:*               LISTEN      9/node").

Definition ssSample : string :=
  "LISTEN 0      128                *:80               *:*" +:+ String LF
  ("LISTEN 0      4096         0.0.0.0:8080       0.0.0.0:*" +:+ String LF EmptyString).

(** ** internal/controllers: reading the command log *)

Module logging.

Record CommandLog := mkLog {
  ID : string;
  EnvironmentID : string;
  UserID : string;
  UserName : string;
  PodName : string;
  Command : string;
  Timestamp : Z;
  SessionID : string }.

(** The sum of two [int]s, as the machine computes it (64 bits, two's
    complement). *)
Definition addInt (a b : Z) : Z := (a + b + 2 ^ 63) mod 2 ^ 64 - 2 ^ 63.

(** The test of the filter loop of [GetCommandLogs]: an empty criterion
    matches every entry. *)
Definition matches (userID environmentID : string) (logEntry : CommandLog) : bool :=
  negb (negb (String.eqb userID EmptyString)
        && negb (String.eqb (UserID logEntry) userID))
  && negb (negb (String.eqb environmentID EmptyString)
           && negb (String.eqb (EnvironmentID logEntry) environmentID)).

(** The [less] of the sort: [filteredLogs[i].Timestamp.After(filteredLogs[j].Timestamp)]. *)
Definition newerFirst (a b : CommandLog) : bool := After (Timestamp a) (Timestamp b).

Section Files.

(** The log directory as [GetCommandLogs] sees it: what [getLogFiles]
    returns (the file names, newest first, or an error) and what
    [readLogsFromFile] makes of each file; and [sort.Slice], which belongs
    to Go's library and leaves the order of entries with equal time stamps
    open. *)
Variable getLogFiles : list string + string.
Variable readLogsFromFile : string -> list CommandLog + string.
Variable sortSlice :
  (CommandLog -> CommandLog -> bool) -> list CommandLog -> list CommandLog.

(** The first loop: the entries of the files that can be read, in the
    order of the files. *)
Definition readAll (logFiles : list string) : list CommandLog :=
  flat_map (fun logFile =>
              match readLogsFromFile logFile with
              | inl fileLogs => fileLogs
              | inr _ => []
              end) logFiles.

(** [s[start:end]] for [end] within the length of the slice. *)
Definition slice (s : list CommandLog) (start end_ : Z) : Res (list CommandLog) :=
  if (start <? 0)%Z || (end_ <? start)%Z then Crash "slice bounds out of range"
  else Ok (take (Z.to_nat (end_ - start)) (drop (Z.to_nat start) s)).

Definition GetCommandLogs (userID environmentID : string) (limit offset : Z)
  : Res (list CommandLog) :=
  match getLogFiles with
  | inr e => Fail ("failed to get log files: " +:+ e)
  | inl logFiles =>
    let allLogs := readAll logFiles in
    let filteredLogs :=
      sortSlice newerFirst (List.filter (matches userID environmentID) allLogs) in
    let start := offset in
    if (Z.of_nat (length filteredLogs) <=? start)%Z then Ok []
    else
      let end_ := addInt start limit in
      let end_ := if (Z.of_nat (length filteredLogs) <? end_)%Z
                  then Z.of_nat (length filteredLogs) else end_ in
      slice filteredLogs start end_
  end.

(** The window that [getCommandLogs] of the app controller asks for, from
    the query parameters [limit] and [offset] ([None]: not given). *)
Definition windowOf (limitQuery offsetQuery : option string) : Z * Z :=
  let limitStr := default "100" limitQuery in
  let offsetStr := default "0" offsetQuery in
  let limit :=
    match strconv.Atoi (s2b limitStr) with
    | Some l => if (0 <? l)%Z && (l <=? 1000)%Z then l else 100%Z
    | None => 100%Z
    end in
  let offset :=
    match strconv.Atoi (s2b offsetStr) with
    | Some o => if (0 <=? o)%Z then o else 0%Z
    | None => 0%Z
    end in
  (limit, offset).

(** The entries that match, as sorted. *)
Definition matching (userID environmentID : string) : list CommandLog :=
  match getLogFiles with
  | inl logFiles =>
    sortSlice newerFirst (List.filter (matches userID environmentID) (readAll logFiles))
  | inr _ => []
  end.

End Files.

(** A stand-in for [sort.Slice]: insertion before the first entry that is
    not newer. *)
Fixpoint insertSorted (less : CommandLog -> CommandLog -> bool) (x : CommandLog)
    (l : list CommandLog) : list CommandLog :=
  match l with
  | [] => [x]
  | y :: rest => if less y x then y :: insertSorted less x rest else x :: l
  end.

Definition insertionSort (less : CommandLog -> CommandLog -> bool)
    (l : list CommandLog) : list CommandLog :=
  fold_right (insertSorted less) [] l.

Definition sampleLogs : list CommandLog :=
  [ mkLog "log_1" "env-a" "alice@example.com" "alice" "pod-a" "ls" 10 "s1";
    mkLog "log_2" "env-b" "bob@example.com" "bob" "pod-b" "kubectl get pods" 30 "s2";
    mkLog "log_3" "env-a" "alice@example.com" "alice" "pod-a" "whoami" 20 "s1" ].

Definition sampleFiles : string -> list CommandLog + string :=
  fun f => if String.eqb f "commands-2025-01-01.log" then inl sampleLogs
           else inr "no such file".

End logging.

(** ** internal/controllers: writing to the WebSocket *)

(** The connection as [WSClient.Write] sees it: the binary messages sent
    so far, and for each coming [WriteMessage] the error it returns, if
    any. *)
Record Conn := mkConn {
  sent : list bytes;
  write_faults : list (option string) }.

Definition WriteMessage (data : bytes) (c : Conn) : error * Conn :=
  match mjoin (head (write_faults c)) with
  | Some e => (Some e, mkConn (sent c) (tl (write_faults c)))
  | None => (None, mkConn (sent c ++ [data]) (tl (write_faults c)))
  end.

Definition maxChunkSize : nat := 4096.

(** The loop [for len(p) > 0] of [Write]; every turn sends at least one
    byte, so that [length p] turns are enough. *)
Fixpoint writeLoop (turns : nat) (p : bytes) (totalWritten : nat) (c : Conn)
  : (nat * error) * Conn :=
  match turns, p with
  | S turns', _ :: _ =>
    let chunkSize := if (maxChunkSize <? length p)%nat then maxChunkSize else length p in
    let chunk := take chunkSize p in
    let '(err, c) := WriteMessage chunk c in
    match err with
    | Some e => ((totalWritten, Some e), c)
    | None => writeLoop turns' (drop chunkSize p) (totalWritten + chunkSize) c
    end
  | _, _ => ((totalWritten, None), c)
  end.

Definition Write (p : bytes) : Conn -> (nat * error) * Conn :=
  writeLoop (length p) p 0.

(** A message that [Write] may send. *)
Definition chunk (m : bytes) : Prop := (0 < length m <= maxChunkSize)%nat.

(** ** internal/controllers: sessions, login and the two middlewares *)

Definition legacyOwnerID : string := "legacy_admin_user".

(** What [session.Values] holds under a key: the handlers store booleans
    and strings, and read them back with a type assertion. *)
Inductive Value := VBool (b : bool) | VString (s : string) | VOther.

(** A session of the cookie store: its values and [Options.MaxAge]. *)
Record Session := mkCookie {
  Values : gmap string Value;
  MaxAge : Z }.

(** How a handler of the chain answers: it lets the request through, with
    the keys it has set on the context, or it answers itself. *)
Inductive Outcome :=
| CallNext (context : gmap string string)
| Redirect (status : nat) (location : string)
| AbortJSON (status : nat) (message : string)
| HTML (status : nat) (message : string).

Definition StatusFound : nat := 302.
Definition StatusUnauthorized : nat := 401.

(** [v.(bool)] and [v.(string)] on a value read from the session. *)
Definition asBool (v : option Value) : option bool :=
  match v with Some (VBool b) => Some b | _ => None end.
Definition asString (v : option Value) : option string :=
  match v with Some (VString s) => Some s | _ => None end.

Section Auth.

Variable authMethod : string.
Variable legacyAuthPassword : string.
(** [ADMIN_USERS] of the environment. *)
Variable ADMIN_USERS : string.

(** The answer to a request that is not let through: a JSON error for a
    WebSocket upgrade, a redirect to the login page otherwise. *)
Definition turnAway (upgrade : string) (status : nat) (message location : string)
  : Outcome :=
  if String.eqb upgrade "websocket" then AbortJSON status message
  else Redirect StatusFound location.

(** The session as the middleware saves it when it finds it inconsistent. *)
Definition invalidated (session : Session) : Session :=
  mkCookie (<["authenticated" := VBool false]> (Values session)) (-1).

(** [authMiddleware]: [stored] is what [sessionStore.Get] returns,
    [upgrade] the [Upgrade] header of the request; the result is the
    outcome and the session that was saved, if one was. *)
Definition authMiddleware (stored : Session + string) (upgrade : string)
  : Outcome * option Session :=
  match stored with
  | inr _ => (Redirect StatusFound "/", None)
  | inl session =>
    match asBool (Values session !! "authenticated") with
    | Some true =>
      if String.eqb authMethod "google" then
        match asString (Values session !! "user_email") with
        | Some userEmail =>
          if String.eqb userEmail EmptyString
          then (turnAway upgrade StatusUnauthorized "User email missing in session" "/",
                Some (invalidated session))
          else
            let context := <["user_email" := userEmail]> ∅ in
            let context :=
              match asString (Values session !! "user_name") with
              | Some name => <["user_name" := name]> context
              | None => context
              end in
            let context :=
              match asString (Values session !! "user_picture") with
              | Some picture => <["user_picture" := picture]> context
              | None => context
              end in
            (CallNext (<["owner_id" := userEmail]> context), None)
        | None =>
          (turnAway upgrade StatusUnauthorized "User email missing in session" "/",
           Some (invalidated session))
        end
      else if String.eqb authMethod "password" then
        match asString (Values session !! "user_id") with
        | Some userID =>
          if String.eqb userID legacyOwnerID
          then (CallNext (<["owner_id" := legacyOwnerID]> ∅), None)
          else (turnAway upgrade StatusUnauthorized "Invalid session for password auth" "/",
                Some (invalidated session))
        | None =>
          (turnAway upgrade StatusUnauthorized "Invalid session for password auth" "/",
           Some (invalidated session))
        end
      else
        (turnAway upgrade StatusInternalServerError "Internal server error"
           "/?error=config_error", None)
    | _ =>
      (turnAway upgrade StatusUnauthorized "Unauthorized WebSocket connection" "/", None)
    end
  end.

(** The loop of [adminMiddleware] over [strings.Split(adminUsers, ",")]. *)
Definition isAdmin (adminUsers userEmail : string) : bool :=
  existsb (fun admin => bool_decide (gostrings.TrimSpace admin = s2b userEmail))
          (gostrings.Split1 (s2b adminUsers) ","%char).

Definition adminMiddleware (context : gmap string string) : Outcome :=
  match context !! "owner_id" with
  | None => AbortJSON StatusUnauthorized "User not authenticated"
  | Some ownerID =>
    if String.eqb authMethod "password" && String.eqb ownerID legacyOwnerID
    then CallNext context
    else if String.eqb authMethod "google" then
      let adminUsers := getEnv ADMIN_USERS EmptyString in
      if String.eqb adminUsers EmptyString
      then AbortJSON StatusForbidden "No admin users configured"
      else if isAdmin adminUsers ownerID then CallNext context
      else AbortJSON StatusForbidden "Access denied: admin privileges required"
    else CallNext context
  end.

(** The chain of the [/admin] group of [SetupRoutes]: [authMiddleware],
    then [adminMiddleware]. *)
Definition adminGroup (stored : Session + string) (upgrade : string) : Outcome :=
  match fst (authMiddleware stored upgrade) with
  | CallNext context => adminMiddleware context
  | answer => answer
  end.

(** [handleLegacyLogin]: [password] is the form value, [session] what the
    store returned (a new session when it had none), [saveError] the error
    of [session.Save], if any.  The result is the answer and the session as
    the store holds it afterwards. *)
Definition handleLegacyLogin (password : string) (session : Session)
    (saveError : option string) : Outcome * Session :=
  if negb (String.eqb authMethod "password")
  then (HTML StatusForbidden "Password login is not enabled.", session)
  else if negb (String.eqb password legacyAuthPassword)
  then (HTML StatusUnauthorized "Invalid password", session)
  else
    let session' :=
      mkCookie (<["user_id" := VString legacyOwnerID]>
                  (<["authenticated" := VBool true]> (Values session)))
               (MaxAge session) in
    match saveError with
    | Some _ => (HTML StatusInternalServerError "Failed to save session.", session)
    | None => (Redirect StatusFound "/dashboard", session')
    end.

(** [handleLogout], on a session that the store returned. *)
Definition handleLogout (session : Session) (saveError : option string)
  : Outcome * Session :=
  let values := <["authenticated" := VBool false]> (Values session) in
  let values := delete "user_email" values in
  let values := delete "user_name" values in
  let values := delete "user_picture" values in
  let values := delete "oauth_state" values in
  let values := delete "user_id" values in
  (Redirect StatusFound "/",
   match saveError with
   | Some _ => session
   | None => mkCookie values (-1)
   end).

(** *** Who is let through *)

(** The session says that [owner] has logged in by the configured method. *)
Definition loggedInAs (session : Session) (owner : string) : Prop :=
  Values session !! "authenticated" = Some (VBool true) /\
  ((authMethod = "google" /\ owner <> EmptyString /\
    Values session !! "user_email" = Some (VString owner)) \/
   (authMethod = "password" /\ owner = legacyOwnerID /\
    Values session !! "user_id" = Some (VString owner))).

(** [owner] is listed in [ADMIN_USERS], white space around the entries
    not counting. *)
Definition listedAdmin (owner : string) : Prop :=
  exists admin, admin ∈ gostrings.Split1 (s2b ADMIN_USERS) ","%char /\
                gostrings.TrimSpace admin = s2b owner.

End Auth.

Definition aliceSession : Session :=
  mkCookie {[ "authenticated" := VBool true;
              "user_email" := VString "alice@example.com" ]} 86400.

(** ** Vocabulary of the statements *)

(** *** Slugs *)

Definition slugByte (c : ascii) : bool := regexp.slugRune (code c).
Definition slugString (s : string) : bool := forallb slugByte (s2b s).

(** A non-empty string over [a-z0-9-] that neither starts nor ends with a
    dash. *)
Definition isSlug (s : string) : Prop :=
  s <> EmptyString /\ slugString s = true /\
  head (s2b s) <> Some DASH /\ last (s2b s) <> Some DASH.

(** Every rune of the class comes from the single byte of that value. *)
Definition plainSlug (rb : utf8.rune * bytes) : Prop :=
  regexp.slugRune (fst rb) = true -> exists c, snd rb = [c] /\ code c = fst rb.

(** *** The store and the clock *)

(** The error of the next Redis command. *)
Definition nextFault (w : World) : error := mjoin (head (redis_faults w)).

(** What the next [time.Now()] returns. *)
Definition reading (w : World) : Z := (now w + hd 0 (drift w))%Z.

(** What [time.Now()] returns [n] readings after the next one: the last
    reading and the time elapsed before each of the [n + 1] readings. *)
Definition readingAt (w : World) (n : nat) : Z :=
  (now w + foldr Z.add 0 (take (S n) (drift w)))%Z.

(** Redis answers every command; the API server refuses no call. *)
Definition redisUp (w : World) : Prop := Forall (eq None) (redis_faults w).
Definition kubeUp (w : World) : Prop := Forall (eq None) (kube_faults (kube w)).

(** The clock never goes back. *)
Definition monotoneClock (w : World) : Prop := Forall (fun d => 0 <= d)%Z (drift w).

(** The keys of the hash are the ids of the records. *)
Definition keyed (h : gmap string QueueItem) : Prop :=
  map_Forall (fun k it => ID it = k) h.



(** The record as [UpdateItem] stamps it in [w], and the world after
    [UpdateItem item] when Redis takes the write and when it refuses it. *)
Definition stamped (item : QueueItem) (w : World) : QueueItem :=
  set_StatusUpdatedAt (reading w) item.

Definition afterWrite (item : QueueItem) (w : World) : World :=
  mkWorld (<[ID item := stamped item w]> (hash w)) (tl (redis_faults w))
          (reading w) (tl (drift w)) (uuids w) (wakes w) (kube w)
          (journal w ++ [EvHSet (stamped item w)]).

Definition afterRefusal (item : QueueItem) (w : World) : World :=
  mkWorld (hash w) (tl (redis_faults w)) (reading w) (tl (drift w)) (uuids w)
          (wakes w) (kube w) (journal w ++ [EvHSetFailed (ID item)]).

(** *** The journal *)

(** Calls to the cluster and log lines: the events that write nothing to
    the store. *)
Definition quiet (e : Event) : bool :=
  match e with
  | EvDelete _ _ | EvCreate _ _ | EvLog _ => true
  | _ => false
  end.

Definition isDelete (e : Event) : bool :=
  match e with EvDelete _ _ => true | _ => false end.

(** [w'] comes from [w] by calls to the cluster and log lines only. *)
Definition kubeStep (w w' : World) : Prop :=
  hash w' = hash w /\ redis_faults w' = redis_faults w /\ now w' = now w /\
  drift w' = drift w /\
  exists evs, journal w' = journal w ++ evs /\ forallb quiet evs = true.

(** *** The killer *)

(** The delete call of [processShutdownItem]. *)
Definition deleteWorkload (item : QueueItem) : M error :=
  if String.eqb (WorkloadType item) "deployment"
  then DeleteDinDDeployment (PodID item)
  else DeleteDinDStatefulSet (PodID item).

Definition absent (k : Kind) (n : string) (w : World) : Prop :=
  n ∉ objects k (kube w).

#[global] Instance Kind_eq_dec : EqDecision Kind.
Proof. solve_decision. Defined.

(** *** The loops on a refused write *)



(** *** The generator *)



(** *** The collector *)

(** The expiry rule and the reaping rule of [cleanupItems] at time [t]. *)
Definition collectible (item : QueueItem) (t : Z) : bool :=
  negb (existsb (String.eqb (Status item)) terminalStates)
  && (ExpiresAt item <? t)%Z.

Definition reapable (item : QueueItem) (now0 : Z) : bool :=
  String.eqb (Status item) StatusTerminated
  && (terminatedGracePeriod <? now0 - StatusUpdatedAt item)%Z.

(** *** Sequences of writes *)

Inductive QueueOp :=
| OpUpdate (item : QueueItem)
| OpCreate (dindWorkloadType ownerID : string)
           (decoded : (string * string) + string)
| OpDelete (id : string).

Definition runOp (op : QueueOp) : M unit :=
  match op with
  | OpUpdate item => let* _ := UpdateItem item in ret tt
  | OpCreate wt ownerID decoded =>
    let* _ := createEnvironment wt ownerID decoded in ret tt
  | OpDelete id => let* _ := DeleteItem id in ret tt
  end.

Definition stampOf (id : string) (w : World) : list Z :=
  match hash w !! id with
  | Some it => [StatusUpdatedAt it]
  | None => []
  end.

(** The values of [StatusUpdatedAt] that the record [id] has in the store,
    before the operations and after each of them. *)
Fixpoint stampHistory (id : string) (ops : list QueueOp) (w : World) : list Z :=
  stampOf id w ++
  match ops with
  | [] => []
  | op :: rest => stampHistory id rest (snd (runOp op w))
  end.


(** *** Requests *)

(** The body of a rename passes the binding; the other requests have no
    body to bind. *)
Definition bindable (req : Request) : bool :=
  match req with
  | ReqRename decoded =>
    match bindDisplayName decoded with inl _ => true | inr _ => false end
  | _ => true
  end.

(** *** The keystroke parser, in the words of its specification

    Printable ASCII and Tab accumulate in the line of the session; a lone
    backspace or DEL retracts one byte; an input with CR or LF flushes the
    line, trimmed of the white space around it, and clears it; resize
    frames and inputs that start with ESC change nothing. *)

Definition printableByte (c : ascii) : bool :=
  (((32 <=? code c) && (code c <=? 126)) || (code c =? 9))%N.

Definition hasNewline (data : bytes) : bool :=
  gostrings.Contains1 data CR || gostrings.Contains1 data LF.

Definition isErase (data : bytes) : bool :=
  bool_decide (data = [BS]) || bool_decide (data = [DEL]).

Definition lineDiscipline (jsonObjectKeys : bytes -> option (list string))
    (data : bytes) (sessionID : string) (commandBuffer : gmap string string)
  : string * gmap string string :=
  let line := default EmptyString (commandBuffer !! sessionID) in
  if isResizeFrame jsonObjectKeys data || startsWithESC data
  then (EmptyString, commandBuffer)
  else if hasNewline data
  then (b2s (gostrings.TrimSpace (s2b line)),
        <[sessionID := EmptyString]> commandBuffer)
  else if isErase data
  then (EmptyString,
        <[sessionID := b2s (removelast (s2b line))]> commandBuffer)
  else (EmptyString,
        <[sessionID := b2s (s2b line ++ List.filter printableByte data)]>
          commandBuffer).

(** *** The resize queue, in the words of its specification

    A run of [Resize] calls while the exec stream reads nothing, and the
    two newest elements of a list. *)

Definition lastTwo {A} (l : list A) : list A := drop (length l - 2) l.

Definition resizeAll (sizes : list TerminalSize) (t : TerminalSession)
  : TerminalSession :=
  fold_left (fun t size => Resize Idle (Width size) (Height size) t) sizes t.

(** ** Sample records and worlds *)

Definition quietKube : Kube := mkKube ∅ ∅ ∅ ∅ [] [] [] [] [].

Definition sampleID : string := "0a1b2c3d-0000-4000-8000-000000000000".

Definition sampleItem (status : QueueStatus) : QueueItem :=
  mkItem "alice@example.com" "1.33" status EmptyString 5
         "k8s-playground-0a1b2c3d" 1000 sampleID EmptyString "statefulset".

(** A store with the one sample record, at time [t], with a clock that
    stands still and a script of Redis faults. *)
Definition sampleWorld (status : QueueStatus) (faults : list (option string))
    (t : Z) : World :=
  mkWorld {[ sampleID := sampleItem status ]} faults t [] [] [] quietKube [].

(** A cluster that still holds the workload of the sample record. *)
Definition busyKube : Kube :=
  mkKube {[ "k8s-playground-0a1b2c3d" ]} ∅ {[ "k8s-playground-0a1b2c3d" ]}
         {[ "docker-graph-storage-k8s-playground-0a1b2c3d-0" ]} [] [] [] [] [].

Definition busyWorld : World :=
  mkWorld {[ sampleID := sampleItem StatusShutdown ]} [] 2000 [] [] [] busyKube [].

(** A stand-in for the JSON decoder: it takes what starts with a brace for
    an object with the key [resize], and rejects everything else. *)
Definition braceJSON (data : bytes) : option (list string) :=
  match data with
  | c :: _ => if Ascii.eqb c "{"%char then Some ["resize"] else None
  | [] => None
  end.

(** Case tables that map nothing. *)
Definition noCase : utf8.rune -> utf8.rune := fun r => r.

(** A store with the sample record on a clock that moves on. *)
Definition tickingWorld : World :=
  mkWorld {[ sampleID := sampleItem StatusAvailable ]} [] 10 [3; 4]%Z [] []
          quietKube [].

(** The sample record at the instant of its expiry, on a clock that moves
    on by a nanosecond after the first reading of the tick. *)
Definition driftingWorld : World :=
  mkWorld {[ sampleID := sampleItem StatusAvailable ]} [] 1000 [0; 1; 0]%Z [] []
          quietKube [].




Definition sampleVersions : gmap string string :=
  {[ "1.32" := "v1.32.0"; "1.33" := "v1.33.1" ]}.


(** Stand-ins for the parts of the handlers that talk to the pod. *)
Definition noServices : string -> string -> M (Body + string) :=
  fun _ _ => ret (inl OtherBody).
Definition noTerminal : QueueItem -> string -> string -> M Response :=
  fun _ _ _ => ret (mkResponse 101 OtherBody).
Definition noProxy : string -> string -> string -> string -> M Response :=
  fun _ _ _ _ => ret (mkResponse StatusOK OtherBody).

(** *** The killer, tick after tick *)

(** [n] ticks of the killer loop of [main]. *)
Fixpoint killerTicks (n : nat) : M unit :=
  match n with
  | O => ret tt
  | S n' => let* _ := processShutdownItems in killerTicks n'
  end.

(** The events that [w'] has journalled since [w]. *)
Definition newEvents (w w' : World) : list Event :=
  drop (length (journal w)) (journal w').

(** [w'] comes from [w] by journalling events that all satisfy [P]. *)
Definition grows (P : Event -> bool) (w w' : World) : Prop :=
  exists evs, journal w' = journal w ++ evs /\ forallb P evs = true.

(** The calls to the cluster that the killer may send for a record: the
    deletion of the objects named after its [PodID], of the kinds that go
    with its workload type. *)
Definition killerMayCall (item : QueueItem) (e : Event) : bool :=
  match e with
  | EvDelete k n =>
    if String.eqb (WorkloadType item) "deployment"
    then bool_decide (k ∈ [KDeployment; KService] /\ n = PodID item)
    else bool_decide ((k ∈ [KStatefulSet; KService] /\ n = PodID item)
                      \/ (k = KPVC /\ n = pvcNameOf (PodID item)))
  | EvCreate _ _ => false
  | _ => true
  end.

(** The next answer of the API server to a create or delete call. *)
Definition nextKubeFault (w : World) : error := mjoin (head (kube_faults (kube w))).

(** The sample record in [shutdown], its workload in the cluster, and an
    API server that refuses the next call. *)
Definition refusingWorld : World :=
  mkWorld {[ sampleID := sampleItem StatusShutdown ]} [] 2000 [] [] []
          (set_kube_faults [Some "etcdserver: request timed out"] busyKube) [].

(** *** The cluster *)

(** A pod that [IsPodRunning] takes for running: phase [Running], at least
    one container status, every container ready. *)
Definition readyPod (pod : Pod) : bool :=
  String.eqb (podPhase pod) PodRunning
  && negb (bool_decide (podContainers pod = []))
  && forallb csReady (podContainers pod).

(** A pod that is [Running] or [Pending]. *)
Definition alivePod (pod : Pod) : bool :=
  String.eqb (podPhase pod) PodRunning || String.eqb (podPhase pod) PodPending.

(** A ClusterIP that [GetServiceClusterIP] accepts. *)
Definition usableIP (ip : string) : bool :=
  negb (String.eqb ip EmptyString) && negb (String.eqb ip "None").

(** *** The generator *)

(** The name that [processItem] gives to the workload of a record. *)
Definition workloadNameOf (item : QueueItem) : string :=
  "k8s-playground-" +:+ String.substring 0 8 (ID item).

(** A pending record, and a world in which the generator finds all it
    needs: the NFS service, a mkdir that runs, and the pod of the workload
    ready at the first tick. *)
Definition pendingItem : QueueItem :=
  mkItem "alice@example.com" "1.33" StatusPending EmptyString 5 EmptyString
         1000 sampleID EmptyString "statefulset".

Definition readyWorld : World :=
  mkWorld {[ sampleID := pendingItem ]} [] 10 [] [] [WakeTick]
          (mkKube ∅ ∅ ∅ ∅ [] [inl "10.96.0.12"] [ExecDone] []
                  [inl (mkPod "k8s-playground-0a1b2c3d-0" PodRunning
                          [mkCS "dind" true None None])])
          [].

(** The same world with a Redis that takes the listing and the write of
    [generating] and refuses the two writes after them. *)
Definition falteringWorld : World :=
  set_redis_faults
    [None; None; Some "connection refused"; Some "connection refused"] readyWorld.

(** The same world, but the container of the pod keeps crashing. *)
Definition crashingWorld : World :=
  mkWorld {[ sampleID := pendingItem ]} [] 10 [] [] [WakeTick]
          (mkKube ∅ ∅ ∅ ∅ [] [inl "10.96.0.12"] [ExecDone] []
                  [inl (mkPod "k8s-playground-0a1b2c3d-0" PodRunning
                          [mkCS "dind" false (Some "CrashLoopBackOff") None])])
          [].

(** *** The handlers *)

(** An empty store, with a UUID to hand out and a clock that moves on. *)
Definition emptyStore : World :=
  mkWorld ∅ [] 100 [1; 2]%Z [sampleID] [] quietKube [].

(** The request of the principal [ownerID] on [id] finds an available
    record of theirs with a workload: the only case in which the handlers
    go on to the pod. *)
Definition reachesPod (ownerID id : string) (w : World) : Prop :=
  nextFault w = None /\
  exists item, hash w !! id = Some item /\ Owner item = ownerID /\
               Status item = StatusAvailable /\ PodID item <> EmptyString.

(** A display name of 26 two-byte characters. *)
Definition accentedName : string := "éééééééééééééééééééééééééé".

(** *** The command audit *)

(** Every buffered line holds printable ASCII and tabs only. *)
Definition cleanLine (line : string) : Prop :=
  forallb printableByte (s2b line) = true.

Definition cleanBuffers (commandBuffer : gmap string string) : Prop :=
  map_Forall (fun _ line => cleanLine line) commandBuffer.

(** * Theorems *)

(** ** The owner slug *)

Section Slug.

Lemma lor_ge128_l (a b : N) : (128 <= a -> 128 <= N.lor a b)%N.
Proof.
  intros Ha.
  assert (H7 : (7 <= N.log2 (N.lor a b))%N).
  { rewrite N.log2_lor. change 7%N with (N.log2 128).
    etransitivity; [apply N.log2_le_mono; exact Ha | apply N.le_max_l]. }
  assert (Hpos : (0 < N.lor a b)%N).
  { destruct (N.eq_dec (N.lor a b) 0%N) as [E|E]; [|lia].
    apply N.lor_eq_0_l in E. lia. }
  destruct (N.log2_spec _ Hpos) as [Hlo _].
  assert (2 ^ 7 <= 2 ^ N.log2 (N.lor a b))%N by (apply N.pow_le_mono_r; lia).
  change (2 ^ 7)%N with 128%N in *. lia.
Qed.

Lemma lor_ge128_r (a b : N) : (128 <= b -> 128 <= N.lor a b)%N.
Proof. rewrite N.lor_comm. apply lor_ge128_l. Qed.

(** [land x (2^k - 1)] shifted left by [n], as arithmetic. *)
Lemma masked_shift (x k n : N) :
  N.shiftl (N.land x (N.ones k)) n = ((x mod 2 ^ k) * 2 ^ n)%N.
Proof. by rewrite N.shiftl_mul_pow2, N.land_ones. Qed.

Ltac split_mod x m :=
  let q := fresh "q" in let r := fresh "r" in
  let Hq := fresh "Hq" in let Hr := fresh "Hr" in
  pose proof (N.div_mod' x m) as Hq;
  assert (Hr : (x mod m < m)%N) by (apply N.mod_lt; lia);
  generalize dependent (x `div` m)%N; generalize dependent (x `mod` m)%N;
  intros r Hr q Hq.

Ltac rune_error := cbn [negb fst]; unfold utf8.RuneError; lia.

Lemma between_spec lo hi x : utf8.between lo hi x = true <-> (lo <= x <= hi)%N.
Proof. unfold utf8.between. rewrite andb_true_iff, !N.leb_le. tauto. Qed.

Lemma first_spec s0 sz lo hi :
  utf8.first s0 = Some (sz, lo, hi) ->
  (128 <= lo /\ hi <= 191)%N /\
  ((sz = 2%nat /\ (194 <= s0 <= 223)%N) \/
   (sz = 3%nat /\ ((s0 = 224%N /\ lo = 160%N) \/ (225 <= s0 <= 239)%N)) \/
   (sz = 4%nat /\ ((s0 = 240%N /\ lo = 144%N) \/ (241 <= s0 <= 244)%N))).
Proof.
  unfold utf8.first, utf8.between.
  repeat match goal with
  | |- context [if ?b then _ else _] => destruct b eqn:?
  end; intros [= <- <- <-]; split; try lia;
  repeat match goal with
  | H : (_ && _) = true |- _ => apply andb_true_iff in H; destruct H
  | H : (_ <=? _)%N = true |- _ => apply N.leb_le in H
  | H : (_ =? _)%N = true |- _ => apply N.eqb_eq in H
  end; lia.
Qed.

(** A byte sequence that does not start with an ASCII byte never decodes
    to an ASCII rune. *)
Lemma decode_high c0 t0 :
  (128 <= code c0)%N ->
  (128 <= fst (utf8.DecodeRuneInString (c0 :: t0)))%N.
Proof.
  intros Hc. unfold utf8.DecodeRuneInString.
  assert (E : (code c0 <? utf8.RuneSelf)%N = false)
    by (apply N.ltb_ge; exact Hc).
  rewrite E.
  destruct (utf8.first (code c0)) as [[[sz lo] hi]|] eqn:Hf; [|rune_error].
  apply first_spec in Hf. destruct Hf as [[Hlo Hhi] Hsz].
  destruct (length (c0 :: t0) <? sz)%nat; [rune_error|].
  destruct t0 as [|c1 t1]; [rune_error|].
  destruct (utf8.between lo hi (code c1)) eqn:Hb1; [|rune_error].
  apply between_spec in Hb1. cbn [negb].
  change 0x1F%N with (N.ones 5). change 0x0F%N with (N.ones 4).
  change 0x07%N with (N.ones 3). change 0x3F%N with (N.ones 6).
  destruct Hsz as [[-> Hs0]|[[-> Hs0]|[-> Hs0]]]; cbn [Nat.leb fst].
  - apply lor_ge128_l. rewrite masked_shift.
    change (2 ^ 5)%N with 32%N. change (2 ^ 6)%N with 64%N.
    split_mod (code c0) 32%N. lia.
  - destruct t1 as [|c2 t2]; [rune_error|].
    destruct (utf8.between utf8.locb utf8.hicb (code c2)); [|rune_error].
    cbn [negb fst]. apply lor_ge128_l. rewrite !masked_shift.
    change (2 ^ 4)%N with 16%N. change (2 ^ 6)%N with 64%N.
    change (2 ^ 12)%N with 4096%N.
    destruct Hs0 as [[Hs0 ->]|Hs0].
    + apply lor_ge128_r. split_mod (code c1) 64%N. lia.
    + apply lor_ge128_l. split_mod (code c0) 16%N. lia.
  - destruct t1 as [|c2 t2]; [rune_error|].
    destruct (utf8.between utf8.locb utf8.hicb (code c2)); [|rune_error].
    cbn [negb]. destruct t2 as [|c3 t3]; [rune_error|].
    destruct (utf8.between utf8.locb utf8.hicb (code c3)); [|rune_error].
    cbn [negb fst]. do 2 apply lor_ge128_l. rewrite !masked_shift.
    change (2 ^ 3)%N with 8%N. change (2 ^ 6)%N with 64%N.
    change (2 ^ 12)%N with 4096%N. change (2 ^ 18)%N with 262144%N.
    destruct Hs0 as [[Hs0 ->]|Hs0].
    + apply lor_ge128_r. split_mod (code c1) 64%N. lia.
    + apply lor_ge128_l. split_mod (code c0) 8%N. lia.
Qed.

Lemma decode_low c0 t0 :
  (code c0 < 128)%N -> utf8.DecodeRuneInString (c0 :: t0) = (code c0, 1%nat).
Proof.
  intros H. unfold utf8.DecodeRuneInString.
  replace (code c0 <? utf8.RuneSelf)%N with true; [done|].
  symmetry. by apply N.ltb_lt.
Qed.

(** The bytes that a rune outside ASCII is decoded from are not ASCII. *)
Lemma decode_high_bytes c0 t0 :
  (128 <= code c0)%N ->
  let w := snd (utf8.DecodeRuneInString (c0 :: t0)) in
  (1 <= w)%nat /\
  forallb (fun c => (128 <=? code c)%N) (take w (c0 :: t0)) = true.
Proof.
  intros Hc. unfold utf8.DecodeRuneInString.
  assert (E : (code c0 <? utf8.RuneSelf)%N = false)
    by (apply N.ltb_ge; exact Hc).
  assert (H0 : (128 <=? code c0)%N = true) by (by apply N.leb_le).
  rewrite E.
  assert (Hone : (1 <= 1)%nat /\
    forallb (fun c => (128 <=? code c)%N) (take 1 (c0 :: t0)) = true).
  { split; [lia|]. cbn. by rewrite H0. }
  destruct (utf8.first (code c0)) as [[[sz lo] hi]|] eqn:Hf; [|exact Hone].
  apply first_spec in Hf. destruct Hf as [[Hlo Hhi] Hsz].
  destruct (length (c0 :: t0) <? sz)%nat; [exact Hone|].
  destruct t0 as [|c1 t1]; [exact Hone|].
  destruct (utf8.between lo hi (code c1)) eqn:Hb1; [|exact Hone].
  apply between_spec in Hb1. cbn [negb].
  assert (H1 : (128 <=? code c1)%N = true) by (apply N.leb_le; lia).
  destruct (sz <=? 2)%nat.
  { split; [cbn; lia|]. cbn. by rewrite H0, H1. }
  destruct t1 as [|c2 t2]; [exact Hone|].
  destruct (utf8.between utf8.locb utf8.hicb (code c2)) eqn:Hb2; [|exact Hone].
  apply between_spec in Hb2. cbn [negb]. unfold utf8.locb in Hb2.
  assert (H2 : (128 <=? code c2)%N = true) by (apply N.leb_le; lia).
  destruct (sz <=? 3)%nat.
  { split; [cbn; lia|]. cbn. by rewrite H0, H1, H2. }
  destruct t2 as [|c3 t3]; [exact Hone|].
  destruct (utf8.between utf8.locb utf8.hicb (code c3)) eqn:Hb3; [|exact Hone].
  apply between_spec in Hb3. cbn [negb]. unfold utf8.locb in Hb3.
  assert (H3 : (128 <=? code c3)%N = true) by (apply N.leb_le; lia).
  split; [cbn; lia|]. cbn. by rewrite H0, H1, H2, H3.
Qed.

Lemma slugRune_low r : regexp.slugRune r = true -> (r < 128)%N.
Proof.
  unfold regexp.slugRune. rewrite !orb_true_iff, !between_spec, N.eqb_eq. lia.
Qed.

Lemma rangeFrom_plainSlug fuel s : Forall plainSlug (utf8.rangeFrom fuel s).
Proof.
  revert s. induction fuel as [|fuel IH]; intros s; cbn; [constructor|].
  destruct s as [|c0 t0]; [constructor|].
  destruct (utf8.DecodeRuneInString (c0 :: t0)) as [r w] eqn:Hd.
  constructor; [|apply IH].
  intros Hs. cbn [fst snd] in *. apply slugRune_low in Hs.
  destruct (N.lt_ge_cases (code c0) 128) as [Hlo|Hhi].
  - rewrite decode_low in Hd by done. injection Hd as <- <-.
    exists c0. by cbn.
  - pose proof (decode_high c0 t0 Hhi) as Hge. rewrite Hd in Hge.
    cbn in Hge. lia.
Qed.

Lemma runes_ascii s :
  forallb (fun c => (code c <? utf8.RuneSelf)%N) s = true ->
  utf8.runes s = map (fun c => (code c, [c])) s.
Proof.
  unfold utf8.runes. induction s as [|c t IH]; [done|].
  cbn [forallb length]. rewrite andb_true_iff. intros [Hc Ht].
  apply N.ltb_lt in Hc. cbn [utf8.rangeFrom].
  rewrite decode_low by exact Hc. cbn [take drop map].
  by rewrite take_0, drop_0, IH.
Qed.

Lemma slugByte_ascii c : slugByte c = true -> (code c <? utf8.RuneSelf)%N = true.
Proof. intros H. apply N.ltb_lt. by apply slugRune_low. Qed.

Lemma replaceRuns_slug rs b :
  Forall plainSlug rs ->
  forallb slugByte (regexp.replaceRuns rs [DASH] b) = true.
Proof.
  intros H. revert b. induction H as [|[r bs] rs Hp _ IH]; intros b; [done|].
  cbn [regexp.replaceRuns]. destruct (regexp.slugRune r) eqn:Hr.
  - destruct (Hp Hr) as (c & Hc & Hcode). cbn [fst snd] in *. subst bs.
    cbn [app forallb]. rewrite IH, andb_true_r. unfold slugByte. by rewrite Hcode.
  - destruct b; [apply IH|]. cbn [app forallb]. by rewrite IH.
Qed.

Lemma replaceRuns_id s b :
  forallb slugByte s = true ->
  regexp.replaceRuns (map (fun c => (code c, [c])) s) [DASH] b = s.
Proof.
  revert b. induction s as [|c t IH]; intros b; [done|].
  cbn [forallb map regexp.replaceRuns]. rewrite andb_true_iff. intros [Hc Ht].
  unfold slugByte in Hc. rewrite Hc. cbn [app]. by rewrite IH.
Qed.

Lemma trimLeftByte_suffix s c : exists p, s = p ++ gostrings.trimLeftByte s c.
Proof.
  induction s as [|x t [p IH]]; [by exists []|]. cbn.
  destruct (Ascii.eqb x c); [|by exists []].
  exists (x :: p). cbn. by rewrite <- IH.
Qed.

Lemma trimLeftByte_head s c : head (gostrings.trimLeftByte s c) <> Some c.
Proof.
  induction s as [|x t IH]; [done|]. cbn.
  destruct (Ascii.eqb x c) eqn:E; [done|].
  cbn. intros [= ->]. by rewrite Ascii.eqb_refl in E.
Qed.

Lemma trimLeftByte_id s c : head s <> Some c -> gostrings.trimLeftByte s c = s.
Proof.
  destruct s as [|x t]; [done|]. cbn. intros H.
  destruct (Ascii.eqb x c) eqn:E; [|done].
  apply Ascii.eqb_eq in E. by subst.
Qed.

Lemma forallb_app_inv {A} (f : A -> bool) l1 l2 :
  forallb f (l1 ++ l2) = true -> forallb f l2 = true.
Proof. rewrite forallb_app, andb_true_iff. tauto. Qed.

Lemma trimLeftByte_forallb f s c :
  forallb f s = true -> forallb f (gostrings.trimLeftByte s c) = true.
Proof.
  intros H. destruct (trimLeftByte_suffix s c) as [p Hp].
  rewrite Hp in H. by apply forallb_app_inv in H.
Qed.

Lemma forallb_rev {A} (f : A -> bool) l : forallb f (rev l) = forallb f l.
Proof.
  induction l as [|x l IH]; [done|]. cbn.
  rewrite forallb_app, IH. cbn. rewrite andb_true_r. apply andb_comm.
Qed.

Lemma Trim1_forallb f s c :
  forallb f s = true -> forallb f (gostrings.Trim1 s c) = true.
Proof.
  intros H. unfold gostrings.Trim1, gostrings.trimRightByte.
  apply trimLeftByte_forallb. rewrite forallb_rev.
  apply trimLeftByte_forallb. by rewrite forallb_rev.
Qed.

Lemma Trim1_head s c : head (gostrings.Trim1 s c) <> Some c.
Proof. apply trimLeftByte_head. Qed.

Lemma last_rev_head {A} (l : list A) : last (rev l) = head l.
Proof. destruct l as [|x l]; [done|]. cbn. by rewrite last_snoc. Qed.

Lemma Trim1_last s c : last (gostrings.Trim1 s c) <> Some c.
Proof.
  unfold gostrings.Trim1.
  assert (Hr : last (gostrings.trimRightByte s c) <> Some c).
  { unfold gostrings.trimRightByte. rewrite last_rev_head.
    apply trimLeftByte_head. }
  destruct (trimLeftByte_suffix (gostrings.trimRightByte s c) c) as [p Hp].
  destruct (gostrings.trimLeftByte (gostrings.trimRightByte s c) c)
    as [|x t] eqn:E; [done|].
  intros Hl. apply Hr. rewrite Hp. by rewrite last_app, Hl.
Qed.

Lemma Trim1_id s c :
  head s <> Some c -> last s <> Some c -> gostrings.Trim1 s c = s.
Proof.
  intros Hh Hl. unfold gostrings.Trim1, gostrings.trimRightByte.
  rewrite (trimLeftByte_id (rev s)).
  - rewrite rev_involutive. by apply trimLeftByte_id.
  - rewrite <- (rev_involutive s) in Hl. by rewrite last_rev_head in Hl.
Qed.

Lemma slugByte_not_upper c : slugByte c = true -> gostrings.isUpperByte c = false.
Proof.
  unfold slugByte, regexp.slugRune, gostrings.isUpperByte.
  rewrite !orb_true_iff, !between_spec, N.eqb_eq. intros H.
  apply not_true_is_false. rewrite between_spec. lia.
Qed.

Variable caseTable : utf8.rune -> utf8.rune.

Lemma ToLower_slug s :
  forallb slugByte s = true -> gostrings.ToLower caseTable s = s.
Proof.
  intros H. unfold gostrings.ToLower.
  assert (Ha : forallb (fun c => (code c <? utf8.RuneSelf)%N) s = true).
  { rewrite forallb_forall in *. intros c Hc. by apply slugByte_ascii, H. }
  rewrite Ha.
  assert (Hu : existsb gostrings.isUpperByte s = false).
  { apply not_true_is_false. rewrite existsb_exists. intros (c & Hc & Hup).
    rewrite forallb_forall in H. apply H, slugByte_not_upper in Hc. congruence. }
  by rewrite Hu.
Qed.

Lemma sanitizeBytes_slug name :
  forallb slugByte (sanitizeBytes caseTable name) = true.
Proof.
  unfold sanitizeBytes. apply Trim1_forallb.
  unfold regexp.ReplaceAllNonSlug. apply replaceRuns_slug, rangeFrom_plainSlug.
Qed.

Lemma sanitizeBytes_fixed s :
  forallb slugByte s = true -> head s <> Some DASH -> last s <> Some DASH ->
  sanitizeBytes caseTable s = s.
Proof.
  intros Hs Hh Hl. unfold sanitizeBytes. rewrite ToLower_slug by done.
  unfold regexp.ReplaceAllNonSlug. rewrite runes_ascii.
  - rewrite replaceRuns_id by done. by apply Trim1_id.
  - rewrite forallb_forall in *. intros c Hc. by apply slugByte_ascii, Hs.
Qed.

Lemma s2b_b2s l : s2b (b2s l) = l.
Proof. apply list_ascii_of_string_of_list_ascii. Qed.

Lemma b2s_s2b s : b2s (s2b s) = s.
Proof. apply string_of_list_ascii_of_string. Qed.

Lemma sanitizeName_isSlug name : isSlug (sanitizeName caseTable name).
Proof.
  unfold sanitizeName.
  destruct (sanitizeBytes caseTable (s2b name)) as [|c t] eqn:E.
  - cbn. repeat split; done.
  - cbn [length Nat.eqb]. rewrite <- E. unfold isSlug, slugString.
    rewrite s2b_b2s. repeat split.
    + rewrite E. done.
    + apply sanitizeBytes_slug.
    + apply Trim1_head.
    + apply Trim1_last.
Qed.

Lemma sanitizeName_fixed s : isSlug s -> sanitizeName caseTable s = s.
Proof.
  intros (Hne & Hs & Hh & Hl). unfold sanitizeName.
  rewrite sanitizeBytes_fixed by done.
  destruct (s2b s) as [|c t] eqn:E.
  - exfalso. apply Hne. by rewrite <- (b2s_s2b s), E.
  - cbn [length Nat.eqb]. by rewrite <- E, b2s_s2b.
Qed.

(** C10.  [sanitizeName] is idempotent, and whatever the owner id its
    result is a non-empty string over [a-z0-9-] that neither starts nor
    ends with a dash; it is the fixed string [invalid-name] exactly when
    lowering, replacing and trimming leave nothing. *)
Theorem sanitizeName_canonical (s : string) :
  sanitizeName caseTable (sanitizeName caseTable s) = sanitizeName caseTable s /\
  sanitizeName caseTable s <> EmptyString /\
  slugString (sanitizeName caseTable s) = true /\
  head (s2b (sanitizeName caseTable s)) <> Some DASH /\
  last (s2b (sanitizeName caseTable s)) <> Some DASH /\
  sanitizeName caseTable s =
    (if bool_decide (sanitizeBytes caseTable (s2b s) = [])
     then "invalid-name" else b2s (sanitizeBytes caseTable (s2b s))).
Proof.
  pose proof (sanitizeName_isSlug s) as H.
  split; [by apply sanitizeName_fixed|].
  destruct H as (? & ? & ? & ?). repeat split; try done.
  unfold sanitizeName. by destruct (sanitizeBytes caseTable (s2b s)).
Qed.

End Slug.

Example sanitizeName_email :
  sanitizeName noCase "User.Name@Example.COM" = "user-name-example-com".
Proof. reflexivity. Qed.

Example sanitizeName_nothing_left : sanitizeName noCase "--@@--" = "invalid-name".
Proof. reflexivity. Qed.

Example sanitizeName_runs : sanitizeName noCase "a  b__c" = "a-b-c".
Proof. reflexivity. Qed.

(** ** Calls to the cluster leave the store alone *)

Lemma kubeStep_refl w : kubeStep w w.
Proof. repeat split; try done. exists []. by rewrite app_nil_r. Qed.

Lemma kubeStep_trans w1 w2 w3 : kubeStep w1 w2 -> kubeStep w2 w3 -> kubeStep w1 w3.
Proof.
  intros (H1 & H2 & H3 & H4 & e1 & J1 & Q1) (K1 & K2 & K3 & K4 & e2 & J2 & Q2).
  repeat split; try congruence.
  exists (e1 ++ e2). rewrite J2, J1, <- app_assoc. split; [done|].
  by rewrite forallb_app, Q1, Q2.
Qed.

Lemma kubeStep_bind {A B} (m : M A) (k : A -> M B) w :
  kubeStep w (snd (m w)) -> (forall a w1, kubeStep w1 (snd (k a w1))) ->
  kubeStep w (snd (bind m k w)).
Proof.
  intros Hm Hk. unfold bind. destruct (m w) as [a w1]. cbn in Hm.
  eapply kubeStep_trans; [exact Hm|apply Hk].
Qed.

Lemma kubeStep_emit e w : quiet e = true -> kubeStep w (emit e w).
Proof. intros H. repeat split; try done. exists [e]. cbn. by rewrite H. Qed.

Lemma kubeStep_set_kube kb w : kubeStep w (set_kube kb w).
Proof. repeat split; try done. exists []. by rewrite app_nil_r. Qed.

Lemma kubeStep_ret {A} (a : A) w : kubeStep w (snd (ret a w)).
Proof. apply kubeStep_refl. Qed.

Lemma kubeDelete_step k n w : kubeStep w (snd (kubeDelete k n w)).
Proof.
  unfold kubeDelete. apply kubeStep_bind; [by apply kubeStep_emit|].
  intros _ w1. apply kubeStep_bind; [apply kubeStep_set_kube|].
  intros [m|] w2; [apply kubeStep_ret|].
  case_decide; cbn; [apply kubeStep_set_kube|apply kubeStep_refl].
Qed.

Lemma logLine_step l w : kubeStep w (snd (logLine l w)).
Proof. by apply kubeStep_emit. Qed.

Lemma DeleteDinDStatefulSet_step n w : kubeStep w (snd (DeleteDinDStatefulSet n w)).
Proof.
  unfold DeleteDinDStatefulSet.
  repeat (first [ apply kubeStep_ret | apply kubeStep_bind; [apply kubeDelete_step|intros ? ?]
                | match goal with |- context [match realFailure ?a with _ => _ end] =>
                    destruct (realFailure a) end ]).
Qed.

Lemma DeleteDinDDeployment_step n w : kubeStep w (snd (DeleteDinDDeployment n w)).
Proof.
  unfold DeleteDinDDeployment.
  repeat (first [ apply kubeStep_ret | apply kubeStep_bind; [apply kubeDelete_step|intros ? ?]
                | match goal with |- context [match realFailure ?a with _ => _ end] =>
                    destruct (realFailure a) end ]).
Qed.

Lemma UpdateItem_ok item w :
  nextFault w = None ->
  UpdateItem item w = ((stamped item w, None), afterWrite item w).
Proof.
  unfold nextFault. intros H.
  unfold UpdateItem, bind, timeNow, HSet, bind, redisCommand. cbn.
  rewrite H. reflexivity.
Qed.

Lemma UpdateItem_refused item w m :
  nextFault w = Some m ->
  UpdateItem item w = ((stamped item w, Some m), afterRefusal item w).
Proof.
  unfold nextFault. intros H.
  unfold UpdateItem, bind, timeNow, HSet, bind, redisCommand. cbn.
  rewrite H. reflexivity.
Qed.

Lemma deleteWorkload_step item w : kubeStep w (snd (deleteWorkload item w)).
Proof.
  unfold deleteWorkload. destruct (String.eqb _ _);
    [apply DeleteDinDDeployment_step|apply DeleteDinDStatefulSet_step].
Qed.

(** Running the monad one step at a time. *)
Lemma bind_unfold {A B} (m : M A) (k : A -> M B) w :
  bind m k w = let '(a, w') := m w in k a w'.
Proof. reflexivity. Qed.

Ltac mstep :=
  repeat (first [rewrite bind_unfold | progress cbv beta iota delta [ret logLine]]).

(** ** The killer *)

Lemma processShutdownItem_ok item w :
  nextFault w = None ->
  let it' := stamped (set_Status StatusTerminated item) w in
  let w1 := afterWrite (set_Status StatusTerminated item) w in
  fst (processShutdownItem item w) = (it', None) /\
  kubeStep w1 (snd (processShutdownItem item w)) /\
  (PodID item <> EmptyString ->
   forall m, fst (deleteWorkload it' w1) = Some m ->
     last (journal (snd (processShutdownItem item w)))
     = Some (EvLog ("Warning: Failed to delete workload " +:+ PodID item +:+ ": " +:+ m))).
Proof.
  intros Hf it' w1.
  destruct (processShutdownItem item w) as [r w'] eqn:E.
  unfold processShutdownItem in E. rewrite bind_unfold, UpdateItem_ok in E by done.
  fold it' w1 in E.
  change (PodID it') with (PodID item) in E.
  change (WorkloadType it') with (WorkloadType item) in E.
  cbn [fst snd].
  destruct (String.eqb (PodID item) EmptyString) eqn:Hp; cbn [negb] in E.
  - cbn in E. injection E as <- <-. split; [done|]. split; [apply kubeStep_refl|].
    intros Hne. apply String.eqb_eq in Hp. done.
  - rewrite !bind_unfold in E.
    pose proof (deleteWorkload_step it' w1) as Hs. unfold deleteWorkload in *.
    change (PodID it') with (PodID item) in *.
    change (WorkloadType it') with (WorkloadType item) in *.
    destruct ((if String.eqb (WorkloadType item) "deployment"
               then DeleteDinDDeployment (PodID item)
               else DeleteDinDStatefulSet (PodID item)) w1) as [[m|] w2]; cbn in *;
      injection E as <- <-.
    + split; [done|]. split.
      * eapply kubeStep_trans; [exact Hs|by apply kubeStep_emit].
      * intros _ m' [= <-]. cbn. by rewrite last_snoc.
    + split; [done|]. split; [done|]. intros _ m' [=].
Qed.

Lemma shutdownOne_refused item w m :
  nextFault w = Some m ->
  exists evs, journal (snd (shutdownOne item w)) = journal w ++ evs /\
              existsb isDelete evs = false /\
              kube (snd (shutdownOne item w)) = kube w.
Proof.
  intros Hf. unfold shutdownOne, processShutdownItem.
  rewrite !bind_unfold, (UpdateItem_refused _ _ m) by done.
  cbv beta iota delta [ret]. rewrite !bind_unfold. cbv beta iota delta [logLine].
  set (w1 := emit _ _). set (it := set_ErrorMessage _ _).
  destruct (nextFault w1) as [m2|] eqn:Hf2.
  - rewrite bind_unfold, (UpdateItem_refused _ _ m2) by done. cbn.
    eexists. rewrite <- !app_assoc. split; [reflexivity|]. done.
  - rewrite bind_unfold, UpdateItem_ok by done. cbn.
    eexists. rewrite <- !app_assoc. split; [reflexivity|]. done.
Qed.

(** C1.  One pass of the killer over a record: the events of the pass
    either contain no delete call at all (Redis refused the write of
    [terminated]), or they start with the write of the record with status
    [terminated], followed by calls to the cluster and log lines only.  In
    that case the record stays stored as [terminated], whatever the cluster
    answers, and a failed deletion leaves a warning as the last line of
    the pass. *)
Theorem killer_terminated_before_delete (item : QueueItem) (w : World) :
  let w' := snd (shutdownOne item w) in
  let it' := stamped (set_Status StatusTerminated item) w in
  exists evs, journal w' = journal w ++ evs /\
    ((nextFault w <> None /\ existsb isDelete evs = false) \/
     (nextFault w = None /\
      Status it' = StatusTerminated /\
      hash w' = <[ID item := it']> (hash w) /\
      (exists rest, evs = EvHSet it' :: rest /\ forallb quiet rest = true) /\
      match fst (deleteWorkload it' (afterWrite (set_Status StatusTerminated item) w)) with
      | Some m =>
        PodID item = EmptyString \/
        last evs = Some (EvLog ("Warning: Failed to delete workload "
                                +:+ PodID item +:+ ": " +:+ m))
      | None => True
      end)).
Proof.
  intros w' it'. destruct (nextFault w) as [m|] eqn:Hf.
  - destruct (shutdownOne_refused item w m Hf) as (evs & J & D & _).
    exists evs. split; [exact J|]. left. done.
  - destruct (processShutdownItem_ok item w Hf) as (R & (H1 & _ & _ & _ & rest & J & Q) & L).
    assert (E : shutdownOne item w
                = (tt, snd (processShutdownItem item w))).
    { unfold shutdownOne. rewrite bind_unfold.
      destruct (processShutdownItem item w) as [[i e] w2]. cbn in R.
      injection R as -> ->. done. }
    subst w'. rewrite E. cbn [snd].
    exists (EvHSet it' :: rest). split.
    { rewrite J. cbn. by rewrite <- app_assoc. }
    right. split; [done|]. split; [done|]. split; [by rewrite H1|].
    split; [by exists rest|].
    destruct (fst (deleteWorkload _ _)) as [m|] eqn:Hd; [|done].
    destruct (decide (PodID item = EmptyString)) as [?|Hne]; [by left|right].
    specialize (L Hne m eq_refl). rewrite J in L. cbn [afterWrite journal] in L.
    rewrite last_app in L. rewrite last_cons.
    destruct (last rest) as [e|]; [done|].
    by rewrite last_snoc in L.
Qed.

Lemma Forall_None_head {A} (l : list (option A)) :
  Forall (eq None) l -> mjoin (head l) = None.
Proof. intros H. destruct H as [|? ? <- ?]; done. Qed.

Lemma Forall_tail {A} (P : A -> Prop) l : Forall P l -> Forall P (tl l).
Proof. intros H. destruct H; [constructor|done]. Qed.

Lemma redisUp_next w : redisUp w -> nextFault w = None.
Proof. apply Forall_None_head. Qed.

Lemma objects_set_objects k k' s kb :
  objects k' (set_objects k s kb) = if decide (k = k') then s else objects k' kb.
Proof. destruct k, k'; done. Qed.

Lemma kube_faults_set_objects k s kb :
  kube_faults (set_objects k s kb) = kube_faults kb.
Proof. by destruct k. Qed.

Lemma kubeDelete_up k n w :
  kubeUp w ->
  realFailure (fst (kubeDelete k n w)) = None /\
  kubeUp (snd (kubeDelete k n w)) /\
  absent k n (snd (kubeDelete k n w)) /\
  (forall k' n', absent k' n' w -> absent k' n' (snd (kubeDelete k n w))).
Proof.
  intros Hup. unfold kubeDelete, kubeFault. rewrite !bind_unfold. cbn [emit kube].
  rewrite (Forall_None_head _ Hup).
  unfold absent, kubeUp in *.
  case_decide as Hin; cbn.
  - rewrite kube_faults_set_objects. cbn. split; [done|].
    split; [by apply Forall_tail|]. rewrite !objects_set_objects.
    split.
    + rewrite decide_True by done. intros Hx.
      apply elem_of_difference in Hx as [_ Hx]. apply Hx.
      by apply elem_of_singleton.
    + intros k' n' Ha. rewrite objects_set_objects. case_decide as E.
      * subst k'. intros Hx. apply elem_of_difference in Hx as [Hx _]. done.
      * by destruct k'.
  - split; [done|]. split; [by apply Forall_tail|].
    split; [by destruct k|]. intros k' n' Ha. by destruct k'.
Qed.

Lemma DeleteDinDStatefulSet_up name w :
  kubeUp w ->
  fst (DeleteDinDStatefulSet name w) = None /\
  kubeUp (snd (DeleteDinDStatefulSet name w)) /\
  absent KStatefulSet name (snd (DeleteDinDStatefulSet name w)) /\
  absent KService name (snd (DeleteDinDStatefulSet name w)) /\
  absent KPVC (pvcNameOf name) (snd (DeleteDinDStatefulSet name w)).
Proof.
  intros Hup. unfold DeleteDinDStatefulSet. rewrite bind_unfold.
  destruct (kubeDelete_up KStatefulSet name w Hup) as (F1 & U1 & A1 & M1).
  destruct (kubeDelete KStatefulSet name w) as [e1 w1]. cbn [fst snd] in *.
  rewrite F1, bind_unfold.
  destruct (kubeDelete_up KService name w1 U1) as (F2 & U2 & A2 & M2).
  destruct (kubeDelete KService name w1) as [e2 w2]. cbn [fst snd] in *.
  rewrite F2, bind_unfold.
  destruct (kubeDelete_up KPVC (pvcNameOf name) w2 U2) as (F3 & U3 & A3 & M3).
  destruct (kubeDelete KPVC (pvcNameOf name) w2) as [e3 w3]. cbn [fst snd] in *.
  rewrite F3. cbn. auto 10.
Qed.

Lemma DeleteDinDDeployment_up name w :
  kubeUp w ->
  fst (DeleteDinDDeployment name w) = None /\
  kubeUp (snd (DeleteDinDDeployment name w)) /\
  absent KDeployment name (snd (DeleteDinDDeployment name w)) /\
  absent KService name (snd (DeleteDinDDeployment name w)).
Proof.
  intros Hup. unfold DeleteDinDDeployment. rewrite bind_unfold.
  destruct (kubeDelete_up KDeployment name w Hup) as (F1 & U1 & A1 & M1).
  destruct (kubeDelete KDeployment name w) as [e1 w1]. cbn [fst snd] in *.
  rewrite F1, bind_unfold.
  destruct (kubeDelete_up KService name w1 U1) as (F2 & U2 & A2 & M2).
  destruct (kubeDelete KService name w1) as [e2 w2]. cbn [fst snd] in *.
  rewrite F2. cbn. auto 10.
Qed.

Lemma processShutdownItem_up item w :
  redisUp w ->
  snd (fst (processShutdownItem item w)) = None /\
  redisUp (snd (processShutdownItem item w)) /\
  Status <$> hash (snd (processShutdownItem item w)) !! ID item
    = Some StatusTerminated.
Proof.
  intros Hup.
  destruct (processShutdownItem_ok item w (redisUp_next w Hup))
    as (R & (H1 & H2 & _) & _).
  rewrite R. split; [done|]. split.
  - unfold redisUp. rewrite H2. cbn. by apply Forall_tail.
  - rewrite H1. cbn. by rewrite lookup_insert_eq.
Qed.

(** C9.  With a store that takes the writes, processing the same record
    twice returns no error and leaves it stored as [terminated] both
    times, whatever the cluster answers.  And on a cluster that refuses no
    call, deleting a workload returns no error whether its objects exist or
    not (NotFound counts as success), also when it is run again, and
    leaves no stateful set or deployment, no service, and no claim
    [docker-graph-storage-{name}-0]. *)
Theorem killer_delete_idempotent (item : QueueItem) (w : World)
    (name : string) (wk : World) :
  redisUp w -> kubeUp wk ->
  let once := processShutdownItem item w in
  let twice := processShutdownItem item (snd once) in
  let del1 := DeleteDinDStatefulSet name wk in
  let del2 := DeleteDinDStatefulSet name (snd del1) in
  let dep1 := DeleteDinDDeployment name wk in
  let dep2 := DeleteDinDDeployment name (snd dep1) in
  (snd (fst once) = None /\ snd (fst twice) = None /\
   Status <$> hash (snd once) !! ID item = Some StatusTerminated /\
   Status <$> hash (snd twice) !! ID item = Some StatusTerminated) /\
  (fst del1 = None /\ fst del2 = None /\
   absent KStatefulSet name (snd del1) /\ absent KService name (snd del1) /\
   absent KPVC ("docker-graph-storage-" +:+ name +:+ "-0") (snd del1)) /\
  (fst dep1 = None /\ fst dep2 = None /\
   absent KDeployment name (snd dep1) /\ absent KService name (snd dep1)).
Proof.
  intros Hr Hk once twice del1 del2 dep1 dep2.
  destruct (processShutdownItem_up item w Hr) as (E1 & U1 & S1).
  destruct (processShutdownItem_up item _ U1) as (E2 & _ & S2).
  destruct (DeleteDinDStatefulSet_up name wk Hk) as (D1 & K1 & A1 & A2 & A3).
  destruct (DeleteDinDStatefulSet_up name _ K1) as (D2 & _).
  destruct (DeleteDinDDeployment_up name wk Hk) as (P1 & L1 & B1 & B2).
  destruct (DeleteDinDDeployment_up name _ L1) as (P2 & _).
  repeat split; assumption.
Qed.

(** The sample record on a cluster that still holds its workload. *)
Lemma killer_delete_idempotent_witness :
  redisUp busyWorld /\ kubeUp busyWorld /\
  fst (DeleteDinDStatefulSet "k8s-playground-0a1b2c3d" busyWorld) = None /\
  fst (DeleteDinDStatefulSet "k8s-playground-0a1b2c3d"
         (snd (DeleteDinDStatefulSet "k8s-playground-0a1b2c3d" busyWorld))) = None.
Proof.
  assert (Hr : redisUp busyWorld) by constructor.
  assert (Hk : kubeUp busyWorld) by constructor.
  split; [exact Hr|]. split; [exact Hk|].
  pose proof (killer_delete_idempotent (sampleItem StatusShutdown) busyWorld
                "k8s-playground-0a1b2c3d" busyWorld Hr Hk) as H.
  cbv zeta in H. destruct H as (_ & (H1 & H2 & _) & _). split; [exact H1|exact H2].
Defined.

(** ** The generator *)

Section GeneratorFacts.

Variable namespace : string.
Variable caseTable : utf8.rune -> utf8.rune.
Variable quantityParses : string -> bool.
Variable dindImageBaseRepository : string.
Variable dindImageVersions : gmap string string.
Variable DIND_PVC_SIZE : string.

Abbreviation genLoop := (pendingLoop namespace caseTable quantityParses
  dindImageBaseRepository dindImageVersions DIND_PVC_SIZE).

Lemma redisUp_afterWrite item w : redisUp w -> redisUp (afterWrite item w).
Proof. unfold redisUp. cbn. apply Forall_tail. Qed.


Lemma slicePrefix_Some s n :
  (n <= String.length s)%nat -> slicePrefix s n = Some (String.substring 0 n s).
Proof.
  intros H. unfold slicePrefix.
  destruct (String.length s <? n)%nat eqn:E; [|done].
  apply Nat.ltb_lt in E. lia.
Qed.









End GeneratorFacts.



Lemma ShouldBeCollected_spec item w :
  fst (ShouldBeCollected item w) = collectible item (reading w).
Proof.
  unfold ShouldBeCollected, collectible.
  destruct (existsb _ _); [done|]. done.
Qed.

(** The id is sliced before the version is looked up: on a record whose
    id has fewer than eight bytes the loop panics, after the record has
    been written as [generating]. *)
Example generator_panics_on_short_id :
  let item := mkItem "alice@example.com" "9.99" StatusPending EmptyString 5
                     EmptyString 1000 "abc" EmptyString "statefulset" in
  let w := mkWorld {[ "abc" := item ]} [] 10 [] [] [] quietKube [] in
  let r := pendingLoop "default" noCase (fun _ => true) "tyottodekiru/dind"
             sampleVersions EmptyString [item] w in
  fst r = Crash "slice bounds out of range" /\
  Status <$> hash (snd r) !! "abc" = Some StatusGenerating.
Proof. vm_compute. done. Qed.

(** ** The collector *)

(** The body of the loop, whatever the clock does. *)
Lemma cleanupOne_rule (now0 : Z) (item : QueueItem) (w : World) :
  nextFault w = None ->
  let w' := snd (cleanupOne now0 item w) in
  fst (ShouldBeCollected item w) = collectible item (reading w) /\
  if collectible item (reading w)
  then exists t, hash w' = <[ID item := set_StatusUpdatedAt t (set_Status StatusShutdown item)]> (hash w)
  else if reapable item now0
       then hash w' = delete (ID item) (hash w)
       else hash w' = hash w.
Proof.
  intros Hf w'. split; [apply ShouldBeCollected_spec|]. subst w'.
  unfold collectible, reapable, cleanupOne, ShouldBeCollected.
  destruct (existsb (String.eqb (Status item)) terminalStates) eqn:Ht; cbn [negb andb].
  - mstep.
    destruct (String.eqb (Status item) StatusTerminated); cbn [andb]; [|done].
    destruct (_ <? _)%Z; [|done].
    unfold DeleteItem, redisCommand. mstep. fold (nextFault w). rewrite Hf. done.
  - unfold IsExpired, timeNow. mstep. unfold After. fold (reading w).
    destruct (ExpiresAt item <? reading w)%Z.
    + mstep. rewrite UpdateItem_ok by done. mstep. cbn. by eexists.
    + assert (Hn : String.eqb (Status item) StatusTerminated = false).
      { cbn in Ht. rewrite !orb_false_iff in Ht. tauto. }
      rewrite Hn. done.
Qed.

(** ** The whole tick *)

Lemma take_add_drop {A} (l : list A) m n :
  take (m + n) l = take m l ++ take n (drop m l).
Proof.
  revert l. induction m as [|m IH]; intros [|x l]; cbn; try done.
  - by rewrite take_nil.
  - by rewrite IH.
Qed.

Lemma sum_app (l1 l2 : list Z) :
  foldr Z.add 0%Z (l1 ++ l2) = (foldr Z.add 0 l1 + foldr Z.add 0 l2)%Z.
Proof. induction l1 as [|x l1 IH]; cbn; [done|]. rewrite IH. lia. Qed.

Lemma sum_nonneg (l : list Z) :
  Forall (fun d => 0 <= d)%Z l -> (0 <= foldr Z.add 0 l)%Z.
Proof. induction 1; cbn; lia. Qed.

(** [w'] is [w] after [m] readings of the clock. *)
Lemma readingAt_ahead w w' m n :
  now w' = (now w + foldr Z.add 0 (take m (drift w)))%Z ->
  drift w' = drop m (drift w) ->
  readingAt w' n = readingAt w (m + n).
Proof.
  intros Hn Hd. unfold readingAt. rewrite Hn, Hd.
  replace (S (m + n)) with (m + S n)%nat by lia.
  rewrite take_add_drop, sum_app. lia.
Qed.

Lemma readingAt_0 w : readingAt w 0 = reading w.
Proof.
  unfold readingAt, reading. destruct (drift w) as [|d l]; cbn; [done|].
  rewrite take_0. cbn. lia.
Qed.

Lemma readingAt_mono w n n' :
  monotoneClock w -> (n <= n')%nat -> (readingAt w n <= readingAt w n')%Z.
Proof.
  intros Hm Hle. unfold readingAt.
  replace (S n') with (S n + (n' - n))%nat by lia.
  rewrite take_add_drop, sum_app.
  assert (0 <= foldr Z.add 0 (take (n' - n) (drop (S n) (drift w))))%Z; [|lia].
  apply sum_nonneg. unfold monotoneClock in Hm.
  apply Forall_take, Forall_drop. exact Hm.
Qed.

(** What the tick makes of a record that it examines at the reading [t],
    [t'] being the reading after it and [now0] the one before the loop. *)
Lemma cleanupOne_clock now0 item w :
  redisUp w ->
  let w' := snd (cleanupOne now0 item w) in
  redisUp w' /\
  (exists m, (m <= 2)%nat /\
     now w' = (now w + foldr Z.add 0 (take m (drift w)))%Z /\
     drift w' = drop m (drift w)) /\
  hash w' = if collectible item (readingAt w 0)
            then <[ID item := set_StatusUpdatedAt (readingAt w 1)
                                (set_Status StatusShutdown item)]> (hash w)
            else if reapable item now0 then delete (ID item) (hash w)
            else hash w.
Proof.
  intros Hup w'. subst w'. rewrite readingAt_0.
  unfold collectible, reapable, cleanupOne, ShouldBeCollected.
  destruct (existsb (String.eqb (Status item)) terminalStates) eqn:Ht; cbn [negb andb].
  - mstep.
    destruct (String.eqb (Status item) StatusTerminated); cbn [andb].
    + destruct (_ <? _)%Z.
      * unfold DeleteItem, redisCommand. mstep. fold (nextFault w).
        rewrite (redisUp_next w Hup). cbn.
        split; [by apply Forall_tail|]. split; [|done].
        exists 0%nat. rewrite take_0, drop_0. cbn. split; [lia|]. split; [lia|done].
      * cbn. split; [done|]. split; [|done].
        exists 0%nat. rewrite take_0, drop_0. cbn. split; [lia|]. split; [lia|done].
    + cbn. split; [done|]. split; [|done].
      exists 0%nat. rewrite take_0, drop_0. cbn. split; [lia|]. split; [lia|done].
  - unfold IsExpired, timeNow. mstep. unfold After. fold (reading w).
    destruct (ExpiresAt item <? reading w)%Z.
    + mstep. rewrite UpdateItem_ok by (by apply redisUp_next). mstep. cbn.
      split; [by apply Forall_tail|]. split.
      * exists 2%nat. split; [lia|]. unfold reading. cbn.
        destruct (drift w) as [|d1 [|d2 l]]; cbn; rewrite ?take_0, ?drop_0; cbn;
          (split; [lia|done]).
      * unfold stamped, reading, readingAt. cbn.
        destruct (drift w) as [|d1 [|d2 l]]; cbn; try rewrite take_0; cbn;
          do 2 f_equal; lia.
    + assert (Hn : String.eqb (Status item) StatusTerminated = false).
      { cbn in Ht. rewrite !orb_false_iff in Ht. tauto. }
      rewrite Hn. cbn. split; [done|]. split; [|done].
      exists 1%nat. split; [lia|]. unfold reading.
      destruct (drift w) as [|d1 l]; cbn; rewrite ?take_0, ?drop_0; cbn;
        (split; [lia|done]).
Qed.

Lemma forEach_cleanup now0 items w :
  NoDup (ID <$> items) -> redisUp w ->
  (forall it, it ∈ items -> hash w !! ID it = Some it) ->
  let w' := snd (forEach (cleanupOne now0) items w) in
  (forall k, k ∉ (ID <$> items) -> hash w' !! k = hash w !! k) /\
  (forall it, it ∈ items ->
     exists n, (n <= 2 * (length items - 1))%nat /\
       hash w' !! ID it =
         if collectible it (readingAt w n)
         then Some (set_StatusUpdatedAt (readingAt w (S n))
                      (set_Status StatusShutdown it))
         else if reapable it now0 then None else Some it).
Proof.
  revert w. induction items as [|x rest IH]; intros w Hnd Hup Hst w'; subst w'.
  - split; [done|]. intros it Hin. by apply elem_of_nil in Hin.
  - cbn [forEach]. rewrite bind_unfold.
    destruct (cleanupOne_clock now0 x w Hup) as (Hup1 & (m & Hm & Hn1 & Hd1) & Hh1).
    destruct (cleanupOne now0 x w) as [[] w1]. cbn [snd] in *.
    rewrite fmap_cons in Hnd. apply NoDup_cons in Hnd as [Hx Hnd].
    assert (Hl : forall k, k <> ID x -> hash w1 !! k = hash w !! k).
    { intros k Hk. rewrite Hh1.
      destruct (collectible x _); [by rewrite lookup_insert_ne|].
      destruct (reapable x now0); [by rewrite lookup_delete_ne|done]. }
    destruct (IH w1 Hnd Hup1) as [Hout Hin'].
    { intros it Hin. rewrite Hl.
      - apply Hst. by right.
      - intros E. apply Hx. rewrite <- E. by apply list_elem_of_fmap_2. }
    split.
    + intros k Hk. rewrite fmap_cons in Hk. apply not_elem_of_cons in Hk as [Hk1 Hk2].
      rewrite Hout by done. by apply Hl.
    + intros it Hin. apply elem_of_cons in Hin as [->|Hin].
      * exists 0%nat. split; [lia|].
        rewrite Hout by done. rewrite Hh1.
        destruct (collectible x (readingAt w 0)); [by rewrite lookup_insert_eq|].
        destruct (reapable x now0); [by rewrite lookup_delete_eq|].
        apply Hst. by left.
      * destruct (Hin' it Hin) as (n & Hlt & Hres).
        exists (m + n)%nat. split.
        { destruct rest; [by apply elem_of_nil in Hin|]. cbn [length] in *. lia. }
        rewrite Hres.
        rewrite (readingAt_ahead w w1 m n Hn1 Hd1).
        rewrite (readingAt_ahead w w1 m (S n) Hn1 Hd1).
        by replace (m + S n)%nat with (S (m + n)) by lia.
Qed.

(** C2, as amended.  One tick of the collector, whatever the clock does,
    with a Redis that answers.  Every stored record is examined at a
    reading [t] of the clock that the tick takes after the one it starts
    with (the reading of [IsExpired] for that record).  A record whose
    status is none of [shutdown], [terminated], [error] and whose
    [ExpiresAt] lies strictly before [t] is stored with status [shutdown],
    stamped with the reading after [t]; every other record is left as it
    is, but for a [terminated] record past its grace, which is deleted.
    The tick reads the clock at most twice for each record that it examines
    before this one; on a clock that never goes back [t] is not before the
    first reading of the tick. *)
Theorem collector_tick (w : World) (k : string) (item : QueueItem) :
  keyed (hash w) -> redisUp w ->
  hash w !! k = Some item ->
  exists n, (n <= 2 * (size (hash w) - 1))%nat /\
    let t := readingAt w (S n) in
    (monotoneClock w -> (reading w <= t)%Z) /\
    hash (snd (cleanupItems w)) !! k =
      if negb (existsb (String.eqb (Status item)) terminalStates)
         && (ExpiresAt item <? t)%Z
      then Some (set_StatusUpdatedAt (readingAt w (S (S n)))
                   (set_Status StatusShutdown item))
      else if String.eqb (Status item) StatusTerminated
              && (5 * Minute <? reading w - StatusUpdatedAt item)%Z
           then None
           else Some item.
Proof.
  intros Hk Hup Hit.
  unfold cleanupItems, GetAllItems, redisCommand. mstep.
  pose proof (redisUp_next w Hup) as Hnf. unfold nextFault in Hnf.
  rewrite Hnf. mstep. unfold timeNow. cbv beta iota zeta.
  set (w0 := set_redis_faults _ w).
  change (now w0 + hd 0 (drift w0))%Z with (reading w).
  set (w1 := set_clock _ _ w0).
  assert (Hn1 : now w1 = (now w + foldr Z.add 0 (take 1 (drift w)))%Z).
  { subst w1 w0. unfold reading. cbn. destruct (drift w); cbn; [done|].
    rewrite take_0. cbn. lia. }
  assert (Hd1 : drift w1 = drop 1 (drift w)).
  { subst w1 w0. cbn. by destruct (drift w). }
  set (items := (map_to_list (hash w0)).*2).
  assert (Hids : ID <$> items = (map_to_list (hash w)).*1).
  { subst items. cbn. rewrite <- list_fmap_compose.
    apply list_fmap_ext. intros i [k' it'] Hin.
    assert (Hin' : (k', it') ∈ map_to_list (hash w)) by (eapply list_elem_of_lookup_2; done).
    apply elem_of_map_to_list in Hin'. cbn. by apply Hk in Hin'. }
  assert (Hlen : length items = size (hash w)).
  { subst items. cbn. by rewrite length_fmap, length_map_to_list. }
  destruct (forEach_cleanup (reading w) items w1) as [_ Hres].
  - rewrite Hids. apply NoDup_fst_map_to_list.
  - unfold redisUp. cbn. by apply Forall_tail.
  - intros it Hin. subst items. apply list_elem_of_fmap in Hin as ([k' it'] & -> & Hin).
    cbn in Hin. apply elem_of_map_to_list in Hin. cbn.
    pose proof (Hk _ _ Hin) as E. cbn in E. by rewrite E.
  - rewrite bind_unfold.
    destruct (forEach (cleanupOne (reading w)) items w1) as [[] w2]. cbn [snd ret] in *.
    assert (Hin : item ∈ items).
    { subst items. apply list_elem_of_fmap. exists (k, item). split; [done|].
      cbn. by apply elem_of_map_to_list. }
    destruct (Hres item Hin) as (n & Hlt & Hl).
    rewrite (Hk _ _ Hit) in Hl.
    rewrite (readingAt_ahead w w1 1 n Hn1 Hd1) in Hl.
    rewrite (readingAt_ahead w w1 1 (S n) Hn1 Hd1) in Hl.
    exists n. split; [lia|]. cbv zeta. split.
    + intros Hm. rewrite <- readingAt_0. apply readingAt_mono; [done|lia].
    + exact Hl.
Qed.

(** The sample record at the instant of its expiry, on a clock that moves
    on during the tick: being the only record it is examined at the second
    reading, 1001, and collected. *)
Lemma collector_tick_witness :
  keyed (hash driftingWorld) /\ redisUp driftingWorld /\
  hash driftingWorld !! sampleID = Some (sampleItem StatusAvailable) /\
  hash (snd (cleanupItems driftingWorld)) !! sampleID
  = Some (set_StatusUpdatedAt 1001
            (set_Status StatusShutdown (sampleItem StatusAvailable))).
Proof.
  assert (Hk : keyed (hash driftingWorld)).
  { apply map_Forall_singleton. reflexivity. }
  assert (Hr : redisUp driftingWorld) by constructor.
  assert (Hl : hash driftingWorld !! sampleID = Some (sampleItem StatusAvailable))
    by reflexivity.
  split; [exact Hk|]. split; [exact Hr|]. split; [exact Hl|].
  destruct (collector_tick _ sampleID (sampleItem StatusAvailable) Hk Hr Hl)
    as (n & Hn & _ & H).
  assert (E : n = 0%nat) by (vm_compute in Hn; lia).
  subst n. rewrite H. vm_compute. reflexivity.
Defined.

(** On that clock the record is collected: the tick starts at 1000, the
    instant of the expiry, and [IsExpired] reads 1001. *)
Example collector_tick_on_a_moving_clock :
  reading driftingWorld = 1000%Z /\
  hash (snd (cleanupItems driftingWorld)) !! sampleID
  = Some (set_StatusUpdatedAt 1001
            (set_Status StatusShutdown (sampleItem StatusAvailable))).
Proof. vm_compute. done. Qed.

(** A tick at the very instant at which the sample record expires: the
    record is [available], the time of the tick is its [ExpiresAt], and
    the tick leaves it [available]. *)
Lemma collector_spares_record_at_expiry_instant :
  let w := sampleWorld StatusAvailable [] 1000 in
  hash w !! sampleID = Some (sampleItem StatusAvailable) /\
  (ExpiresAt (sampleItem StatusAvailable) <=? now w)%Z = true /\
  fst (cleanupItems w) = None /\
  hash (snd (cleanupItems w)) !! sampleID = Some (sampleItem StatusAvailable).
Proof. vm_compute. repeat split. Qed.

(** ** The stamps of a record *)















Example stampHistory_sample :
  stampHistory sampleID
    [OpUpdate (sampleItem StatusShutdown); OpUpdate (sampleItem StatusTerminated)]
    tickingWorld = [5; 13; 17]%Z.
Proof. vm_compute. reflexivity. Qed.

(** ** The owner check of the handlers *)

Section HandlerFacts.

Variable NAMESPACE : string.
Variable k8sClientPresent : bool.
Variable GetServicesInPod : string -> string -> M (Body + string).
Variable handleTerminalSession : QueueItem -> string -> string -> M Response.
Variable proxyThroughDinDContainer :
  string -> string -> string -> string -> M Response.

Abbreviation route := (serve NAMESPACE k8sClientPresent GetServicesInPod
  handleTerminalSession proxyThroughDinDContainer).

Lemma GetItem_found id item w :
  nextFault w = None -> hash w !! id = Some item ->
  GetItem id w = (inl item, set_redis_faults (tl (redis_faults w)) w).
Proof.
  intros Hf Hh. unfold GetItem, redisCommand. mstep. fold (nextFault w).
  rewrite Hf. cbn. by rewrite Hh.
Qed.

(** C4, as amended.  A request on a record that Redis returns and whose
    owner is not the principal is answered 403 and leaves the hash as it
    was: for destroy, connect, services and proxy always, for rename when
    the body passes the binding. *)
Theorem foreign_request_forbidden (req : Request) (ownerID id : string)
    (item : QueueItem) (w : World) :
  hash w !! id = Some item ->
  Owner item <> ownerID ->
  nextFault w = None ->
  bindable req = true ->
  httpStatus (fst (route req ownerID id w)) = StatusForbidden /\
  hash (snd (route req ownerID id w)) = hash w.
Proof.
  intros Hh Ho Hf Hb.
  assert (Hne : negb (String.eqb (Owner item) ownerID) = true).
  { apply negb_true_iff, String.eqb_neq. done. }
  destruct req as [|decoded| | |path port]; cbn [serve].
  - unfold destroyEnvironment. rewrite bind_unfold, (GetItem_found id item) by done.
    rewrite Hne. done.
  - unfold updateEnvironmentDisplayName. cbn in Hb.
    destruct (bindDisplayName decoded) as [name|e]; [|done].
    rewrite bind_unfold, (GetItem_found id item) by done.
    rewrite Hne. done.
  - unfold connectEnvironment. rewrite bind_unfold, (GetItem_found id item) by done.
    rewrite Hne. done.
  - unfold getEnvironmentServices. rewrite bind_unfold, (GetItem_found id item) by done.
    rewrite Hne. done.
  - unfold proxyToPod. rewrite bind_unfold, (GetItem_found id item) by done.
    rewrite Hne. done.
Qed.

End HandlerFacts.

(** Another principal asks for the services of the sample record. *)
Lemma foreign_request_forbidden_witness :
  hash (sampleWorld StatusAvailable [] 500) !! sampleID
    = Some (sampleItem StatusAvailable) /\
  Owner (sampleItem StatusAvailable) <> "bob@example.com" /\
  nextFault (sampleWorld StatusAvailable [] 500) = None /\
  bindable ReqServices = true /\
  httpStatus (fst (serve "default" true noServices noTerminal noProxy ReqServices
                     "bob@example.com" sampleID
                     (sampleWorld StatusAvailable [] 500))) = StatusForbidden /\
  hash (snd (serve "default" true noServices noTerminal noProxy ReqServices
               "bob@example.com" sampleID (sampleWorld StatusAvailable [] 500)))
    = hash (sampleWorld StatusAvailable [] 500).
Proof.
  assert (Hl : hash (sampleWorld StatusAvailable [] 500) !! sampleID
               = Some (sampleItem StatusAvailable)) by reflexivity.
  assert (Ho : Owner (sampleItem StatusAvailable) <> "bob@example.com")
    by discriminate.
  assert (Hf : nextFault (sampleWorld StatusAvailable [] 500) = None)
    by reflexivity.
  assert (Hb : bindable ReqServices = true) by reflexivity.
  split; [exact Hl|]. split; [exact Ho|]. split; [exact Hf|]. split; [exact Hb|].
  exact (foreign_request_forbidden "default" true noServices noTerminal noProxy
           ReqServices "bob@example.com" sampleID _ _ Hl Ho Hf Hb).
Defined.

(** Another principal sends a rename with an empty name: the answer is
    400, not 403. *)
Lemma foreign_rename_with_empty_name_is_bad_request :
  let w := sampleWorld StatusAvailable [] 500 in
  hash w !! sampleID = Some (sampleItem StatusAvailable) /\
  String.eqb (Owner (sampleItem StatusAvailable)) "bob@example.com" = false /\
  httpStatus (fst (serve "default" true noServices noTerminal noProxy
                     (ReqRename (inl EmptyString)) "bob@example.com" sampleID w))
    = StatusBadRequest /\
  hash (snd (serve "default" true noServices noTerminal noProxy
               (ReqRename (inl EmptyString)) "bob@example.com" sampleID w))
    = hash w.
Proof. vm_compute. repeat split. Qed.

(** ** The resize queue *)

Lemma lastTwo_short {A} (l : list A) : (length l <= 2)%nat -> lastTwo l = l.
Proof.
  intros H. unfold lastTwo.
  replace (length l - 2)%nat with 0%nat by lia. apply drop_0.
Qed.

Lemma lastTwo_app {A} (l r : list A) :
  lastTwo (lastTwo l ++ r) = lastTwo (l ++ r).
Proof.
  destruct (decide (length l <= 2)%nat) as [Hs|Hl]; [by rewrite (lastTwo_short l)|].
  assert (El : l = take (length l - 2) l ++ lastTwo l)
    by (symmetry; apply take_drop).
  assert (Ha : length (take (length l - 2) l) = (length l - 2)%nat)
    by (rewrite length_take; lia).
  assert (Hb : length (lastTwo l) = 2%nat)
    by (unfold lastTwo; rewrite length_drop; lia).
  generalize dependent (lastTwo l). generalize dependent (take (length l - 2) l).
  intros a Ha b -> Hb. clear Hl.
  unfold lastTwo. rewrite <- app_assoc, !length_app.
  replace (length a + (length b + length r) - 2)%nat
    with (length a + (length b + length r - 2))%nat by lia.
  by rewrite drop_app_add.
Qed.

(** One [Resize] that nobody reads: the new size goes to the back, and
    the channel keeps its two newest sizes. *)
Lemma Resize_idle cols rows t :
  (length (sizeChan t) <= 2)%nat ->
  Resize Idle cols rows t
  = mkSession (lastTwo (sizeChan t ++ [mkSize cols rows])) (delivered t).
Proof.
  destruct t as [q seen]. cbn [sizeChan delivered].
  destruct q as [|x [|y [|z q]]]; cbn [length]; intros H; try done; lia.
Qed.

Lemma size_eta size : mkSize (Width size) (Height size) = size.
Proof. by destruct size. Qed.

Lemma resizeAll_spec sizes t :
  (length (sizeChan t) <= 2)%nat ->
  resizeAll sizes t = mkSession (lastTwo (sizeChan t ++ sizes)) (delivered t).
Proof.
  revert t. induction sizes as [|s rest IH]; intros t Ht.
  - cbn. rewrite app_nil_r, lastTwo_short by done. by destruct t.
  - cbn [resizeAll fold_left]. fold (resizeAll rest).
    rewrite Resize_idle by done. rewrite size_eta, IH.
    + cbn [sizeChan delivered]. rewrite lastTwo_app, <- app_assoc. done.
    + cbn [sizeChan]. unfold lastTwo. rewrite length_drop. lia.
Qed.

(** C5, as amended.  The queue holds two sizes, and a size sent to a full
    queue that nobody reads takes the place of the oldest one: whatever
    sizes are sent to a fresh session, the channel ends with the two newest
    of them; after A, B, C it holds B and C, which is what the exec stream
    then receives; the newest size is never the one that is dropped; and
    on a full channel the head is the size that goes. *)
Theorem resize_discards_oldest (sizes : list TerminalSize)
    (A B C x y : TerminalSize) (seen : list TerminalSize) :
  resizeAll sizes NewTerminalSession = mkSession (lastTwo sizes) [] /\
  sizeChan (resizeAll [A; B; C] NewTerminalSession) = [B; C] /\
  delivered (NextN 3 (resizeAll [A; B; C] NewTerminalSession)) = [B; C] /\
  last (sizeChan (resizeAll (sizes ++ [C]) NewTerminalSession)) = Some C /\
  Resize Idle (Width C) (Height C) (mkSession [x; y] seen)
    = mkSession [y; C] seen.
Proof.
  split; [apply resizeAll_spec; cbn; lia|].
  split; [by rewrite resizeAll_spec by (cbn; lia)|].
  split; [by rewrite resizeAll_spec by (cbn; lia)|].
  split; [|by rewrite Resize_idle, size_eta by (cbn; lia)].
  rewrite resizeAll_spec by (cbn; lia).
  unfold NewTerminalSession, lastTwo. cbn [sizeChan app].
  rewrite length_app. cbn [length].
  rewrite drop_app_le by lia. by rewrite last_snoc.
Qed.

(** A, B, C sent to a queue that nobody reads: the exec stream receives
    B and C, which is neither A and C nor C alone. *)
Lemma resize_abc_keeps_b_and_c :
  let A := mkSize 100 30 in
  let B := mkSize 120 30 in
  let C := mkSize 80 24 in
  let t := Resize Idle 80 24 (Resize Idle 120 30 (Resize Idle 100 30
             NewTerminalSession)) in
  delivered (NextN 3 t) = [B; C] /\
  delivered (NextN 3 t) <> [A; C] /\
  delivered (NextN 3 t) <> [C].
Proof. repeat split; discriminate. Qed.

(** With a reader, [Resize] on a full channel depends on when the exec
    stream receives: in time, the send goes through behind what is left;
    one size just after the timer, and the next one is taken off for the
    new size; both sizes just after the timer, and the new size is given
    up. *)
Example resize_with_reader (x y C : TerminalSize) (seen : list TerminalSize) :
  Resize ReceivesInTime (Width C) (Height C) (mkSession [x; y] seen)
    = mkSession [y; C] (seen ++ [x]) /\
  Resize (ReceivesLate 1) (Width C) (Height C) (mkSession [x; y] seen)
    = mkSession [C] (seen ++ [x]) /\
  Resize (ReceivesLate 2) (Width C) (Height C) (mkSession [x; y] seen)
    = mkSession [] (seen ++ [x; y]).
Proof.
  destruct C as [c r]. cbn. rewrite <- app_assoc. done.
Qed.

(** ** The keystroke parser *)
Lemma printable_low r : printable r = true -> (r < 128)%N.
Proof.
  unfold printable. rewrite !orb_true_iff, andb_true_iff, !N.leb_le, !N.eqb_eq. lia.
Qed.

Lemma printable_code c : printable (code c) = printableByte c.
Proof.
  unfold printable, printableByte.
  destruct (32 <=? code c)%N eqn:E1, (code c <=? 126)%N eqn:E2,
    (code c =? 32)%N eqn:E3, (code c =? 9)%N eqn:E4; try done.
  all: apply N.eqb_eq in E3; rewrite E3 in *; done.
Qed.

Lemma code_byte c : byte (code c) = c.
Proof. apply ascii_N_embedding. Qed.

Lemma filter_printable_high l :
  forallb (fun c => (128 <=? code c)%N) l = true ->
  List.filter printableByte l = [].
Proof.
  induction l as [|c l IH]; [done|]. cbn. rewrite andb_true_iff.
  intros [Hc Hl]. apply N.leb_le in Hc.
  assert (E : printableByte c = false).
  { apply not_true_is_false. unfold printableByte.
    rewrite orb_true_iff, andb_true_iff, !N.leb_le, N.eqb_eq. lia. }
  rewrite E. by apply IH.
Qed.

Lemma fold_printable fuel s buf :
  (length s <= fuel)%nat ->
  fold_left (fun b rb => if printable (fst rb) then b ++ [byte (fst rb)] else b)
            (utf8.rangeFrom fuel s) buf
  = buf ++ List.filter printableByte s.
Proof.
  revert s buf. induction fuel as [|fuel IH]; intros s buf Hlen.
  - destruct s; [|cbn in Hlen; lia]. cbn. by rewrite app_nil_r.
  - destruct s as [|c0 t0]; [cbn; by rewrite app_nil_r|].
    cbn [utf8.rangeFrom].
    destruct (N.lt_ge_cases (code c0) 128) as [Hlo|Hhi].
    + rewrite decode_low by done. cbn [fold_left fst take drop].
      rewrite drop_0. rewrite IH by (cbn in Hlen; lia).
      cbn [List.filter]. rewrite printable_code.
      destruct (printableByte c0).
      * rewrite code_byte, <- app_assoc. done.
      * done.
    + pose proof (decode_high c0 t0 Hhi) as Hr.
      destruct (decode_high_bytes c0 t0 Hhi) as [Hw Hb].
      destruct (utf8.DecodeRuneInString (c0 :: t0)) as [r w]. cbn [fst snd] in *.
      cbn [fold_left fst].
      assert (Hp : printable r = false).
      { apply not_true_is_false. intros Hp. apply printable_low in Hp. lia. }
      rewrite Hp. rewrite IH.
      * rewrite <- (take_drop w (c0 :: t0)) at 2.
        rewrite List.filter_app, (filter_printable_high _ Hb). done.
      * rewrite length_drop. cbn in *. lia.
Qed.

Lemma appendPrintable_bytes buf str :
  appendPrintable buf str = buf ++ List.filter printableByte str.
Proof. unfold appendPrintable, utf8.runes. by apply fold_printable. Qed.

Section AuditFacts.
Variable jsonObjectKeys : bytes -> option (list string).

Abbreviation Parse := (ParseCommandFromWebSocketDataWithSession jsonObjectKeys).

Lemma parser_refines data sid (cb : gmap string string) :
  Parse data sid cb = lineDiscipline jsonObjectKeys data sid cb.
Proof.
  unfold ParseCommandFromWebSocketDataWithSession, lineDiscipline.
  destruct (isResizeFrame jsonObjectKeys data); [done|].
  destruct (startsWithESC data); [done|]. cbn [orb].
  unfold LoadOrStore, hasNewline, isErase.
  destruct (cb !! sid) as [line|] eqn:E; cbv [default from_option id].
  - destruct (_ || _).
    { destruct (0 <? _)%nat eqn:L; [done|].
      apply Nat.ltb_ge in L. revert L.
      generalize (b2s (gostrings.TrimSpace (s2b line))).
      intros [|c s] L; [done|cbn in L; lia]. }
    destruct (_ || _).
    { destruct (0 <? _)%nat eqn:L; [done|].
      apply Nat.ltb_ge in L. destruct line; [|cbn in L; lia].
      cbn. by rewrite insert_id. }
    by rewrite appendPrintable_bytes.
  - destruct (_ || _).
    { rewrite insert_insert_eq.
      destruct (0 <? _)%nat eqn:L; [done|].
      apply Nat.ltb_ge in L. revert L.
      generalize (b2s (gostrings.TrimSpace (s2b EmptyString))).
      intros [|c s] L; [done|cbn in L; lia]. }
    destruct (_ || _); [done|].
    by rewrite appendPrintable_bytes, insert_insert_eq.
Qed.

(** Every JSON text that decodes to an object with a key has a brace. *)
Hypothesis json_braces : forall data keys,
  jsonObjectKeys data = Some keys -> keys <> [] -> In "{"%char data.

Lemma not_resize data :
  ~ In "{"%char data -> isResizeFrame jsonObjectKeys data = false.
Proof.
  intros Hn. unfold isResizeFrame.
  destruct (jsonObjectKeys data) as [keys|] eqn:E; [|done].
  apply bool_decide_eq_false. intros Hin. apply Hn.
  apply (json_braces _ keys E). intros ->. by apply elem_of_nil in Hin.
Qed.

Lemma parse_typed data sid (cb : gmap string string) :
  ~ In "{"%char data -> startsWithESC data = false ->
  hasNewline data = false -> isErase data = false ->
  Parse data sid cb
  = (EmptyString,
     <[sid := b2s (s2b (default EmptyString (cb !! sid))
                   ++ List.filter printableByte data)]> cb).
Proof.
  intros Hj He Hn Hx. rewrite parser_refines. unfold lineDiscipline.
  by rewrite not_resize, He, Hn, Hx.
Qed.

Lemma parse_erase data sid (cb : gmap string string) :
  data = [BS] \/ data = [DEL] ->
  Parse data sid cb
  = (EmptyString,
     <[sid := b2s (removelast (s2b (default EmptyString (cb !! sid))))]> cb).
Proof.
  intros Hd. rewrite parser_refines. unfold lineDiscipline.
  rewrite not_resize by (destruct Hd as [-> | ->]; cbn; intuition discriminate).
  by destruct Hd as [-> | ->].
Qed.

Lemma parse_enter data sid (cb : gmap string string) :
  ~ In "{"%char data -> startsWithESC data = false -> hasNewline data = true ->
  Parse data sid cb
  = (b2s (gostrings.TrimSpace (s2b (default EmptyString (cb !! sid)))),
     <[sid := EmptyString]> cb).
Proof.
  intros Hj He Hn. rewrite parser_refines. unfold lineDiscipline.
  by rewrite not_resize, He, Hn.
Qed.

(** C8, as amended.  The parser is the line discipline of its
    specification: printable ASCII and Tab bytes accumulate in the line of
    the session, a lone backspace or DEL retracts one byte, an input with
    CR or LF returns the line trimmed of the white space around it and
    clears it, resize frames and inputs that start with ESC change nothing.
    Fed to a fresh session, the inputs [la], backspace, [s], CR return the
    command [ls]. *)
Theorem keystroke_parser (data : bytes) (sid : string) (cb : gmap string string) :
  Parse data sid cb = lineDiscipline jsonObjectKeys data sid cb /\
  (let fresh := delete sid cb in
   feed jsonObjectKeys [s2b "la"; [BS]; s2b "s"; [CR]] sid fresh
   = ([EmptyString; EmptyString; EmptyString; "ls"], <[sid := EmptyString]> fresh)).
Proof.
  split; [apply parser_refines|].
  cbn [feed].
  rewrite parse_typed by (done || (cbn; intuition discriminate)).
  rewrite lookup_delete_eq. cbv beta iota.
  rewrite parse_erase by (by left).
  rewrite lookup_insert_eq, insert_insert_eq. cbv beta iota.
  rewrite parse_typed by (done || (cbn; intuition discriminate)).
  rewrite lookup_insert_eq, insert_insert_eq. cbv beta iota.
  rewrite parse_enter by (done || (cbn; intuition discriminate)).
  rewrite lookup_insert_eq, insert_insert_eq. cbv beta iota.
  reflexivity.
Qed.

End AuditFacts.

Lemma braceJSON_braces (data : bytes) (keys : list string) :
  braceJSON data = Some keys -> keys <> [] -> In "{"%char data.
Proof.
  destruct data as [|c rest]; [discriminate|]. cbn.
  destruct (Ascii.eqb c "{"%char) eqn:E; [|discriminate].
  apply Ascii.eqb_eq in E. intros _ _. by left.
Qed.

Lemma keystroke_parser_witness :
  (forall data keys, braceJSON data = Some keys -> keys <> [] -> In "{"%char data) /\
  feed braceJSON [s2b "la"; [BS]; s2b "s"; [CR]] "s1" (delete "s1" ∅)
  = ([EmptyString; EmptyString; EmptyString; "ls"],
     <["s1" := EmptyString]> (delete "s1" ∅)).
Proof.
  split; [exact braceJSON_braces|].
  exact (proj2 (keystroke_parser braceJSON braceJSON_braces [] "s1" ∅)).
Defined.

(** The line [ls] followed by a space, then CR: the command returned is
    [ls], without the space. *)
Lemma flushed_command_is_trimmed :
  let line := String "l" (String "s" (String " " EmptyString)) in
  fst (ParseCommandFromWebSocketDataWithSession braceJSON [CR] "s1"
         {[ "s1" := line ]}) = "ls" /\
  fst (ParseCommandFromWebSocketDataWithSession braceJSON [CR] "s1"
         {[ "s1" := line ]}) <> line.
Proof. split; [vm_compute; reflexivity|vm_compute; discriminate]. Qed.

Example resize_frame_is_skipped :
  ParseCommandFromWebSocketDataWithSession braceJSON
    (s2b ("{" +:+ quote +:+ "resize" +:+ quote +:+ ":true,"
          +:+ quote +:+ "cols" +:+ quote +:+ ":80,"
          +:+ quote +:+ "rows" +:+ quote +:+ ":24}"))
    "s1" {[ "s1" := "ls" ]} = (EmptyString, {[ "s1" := "ls" ]}).
Proof. reflexivity. Qed.

(** ** The work queue *)

Lemma DeleteItem_ok id w :
  nextFault w = None ->
  DeleteItem id w
  = (None, emit (EvHDel id) (set_hash (delete id (hash w))
                               (set_redis_faults (tl (redis_faults w)) w))).
Proof.
  intros Hf. unfold DeleteItem, redisCommand. rewrite bind_unfold.
  unfold nextFault in Hf. by rewrite Hf.
Qed.

Lemma GetItem_ok id w :
  nextFault w = None ->
  GetItem id w
  = (match hash w !! id with Some item => inl item | None => inr itemNotFound end,
     set_redis_faults (tl (redis_faults w)) w).
Proof.
  intros Hf. unfold GetItem, redisCommand. rewrite bind_unfold.
  unfold nextFault in Hf. rewrite Hf. cbn. by destruct (hash w !! id).
Qed.

Lemma GetItem_refused id w m :
  nextFault w = Some m ->
  GetItem id w
  = (inr (wrap "failed to get queue item" m),
     set_redis_faults (tl (redis_faults w)) w).
Proof.
  intros Hf. unfold GetItem, redisCommand. rewrite bind_unfold.
  unfold nextFault in Hf. by rewrite Hf.
Qed.

Lemma redisUp_tail w : redisUp w -> redisUp (set_redis_faults (tl (redis_faults w)) w).
Proof. unfold redisUp. cbn. apply Forall_tail. Qed.

(** X2.  A deleted record is gone, and only that record.  With a store
    that answers, [DeleteItem] returns no error whether or not the id is
    stored (Redis's HDEL does not fail on a missing field); afterwards
    [GetItem] on the id answers "item not found", every other key reads as
    before, and deleting an id that was not stored leaves the hash as it
    was. *)
Theorem DeleteItem_GetItem (id : string) (w : World) :
  redisUp w ->
  let w1 := snd (DeleteItem id w) in
  fst (DeleteItem id w) = None /\
  fst (GetItem id w1) = inr itemNotFound /\
  (forall k, k <> id -> fst (GetItem k w1) = fst (GetItem k w)) /\
  (hash w !! id = None -> hash w1 = hash w).
Proof.
  intros Hup w1. subst w1.
  rewrite DeleteItem_ok by (by apply redisUp_next). cbn [fst snd].
  set (w1 := emit _ _).
  assert (U1 : redisUp w1) by (by apply redisUp_tail).
  split; [done|].
  split; [|split].
  - rewrite GetItem_ok by (by apply redisUp_next). cbn. by rewrite lookup_delete_eq.
  - intros k Hk. rewrite !GetItem_ok by (by apply redisUp_next). cbn.
    by rewrite lookup_delete_ne.
  - intros Hn. cbn. by apply delete_id.
Qed.

Lemma DeleteItem_GetItem_witness :
  redisUp (sampleWorld StatusTerminated [] 0) /\
  fst (GetItem sampleID (sampleWorld StatusTerminated [] 0))
    = inl (sampleItem StatusTerminated) /\
  fst (GetItem sampleID (snd (DeleteItem sampleID (sampleWorld StatusTerminated [] 0))))
    = inr itemNotFound.
Proof.
  assert (H : redisUp (sampleWorld StatusTerminated [] 0)) by constructor.
  split; [exact H|]. split; [reflexivity|].
  exact (proj1 (proj2 (DeleteItem_GetItem sampleID _ H))).
Defined.

Lemma GetAllItems_ok w :
  nextFault w = None ->
  GetAllItems w = (inl ((map_to_list (hash w)).*2),
                   set_redis_faults (tl (redis_faults w)) w).
Proof.
  intros Hf. unfold GetAllItems, redisCommand. rewrite bind_unfold.
  unfold nextFault in Hf. by rewrite Hf.
Qed.

Lemma GetAllItems_refused w m :
  nextFault w = Some m ->
  GetAllItems w = (inr (wrap "failed to get all queue items" m),
                   set_redis_faults (tl (redis_faults w)) w).
Proof.
  intros Hf. unfold GetAllItems, redisCommand. rewrite bind_unfold.
  unfold nextFault in Hf. by rewrite Hf.
Qed.

Lemma elem_of_values (h : gmap string QueueItem) it :
  it ∈ (map_to_list h).*2 <-> exists k, h !! k = Some it.
Proof.
  rewrite list_elem_of_fmap. split.
  - intros ([k it'] & -> & Hin). exists k. by apply elem_of_map_to_list.
  - intros (k & Hk). exists (k, it). split; [done|]. by apply elem_of_map_to_list.
Qed.

Lemma keyed_ids (h : gmap string QueueItem) :
  keyed h -> ID <$> (map_to_list h).*2 = (map_to_list h).*1.
Proof.
  intros Hk. rewrite <- list_fmap_compose.
  apply list_fmap_ext. intros i [k' it'] Hin.
  assert (Hin' : (k', it') ∈ map_to_list h) by (eapply list_elem_of_lookup_2; done).
  apply elem_of_map_to_list in Hin'. cbn. by apply Hk in Hin'.
Qed.

Lemma NoDup_fmap_filter {A B} (f : A -> B) (P : A -> Prop) `{!forall x, Decision (P x)}
    (l : list A) :
  NoDup (f <$> l) -> NoDup (f <$> filter P l).
Proof.
  induction l as [|x l IH]; [done|]. rewrite fmap_cons. intros [Hx Hl]%NoDup_cons.
  rewrite filter_cons. case_decide; [|by apply IH].
  rewrite fmap_cons. apply NoDup_cons. split; [|by apply IH].
  intros Hin. apply Hx. apply list_elem_of_fmap in Hin as (y & -> & Hy).
  apply list_elem_of_fmap. exists y. split; [done|].
  by apply list_elem_of_filter in Hy as [_ Hy].
Qed.

(** X3.  The two filtered listings return exactly the stored records that
    match.  With a store that answers, a record is in the result of
    [GetItemsByStatus] (of [GetItemsByOwner]) if and only if it is stored in
    the hash and has that status (that owner); when the keys of the hash
    are the ids of the records no id is listed twice; and the listing
    changes nothing in the hash. *)
Theorem filtered_listings (status : QueueStatus) (owner : string) (w : World) :
  nextFault w = None ->
  exists byStatus byOwner,
    GetItemsByStatus status w
      = (inl byStatus, set_redis_faults (tl (redis_faults w)) w) /\
    GetItemsByOwner owner w
      = (inl byOwner, set_redis_faults (tl (redis_faults w)) w) /\
    (forall it, it ∈ byStatus <->
                Status it = status /\ exists k, hash w !! k = Some it) /\
    (forall it, it ∈ byOwner <->
                Owner it = owner /\ exists k, hash w !! k = Some it) /\
    (keyed (hash w) -> NoDup (ID <$> byStatus) /\ NoDup (ID <$> byOwner)).
Proof.
  intros Hf. do 2 eexists.
  unfold GetItemsByStatus, GetItemsByOwner.
  rewrite !bind_unfold, GetAllItems_ok by done. cbv beta iota delta [ret].
  split; [reflexivity|]. split; [reflexivity|].
  split; [|split].
  - intros it. by rewrite list_elem_of_filter, elem_of_values.
  - intros it. by rewrite list_elem_of_filter, elem_of_values.
  - intros Hk.
    assert (Hnd : NoDup (ID <$> (map_to_list (hash w)).*2)).
    { rewrite keyed_ids by done. apply NoDup_fst_map_to_list. }
    split; by apply NoDup_fmap_filter.
Qed.

Lemma filtered_listings_witness :
  nextFault (sampleWorld StatusShutdown [] 0) = None /\
  exists l,
    fst (GetItemsByStatus StatusShutdown (sampleWorld StatusShutdown [] 0)) = inl l /\
    sampleItem StatusShutdown ∈ l.
Proof.
  assert (H : nextFault (sampleWorld StatusShutdown [] 0) = None) by reflexivity.
  split; [exact H|].
  destruct (filtered_listings StatusShutdown "bob@example.com" _ H)
    as (l1 & l2 & E1 & E2 & H1 & _).
  exists l1. split; [by rewrite E1|].
  apply H1. split; [reflexivity|]. exists sampleID. reflexivity.
Defined.

(** ** The killer, a whole tick *)

Lemma shutdownOne_up item w :
  redisUp w ->
  let w' := snd (shutdownOne item w) in
  redisUp w' /\
  hash w' = <[ID item := stamped (set_Status StatusTerminated item) w]> (hash w).
Proof.
  intros Hup w'. subst w'.
  destruct (processShutdownItem_ok item w (redisUp_next w Hup))
    as (R & (H1 & H2 & _) & _).
  unfold shutdownOne. rewrite bind_unfold.
  destruct (processShutdownItem item w) as [[it e] w1]. cbn [fst snd] in *.
  injection R as -> ->. cbn [ret snd].
  split; [|by rewrite H1].
  unfold redisUp. rewrite H2. cbn. by apply Forall_tail.
Qed.

Lemma forEach_shutdown items w :
  NoDup (ID <$> items) -> redisUp w ->
  let w' := snd (forEach shutdownOne items w) in
  redisUp w' /\
  (forall k, k ∉ (ID <$> items) -> hash w' !! k = hash w !! k) /\
  (forall it, it ∈ items ->
     exists t, hash w' !! ID it
               = Some (set_StatusUpdatedAt t (set_Status StatusTerminated it))).
Proof.
  revert w. induction items as [|x rest IH]; intros w Hnd Hup w'; subst w'.
  - split; [done|]. split; [done|]. intros it Hin. by apply elem_of_nil in Hin.
  - cbn [forEach]. rewrite bind_unfold.
    destruct (shutdownOne_up x w Hup) as (Hup1 & Hh).
    destruct (shutdownOne x w) as [[] w1]. cbn [snd] in *.
    rewrite fmap_cons in Hnd. apply NoDup_cons in Hnd as [Hx Hnd].
    destruct (IH w1 Hnd Hup1) as (Hup2 & Hout & Hin').
    split; [done|]. split.
    + intros k Hk. rewrite fmap_cons in Hk. apply not_elem_of_cons in Hk as [Hk1 Hk2].
      rewrite Hout by done. rewrite Hh. by rewrite lookup_insert_ne.
    + intros it Hin. apply elem_of_cons in Hin as [->|Hin]; [|by apply Hin'].
      rewrite Hout by done. rewrite Hh, lookup_insert_eq. by eexists.
Qed.

Lemma processShutdownItems_tick (w : World) :
  keyed (hash w) -> redisUp w ->
  let w' := snd (processShutdownItems w) in
  fst (processShutdownItems w) = None /\
  (forall k item, hash w !! k = Some item ->
     if decide (Status item = StatusShutdown)
     then exists t, hash w' !! k
                    = Some (set_StatusUpdatedAt t (set_Status StatusTerminated item))
     else hash w' !! k = Some item) /\
  (forall k, hash w !! k = None -> hash w' !! k = None).
Proof.
  intros Hk Hup w'. subst w'.
  unfold processShutdownItems, GetItemsByStatus.
  rewrite !bind_unfold, GetAllItems_ok by (by apply redisUp_next).
  cbv beta iota delta [ret]. rewrite bind_unfold.
  set (w0 := set_redis_faults _ w).
  set (items := filter _ _).
  assert (Hnd : NoDup (ID <$> items)).
  { subst items. apply NoDup_fmap_filter. rewrite keyed_ids by done.
    apply NoDup_fst_map_to_list. }
  assert (Hmem : forall it, it ∈ items <->
                   Status it = StatusShutdown /\ exists k, hash w !! k = Some it).
  { intros it. subst items. by rewrite list_elem_of_filter, elem_of_values. }
  destruct (forEach_shutdown items w0 Hnd (redisUp_tail w Hup)) as (_ & Hout & Hin).
  destruct (forEach shutdownOne items w0) as [[] w1]. cbn [fst snd] in *.
  assert (Hrec : forall k item, hash w !! k = Some item ->
            if decide (Status item = StatusShutdown)
            then exists t, hash w1 !! k
                   = Some (set_StatusUpdatedAt t (set_Status StatusTerminated item))
            else hash w1 !! k = Some item).
  { intros k item Hit. pose proof (Hk _ _ Hit) as Hid. cbn in Hid.
    case_decide as Hs.
    - rewrite <- Hid. apply Hin, Hmem. split; [done|]. by exists k.
    - rewrite Hout; [done|]. intros Hx.
      apply list_elem_of_fmap in Hx as (it & -> & Hit').
      apply Hmem in Hit' as (Hs' & k' & Hk').
      pose proof (Hk _ _ Hk') as Hid'. cbn in Hid'. subst k'.
      rewrite Hit in Hk'. by injection Hk' as ->. }
  assert (Hnone : forall k, hash w !! k = None -> hash w1 !! k = None).
  { intros k Hn. rewrite Hout; [done|]. intros Hx.
    apply list_elem_of_fmap in Hx as (it & -> & Hit').
    apply Hmem in Hit' as (_ & k' & Hk').
    pose proof (Hk _ _ Hk') as Hid'. cbn in Hid'. subst k'. congruence. }
  split; [done|]. split; [exact Hrec|exact Hnone].
Qed.

(** X4.  One tick of the killer, with a store that takes the writes and
    whatever the cluster answers: [processShutdownItems] returns no error;
    every record that was stored as [shutdown] is stored as [terminated]
    afterwards, unchanged but for the status and the stamp; every other
    record is as it was; no key is added; and no record is left in
    [shutdown]. *)
Theorem killer_tick (w : World) :
  keyed (hash w) -> redisUp w ->
  let w' := snd (processShutdownItems w) in
  fst (processShutdownItems w) = None /\
  (forall k item, hash w !! k = Some item ->
     if decide (Status item = StatusShutdown)
     then exists t, hash w' !! k
                    = Some (set_StatusUpdatedAt t (set_Status StatusTerminated item))
     else hash w' !! k = Some item) /\
  (forall k, hash w !! k = None -> hash w' !! k = None) /\
  (forall k item', hash w' !! k = Some item' -> Status item' <> StatusShutdown).
Proof.
  intros Hk Hup w'.
  destruct (processShutdownItems_tick w Hk Hup) as (Hret & Hrec & Hnone).
  fold w' in Hrec, Hnone.
  split; [exact Hret|]. split; [exact Hrec|]. split; [exact Hnone|].
  intros k item' Hit'.
  destruct (hash w !! k) as [item|] eqn:Hit.
  - specialize (Hrec k item Hit). case_decide as Hs.
    + destruct Hrec as (t & Ht). rewrite Ht in Hit'. by injection Hit' as <-.
    + rewrite Hrec in Hit'. by injection Hit' as <-.
  - rewrite (Hnone k Hit) in Hit'. done.
Qed.


Lemma killer_tick_witness :
  keyed (hash busyWorld) /\ redisUp busyWorld /\
  fst (processShutdownItems busyWorld) = None /\
  forall k item', hash (snd (processShutdownItems busyWorld)) !! k = Some item' ->
                  Status item' <> StatusShutdown.
Proof.
  assert (Hk : keyed (hash busyWorld)).
  { apply map_Forall_singleton. reflexivity. }
  assert (Hr : redisUp busyWorld) by constructor.
  split; [exact Hk|]. split; [exact Hr|].
  pose proof (killer_tick busyWorld Hk Hr) as H. cbv zeta in H.
  destruct H as (H1 & _ & _ & H4). split; [exact H1|exact H4].
Defined.

(** ** What the killer sends to the cluster *)

Lemma grows_refl P w : grows P w w.
Proof. exists []. by rewrite app_nil_r. Qed.

Lemma grows_trans P w1 w2 w3 : grows P w1 w2 -> grows P w2 w3 -> grows P w1 w3.
Proof.
  intros (e1 & J1 & Q1) (e2 & J2 & Q2).
  exists (e1 ++ e2). rewrite J2, J1, <- app_assoc. split; [done|].
  by rewrite forallb_app, Q1, Q2.
Qed.

Lemma grows_bind {A B} P (m : M A) (k : A -> M B) w :
  grows P w (snd (m w)) -> (forall a w1, grows P w1 (snd (k a w1))) ->
  grows P w (snd (bind m k w)).
Proof.
  intros Hm Hk. unfold bind. destruct (m w) as [a w1]. cbn in Hm.
  eapply grows_trans; [exact Hm|apply Hk].
Qed.

Lemma grows_emit (P : Event -> bool) e w : P e = true -> grows P w (emit e w).
Proof. intros H. exists [e]. cbn. by rewrite H. Qed.


Lemma kubeDelete_grows (P : Event -> bool) k n w :
  P (EvDelete k n) = true -> grows P w (snd (kubeDelete k n w)).
Proof.
  intros HP. unfold kubeDelete, kubeFault. rewrite !bind_unfold.
  cbn [emit kube].
  assert (G : grows P w (emit (EvDelete k n) w)) by (by apply grows_emit).
  destruct (mjoin _); cbn [snd ret]; [exact G|].
  case_decide; cbn [snd]; exact G.
Qed.

Lemma UpdateItem_grows (P : Event -> bool) item w :
  (forall it, P (EvHSet it) = true) -> (forall id, P (EvHSetFailed id) = true) ->
  grows P w (snd (UpdateItem item w)).
Proof.
  intros H1 H2. destruct (nextFault w) as [m|] eqn:Hf.
  - rewrite (UpdateItem_refused _ _ m) by done. exists [EvHSetFailed (ID item)].
    cbn. by rewrite H2.
  - rewrite UpdateItem_ok by done. eexists [_]. cbn. split; [done|]. by rewrite H1.
Qed.

Lemma deleteWorkload_grows item w :
  PodID item <> EmptyString ->
  grows (killerMayCall item) w (snd (deleteWorkload item w)).
Proof.
  intros Hp. unfold deleteWorkload.
  destruct (String.eqb (WorkloadType item) "deployment") eqn:Ht.
  - unfold DeleteDinDDeployment.
    apply grows_bind.
    { apply kubeDelete_grows. cbn. rewrite Ht. apply bool_decide_eq_true.
      split; [set_solver|done]. }
    intros e1 w1. destruct (realFailure e1); [apply grows_refl|].
    apply grows_bind.
    { apply kubeDelete_grows. cbn. rewrite Ht. apply bool_decide_eq_true.
      split; [set_solver|done]. }
    intros e2 w2. destruct (realFailure e2); apply grows_refl.
  - unfold DeleteDinDStatefulSet.
    apply grows_bind.
    { apply kubeDelete_grows. cbn. rewrite Ht. apply bool_decide_eq_true.
      left. split; [set_solver|done]. }
    intros e1 w1. destruct (realFailure e1); [apply grows_refl|].
    apply grows_bind.
    { apply kubeDelete_grows. cbn. rewrite Ht. apply bool_decide_eq_true.
      left. split; [set_solver|done]. }
    intros e2 w2. destruct (realFailure e2); [apply grows_refl|].
    apply grows_bind.
    { apply kubeDelete_grows. cbn. rewrite Ht. apply bool_decide_eq_true.
      by right. }
    intros e3 w3. destruct (realFailure e3); apply grows_refl.
Qed.

Lemma grows_weaken (P Q : Event -> bool) w w' :
  (forall e, P e = true -> Q e = true) -> grows P w w' -> grows Q w w'.
Proof.
  intros HPQ (evs & J & H). exists evs. split; [done|].
  apply forallb_forall. intros e He. apply HPQ.
  rewrite forallb_forall in H. by apply H.
Qed.

Lemma processShutdownItem_grows item w :
  grows (fun e => killerMayCall item e
                  && (negb (String.eqb (PodID item) EmptyString) || negb (isDelete e)))
        w (snd (processShutdownItem item w)).
Proof.
  unfold processShutdownItem. rewrite bind_unfold.
  destruct (nextFault w) as [m|] eqn:Hf.
  - rewrite (UpdateItem_refused _ _ m) by done. cbn [ret snd].
    eexists [_]. split; [reflexivity|]. cbn. by rewrite orb_true_r.
  - rewrite UpdateItem_ok by done.
    set (it' := stamped _ w). set (w1 := afterWrite _ w).
    change (PodID it') with (PodID item). change (WorkloadType it') with (WorkloadType item).
    eapply grows_trans with (w2 := w1).
    { eexists [_]. split; [reflexivity|]. cbn. by rewrite orb_true_r. }
    destruct (String.eqb (PodID item) EmptyString) eqn:Hp; cbn [negb].
    { cbn. apply grows_refl. }
    apply String.eqb_neq in Hp.
    rewrite !bind_unfold.
    pose proof (deleteWorkload_grows item w1 Hp) as G. unfold deleteWorkload in G.
    destruct ((if String.eqb (WorkloadType item) "deployment"
               then DeleteDinDDeployment (PodID item)
               else DeleteDinDStatefulSet (PodID item)) w1) as [[m|] w2];
      cbn [fst snd] in *; cbv beta iota delta [ret logLine]; cbn [snd].
    + eapply grows_trans with (w2 := w2).
      * eapply grows_weaken; [|exact G]. intros e ->. done.
      * by apply grows_emit.
    + eapply grows_weaken; [|exact G]. intros e ->. done.
Qed.

(** X5.  The killer touches nothing but the workload of the record it
    processes.  Whatever the store and the cluster answer, the calls that
    one pass over a record sends to the cluster are deletions only, of
    objects named after the [PodID] of the record: for a deployment the
    deployment and the service, otherwise the stateful set, the service and
    the claim [docker-graph-storage-{PodID}-0]; no object is created, and
    for a record without a [PodID] no call is sent at all. *)
Theorem killer_deletes_only_its_workload (item : QueueItem) (w : World) :
  let evs := newEvents w (snd (processShutdownItem item w)) in
  journal (snd (processShutdownItem item w)) = journal w ++ evs /\
  forallb (killerMayCall item) evs = true /\
  (PodID item = EmptyString -> existsb isDelete evs = false).
Proof.
  intros evs. subst evs.
  pose proof (processShutdownItem_grows item w) as G.
  pose proof G as (evs & J & H). unfold newEvents. rewrite J, drop_app_length.
  split; [done|].
  rewrite forallb_forall in H.
  split.
  - apply forallb_forall. intros e He. specialize (H e He).
    by apply andb_true_iff in H as [H _].
  - intros Hp. rewrite Hp in H.
    apply not_true_is_false. intros Hex%existsb_exists. destruct Hex as (e & He & Hd).
    specialize (H e He).
    apply andb_true_iff in H as [_ H]. cbn in H. by rewrite Hd in H.
Qed.

(** ** A delete that the cluster refuses is not tried again *)

Lemma kubeDelete_refused k n w m :
  nextKubeFault w = Some m ->
  kubeDelete k n w
  = (Some (ErrOther m),
     set_kube (set_kube_faults (tl (kube_faults (kube w))) (kube w))
       (emit (EvDelete k n) w)).
Proof.
  intros Hf. unfold kubeDelete, kubeFault. rewrite !bind_unfold. cbn [emit kube].
  unfold nextKubeFault in Hf. by rewrite Hf.
Qed.

Lemma deleteWorkload_refused item w m :
  nextKubeFault w = Some m ->
  let kind := if String.eqb (WorkloadType item) "deployment"
              then KDeployment else KStatefulSet in
  exists e, deleteWorkload item w
  = (Some e,
     set_kube (set_kube_faults (tl (kube_faults (kube w))) (kube w))
       (emit (EvDelete kind (PodID item)) w)).
Proof.
  intros Hf kind. subst kind. unfold deleteWorkload.
  destruct (String.eqb (WorkloadType item) "deployment").
  - unfold DeleteDinDDeployment. rewrite bind_unfold, (kubeDelete_refused _ _ _ m) by done.
    cbn. by eexists.
  - unfold DeleteDinDStatefulSet. rewrite bind_unfold, (kubeDelete_refused _ _ _ m) by done.
    cbn. by eexists.
Qed.

Lemma singleton_list {A B} (f : A -> B) (a : A) (l : list A) :
  NoDup (f <$> l) -> (forall x, x ∈ l -> x = a) -> a ∈ l -> l = [a].
Proof.
  intros Hnd Hall Hin. destruct l as [|x [|y l]].
  - by apply elem_of_nil in Hin.
  - f_equal. apply Hall. by left.
  - exfalso. rewrite !fmap_cons in Hnd. apply NoDup_cons in Hnd as [Hx _].
    apply Hx. rewrite (Hall x), (Hall y); [by left| |by left]. right. by left.
Qed.

Lemma filter_nil_forall {A} (P : A -> Prop) `{!forall x, Decision (P x)} (l : list A) :
  (forall x, x ∈ l -> ~ P x) -> filter P l = [].
Proof.
  intros Hno. induction l as [|x l IH]; [done|].
  rewrite filter_cons, decide_False by (apply Hno; by left).
  apply IH. intros y Hy. apply Hno. by right.
Qed.

Lemma processShutdownItems_idle w :
  nextFault w = None ->
  (forall k it, hash w !! k = Some it -> Status it <> StatusShutdown) ->
  processShutdownItems w = (None, set_redis_faults (tl (redis_faults w)) w).
Proof.
  intros Hf Hno. unfold processShutdownItems, GetItemsByStatus.
  rewrite !bind_unfold, GetAllItems_ok by done. cbv beta iota delta [ret].
  rewrite filter_nil_forall; [done|].
  intros it Hin. apply elem_of_values in Hin as (k & Hk). by eapply Hno.
Qed.

Lemma killerTicks_idle n w :
  redisUp w ->
  (forall k it, hash w !! k = Some it -> Status it <> StatusShutdown) ->
  let w' := snd (killerTicks n w) in
  hash w' = hash w /\ kube w' = kube w /\ journal w' = journal w.
Proof.
  revert w. induction n as [|n IH]; intros w Hup Hno w'; subst w'; [done|].
  cbn [killerTicks]. rewrite bind_unfold, processShutdownItems_idle
    by (done || by apply redisUp_next).
  destruct (IH (set_redis_faults (tl (redis_faults w)) w)) as (H1 & H2 & H3);
    [by apply redisUp_tail|done|].
  by rewrite H1, H2, H3.
Qed.

Lemma tick_with_refused_delete (item : QueueItem) (w : World) (m : string) :
  keyed (hash w) -> redisUp w ->
  hash w !! ID item = Some item -> Status item = StatusShutdown ->
  (forall k it, hash w !! k = Some it -> Status it = StatusShutdown -> k = ID item) ->
  PodID item <> EmptyString ->
  nextKubeFault w = Some m ->
  let w0 := set_redis_faults (tl (redis_faults w)) w in
  let w1 := afterWrite (set_Status StatusTerminated item) w0 in
  exists e,
    processShutdownItems w
    = (None,
       emit (EvLog ("Warning: Failed to delete workload " +:+ PodID item +:+ ": " +:+ e))
         (set_kube (set_kube_faults (tl (kube_faults (kube w1))) (kube w1))
            (emit (EvDelete (if String.eqb (WorkloadType item) "deployment"
                             then KDeployment else KStatefulSet) (PodID item)) w1))).
Proof.
  intros Hk Hup Hit Hs Huniq Hp Hkf w0 w1.
  unfold processShutdownItems, GetItemsByStatus.
  rewrite !bind_unfold, GetAllItems_ok by (by apply redisUp_next).
  cbv beta iota delta [ret]. rewrite bind_unfold. fold w0.
  assert (Hl : filter (fun it => Status it = StatusShutdown) (map_to_list (hash w)).*2
               = [item]).
  { apply (singleton_list ID).
    - apply NoDup_fmap_filter. rewrite keyed_ids by done. apply NoDup_fst_map_to_list.
    - intros x Hx. apply list_elem_of_filter in Hx as [Hxs Hx].
      apply elem_of_values in Hx as (k & Hx).
      pose proof (Huniq _ _ Hx Hxs) as ->. congruence.
    - apply list_elem_of_filter. split; [done|]. apply elem_of_values. by eexists. }
  change (hash w0) with (hash w). rewrite Hl. cbn [forEach]. rewrite !bind_unfold.
  assert (Hup0 : redisUp w0) by (by apply redisUp_tail).
  unfold shutdownOne, processShutdownItem. rewrite !bind_unfold.
  rewrite UpdateItem_ok by (by apply redisUp_next). fold w1.
  set (it' := stamped _ w0).
  change (PodID it') with (PodID item). change (WorkloadType it') with (WorkloadType item).
  apply String.eqb_neq in Hp. rewrite Hp. cbn [negb]. rewrite !bind_unfold.
  destruct (deleteWorkload_refused it' w1 m Hkf) as (e & He).
  unfold deleteWorkload in He.
  change (PodID it') with (PodID item) in He.
  change (WorkloadType it') with (WorkloadType item) in He.
  rewrite He. cbv beta iota delta [ret logLine]. cbn [fst snd].
  by exists e.
Qed.

(** X6.  A delete that the cluster refuses is not tried again.  A record
    in [shutdown] with a [PodID], the only one in that status, and a cluster
    that refuses the first delete call: the tick stores the record as
    [terminated] all the same, and since the killer only lists the records
    in [shutdown], neither this tick nor any number of further ticks sends
    another call: the objects of the cluster are all still there, and the
    one refused delete is the only call in the journal. *)
Theorem killer_gives_up_after_refused_delete (item : QueueItem) (w : World)
    (m : string) (n : nat) :
  keyed (hash w) -> redisUp w ->
  hash w !! ID item = Some item -> Status item = StatusShutdown ->
  (forall k it, hash w !! k = Some it -> Status it = StatusShutdown -> k = ID item) ->
  PodID item <> EmptyString ->
  nextKubeFault w = Some m ->
  let w' := snd (killerTicks (S n) w) in
  (forall k, objects k (kube w') = objects k (kube w)) /\
  (exists t, hash w' !! ID item
             = Some (set_StatusUpdatedAt t (set_Status StatusTerminated item))) /\
  List.filter (fun e => negb (quiet e) || isDelete e) (newEvents w w')
  = [EvHSet (stamped (set_Status StatusTerminated item) w);
     EvDelete (if String.eqb (WorkloadType item) "deployment"
               then KDeployment else KStatefulSet) (PodID item)].
Proof.
  intros Hk Hup Hit Hs Huniq Hp Hkf w'.
  destruct (tick_with_refused_delete item w m Hk Hup Hit Hs Huniq Hp Hkf) as (e & E).
  cbv zeta in E. subst w'. cbn [killerTicks]. rewrite bind_unfold, E.
  set (w0 := set_redis_faults _ w). set (w1 := afterWrite _ w0).
  set (w2 := emit (EvLog _) _).
  destruct (killerTicks_idle n w2) as (H1 & H2 & H3).
  { subst w2 w1. unfold redisUp. cbn. by do 2 apply Forall_tail. }
  { intros k it. subst w2 w1. cbn [hash emit set_kube afterWrite].
    change (ID (set_Status StatusTerminated item)) with (ID item).
    destruct (decide (k = ID item)) as [->|Hne].
    - rewrite lookup_insert_eq. intros [= <-]. discriminate.
    - rewrite lookup_insert_ne by done. intros Hx Hxs. by apply Hne, (Huniq _ it). }
  destruct (killerTicks n w2) as [[] w3]. cbn [fst snd] in *.
  unfold newEvents. rewrite H1, H2, H3.
  split; [|split].
  - intros k. subst w2 w1. cbn. by destruct k.
  - subst w2 w1. cbn [hash emit set_kube afterWrite].
    change (ID (set_Status StatusTerminated item)) with (ID item).
    rewrite lookup_insert_eq. by eexists.
  - subst w2 w1. cbn [journal emit set_kube afterWrite].
    rewrite <- !app_assoc, drop_app_length. cbn. done.
Qed.

Lemma killer_gives_up_after_refused_delete_witness :
  keyed (hash refusingWorld) /\ redisUp refusingWorld /\
  nextKubeFault refusingWorld = Some "etcdserver: request timed out" /\
  forall k, objects k (kube (snd (killerTicks 3 refusingWorld)))
            = objects k (kube refusingWorld).
Proof.
  assert (Hk : keyed (hash refusingWorld)).
  { apply map_Forall_singleton. reflexivity. }
  assert (Hr : redisUp refusingWorld) by constructor.
  assert (Hf : nextKubeFault refusingWorld = Some "etcdserver: request timed out")
    by reflexivity.
  split; [exact Hk|]. split; [exact Hr|]. split; [exact Hf|].
  refine (proj1 (killer_gives_up_after_refused_delete (sampleItem StatusShutdown)
                   refusingWorld _ 2 Hk Hr _ _ _ _ Hf)).
  - reflexivity.
  - reflexivity.
  - intros k it H _. change (hash refusingWorld) with
      ({[ sampleID := sampleItem StatusShutdown ]} : gmap string QueueItem) in H.
    apply lookup_singleton_Some in H as [<- _]. reflexivity.
  - discriminate.
Defined.

(** ** The loops on a refused write *)



Lemma kubeStep_nextFault w w' : kubeStep w w' -> nextFault w' = nextFault w.
Proof. intros (_ & H & _). unfold nextFault. by rewrite H. Qed.


Section RefusedWrites.

Variable namespace : string.
Variable caseTable : utf8.rune -> utf8.rune.
Variable quantityParses : string -> bool.
Variable dindImageBaseRepository : string.
Variable dindImageVersions : gmap string string.
Variable DIND_PVC_SIZE : string.

Abbreviation oneItem := (processItem namespace caseTable quantityParses
  dindImageBaseRepository dindImageVersions DIND_PVC_SIZE).
Abbreviation theLoop := (pendingLoop namespace caseTable quantityParses
  dindImageBaseRepository dindImageVersions DIND_PVC_SIZE).













End RefusedWrites.


(** The generator meets a Redis that takes the write of [generating] and
    refuses the two writes after it, of [available] and of [error]: the
    workload exists and the record is left as [generating], which the next
    tick, listing the [pending] records only, does not touch. *)
Example generator_leaves_record_generating :
  let tick := processPendingItems "default" noCase (fun _ => true)
                "tyottodekiru/dind" sampleVersions EmptyString in
  let w' := snd (tick falteringWorld) in
  Status <$> hash w' !! sampleID = Some StatusGenerating /\
  workloadNameOf pendingItem ∈ statefulsets (kube w') /\
  redisUp w' /\
  hash (snd (tick w')) = hash w'.
Proof.
  cbv zeta. split; [vm_compute; reflexivity|]. split; [vm_compute; done|].
  split; [vm_compute; constructor|]. vm_compute. reflexivity.
Qed.

(** ** The pods of a workload *)

Lemma containersReady_true l :
  containersReady l = inl true <-> forallb csReady l = true.
Proof.
  induction l as [|cs l IH]; [done|]. cbn.
  destruct (csReady cs); [exact IH|]. cbn.
  split; [|done].
  destruct (csWaiting cs) as [r|]; [destruct (_ || _)|]; try done;
    by destruct (csTerminated cs).
Qed.

(** X7.  [IsPodRunning] answers [true] exactly for a pod that the API
    server returns in phase [Running], with at least one container status
    and every container ready; a failed read, any other phase, a pod
    without container statuses or with a container that is not ready never
    counts as running. *)
Theorem IsPodRunning_true_iff (namespace name : string) (w : World) :
  fst (IsPodRunning namespace name w) = inl true <->
  exists pod, head (podGets (kube w)) = Some (inl pod) /\ readyPod pod = true.
Proof.
  unfold IsPodRunning, GetPod. rewrite bind_unfold.
  destruct (podGets (kube w)) as [|[pod|e] rest]; cbn [hd head].
  - cbn. split; [done|]. by intros (pod & [=] & _).
  - unfold readyPod, PodFailed, PodSucceeded, PodRunning.
    destruct (String.eqb (podPhase pod) "Failed") eqn:E1.
    { apply String.eqb_eq in E1. rewrite E1. cbn. split; [done|].
      intros (p & [= <-] & H). by rewrite E1 in H. }
    destruct (String.eqb (podPhase pod) "Succeeded") eqn:E2.
    { apply String.eqb_eq in E2. rewrite E2. cbn. split; [done|].
      intros (p & [= <-] & H). by rewrite E2 in H. }
    cbn [orb].
    destruct (String.eqb (podPhase pod) "Running") eqn:E3; cbn [negb andb].
    2:{ cbn. split; [done|]. intros (p & [= <-] & H). by rewrite E3 in H. }
    destruct (podContainers pod) as [|c l] eqn:E4.
    { cbn. split; [done|]. intros (p & [= <-] & H). by rewrite E3, E4 in H. }
    cbn [ret fst]. rewrite containersReady_true. split.
    + intros H. exists pod. split; [done|]. by rewrite E3, E4.
    + intros (p & [= <-] & H). by rewrite E3, E4 in H.
  - cbn. split; [done|]. by intros (pod & [=] & _).
Qed.

(** X8.  The pod that [GetPodNameForWorkload] names is one of the pods
    that the API server listed: the first one that is [Running] or
    [Pending] when there is one, and otherwise the first pod of the list,
    whatever its phase; an empty list and a failed listing are errors. *)
Theorem GetPodNameForWorkload_spec (workloadName : string) (w : World) :
  match fst (GetPodNameForWorkload workloadName w) with
  | inl name =>
    exists pods p, head (podLists (kube w)) = Some (inl pods) /\
      p ∈ pods /\ podName p = name /\
      match List.find alivePod pods with
      | Some q => p = q
      | None => head pods = Some p /\ forallb (fun q => negb (alivePod q)) pods = true
      end
  | inr e =>
    match head (podLists (kube w)) with
    | Some (inl pods) =>
      pods = [] /\ e = "no pods found for workload " +:+ workloadName
    | Some (inr e') => e = wrap ("failed to list pods for workload " +:+ workloadName) e'
    | None => e = wrap ("failed to list pods for workload " +:+ workloadName) unreachable
    end
  end.
Proof.
  unfold GetPodNameForWorkload.
  destruct (podLists (kube w)) as [|[[|p0 rest]|e] more]; cbn [hd head fst]; try done.
  fold (alivePod).
  change (fun p => String.eqb (podPhase p) PodRunning || String.eqb (podPhase p) PodPending)
    with alivePod.
  destruct (List.find alivePod (p0 :: rest)) as [q|] eqn:F; cbn [fst].
  - exists (p0 :: rest), q. split; [done|].
    pose proof (find_some _ _ F) as [Hin _].
    split; [by apply list_elem_of_In|]. by rewrite F.
  - exists (p0 :: rest), p0. split; [done|]. split; [by left|]. split; [done|].
    rewrite F. split; [done|]. apply forallb_forall. intros x Hx.
    by rewrite (find_none _ _ F x Hx).
Qed.

(** ** Creating a workload *)

Lemma kubeUp_next w : kubeUp w -> nextKubeFault w = None.
Proof. apply Forall_None_head. Qed.

Lemma kubeCreate_ok k n w :
  nextKubeFault w = None ->
  kubeCreate k n w
  = let w1 := set_kube (set_kube_faults (tl (kube_faults (kube w))) (kube w))
                (emit (EvCreate k n) w) in
    if decide (n ∈ objects k (kube w))
    then (Some (ErrAlreadyExists k n), w1)
    else (None, set_kube (set_objects k ({[n]} ∪ objects k (kube w)) (kube w1)) w1).
Proof.
  intros Hf. unfold kubeCreate, kubeFault. rewrite !bind_unfold. cbn [emit kube].
  unfold nextKubeFault in Hf. rewrite Hf. cbn.
  assert (E : objects k (set_kube_faults (tl (kube_faults (kube w))) (kube w))
              = objects k (kube w)) by (by destruct k).
  rewrite E. by case_decide.
Qed.

Lemma kubeDelete_ok k n w :
  nextKubeFault w = None ->
  kubeDelete k n w
  = let w1 := set_kube (set_kube_faults (tl (kube_faults (kube w))) (kube w))
                (emit (EvDelete k n) w) in
    if decide (n ∈ objects k (kube w))
    then (None, set_kube (set_objects k (objects k (kube w) ∖ {[n]}) (kube w1)) w1)
    else (Some (ErrNotFound k n), w1).
Proof.
  intros Hf. unfold kubeDelete, kubeFault. rewrite !bind_unfold. cbn [emit kube].
  unfold nextKubeFault in Hf. rewrite Hf. cbn.
  assert (E : objects k (set_kube_faults (tl (kube_faults (kube w))) (kube w))
              = objects k (kube w)) by (by destruct k).
  rewrite E. by case_decide.
Qed.

Lemma gset_remove_absent (X : gset string) n : n ∉ X -> X = X ∖ {[n]}.
Proof.
  intros H. symmetry. apply difference_disjoint_L. by apply disjoint_singleton_r.
Qed.

Lemma gset_add_present (X : gset string) n : n ∈ X -> X = {[n]} ∪ X.
Proof.
  intros H. symmetry. apply subseteq_union_1_L. by apply singleton_subseteq_l.
Qed.

(** The objects of one kind after a delete call that the API server does
    not refuse. *)
Lemma kubeDelete_objects k n w :
  kubeUp w ->
  let w' := snd (kubeDelete k n w) in
  kubeUp w' /\ realFailure (fst (kubeDelete k n w)) = None /\
  forall k', objects k' (kube w')
             = if decide (k = k') then objects k (kube w) ∖ {[n]}
               else objects k' (kube w).
Proof.
  intros Hup w'. subst w'. rewrite kubeDelete_ok by (by apply kubeUp_next).
  cbv zeta. unfold kubeUp in *.
  case_decide as Hin; cbn [fst snd realFailure IsNotFound].
  - split; [|split; [done|]].
    + cbn. rewrite kube_faults_set_objects. cbn. by apply Forall_tail.
    + intros k'. cbn [kube set_kube emit]. rewrite objects_set_objects.
      case_decide; [done|]. by destruct k'.
  - split; [|split; [done|]].
    + cbn. by apply Forall_tail.
    + intros k'. cbn [kube set_kube emit]. case_decide as E.
      * subst k'. by apply gset_remove_absent.
      * by destruct k'.
Qed.

Lemma kubeCreate_objects k n w :
  kubeUp w ->
  let w' := snd (kubeCreate k n w) in
  kubeUp w' /\
  fst (kubeCreate k n w)
  = (if decide (n ∈ objects k (kube w)) then Some (ErrAlreadyExists k n) else None) /\
  forall k', objects k' (kube w')
             = if decide (k = k') then {[n]} ∪ objects k (kube w)
               else objects k' (kube w).
Proof.
  intros Hup w'. subst w'. rewrite kubeCreate_ok by (by apply kubeUp_next).
  cbv zeta. unfold kubeUp in *.
  case_decide as Hin; cbn [fst snd].
  - split; [|split; [done|]].
    + cbn. by apply Forall_tail.
    + intros k'. cbn [kube set_kube emit]. case_decide as E.
      * subst k'. by apply gset_add_present.
      * by destruct k'.
  - split; [|split; [done|]].
    + cbn. rewrite kube_faults_set_objects. cbn. by apply Forall_tail.
    + intros k'. cbn [kube set_kube emit]. rewrite objects_set_objects.
      case_decide; [done|]. by destruct k'.
Qed.

(** X9.  A workload that cannot be created takes the service of its name
    with it.  On a cluster that refuses no call, [CreateDinDStatefulSet]
    for a name that already has a stateful set fails with AlreadyExists,
    and, the service being deleted on that path whether this call created
    it or not, no service of that name is left; the stateful set that was
    there stays.  [CreateDinDDeployment] does the same for a name that
    already has a deployment. *)
Theorem failed_create_removes_service (quantityParses : string -> bool)
    (name pvcSize : string) (w : World) :
  kubeUp w -> quantityParses pvcSize = true ->
  let sts := CreateDinDStatefulSet quantityParses name pvcSize w in
  let dep := CreateDinDDeployment name w in
  (name ∈ statefulsets (kube w) ->
   fst sts = Fail (wrap "failed to create statefulset"
                     (apiErrorText (ErrAlreadyExists KStatefulSet name))) /\
   (name ∉ services (kube (snd sts))) /\
   statefulsets (kube (snd sts)) = statefulsets (kube w)) /\
  (name ∈ deployments (kube w) ->
   fst dep = Fail (wrap "failed to create deployment"
                     (apiErrorText (ErrAlreadyExists KDeployment name))) /\
   (name ∉ services (kube (snd dep))) /\
   deployments (kube (snd dep)) = deployments (kube w)).
Proof.
  intros Hup Hq sts dep. subst sts dep. split; intros Hin.
  - unfold CreateDinDStatefulSet. rewrite bind_unfold.
    destruct (kubeCreate_objects KService name w Hup) as (U1 & F1 & O1).
    destruct (kubeCreate KService name w) as [e1 w1]. cbn [fst snd] in *. subst e1.
    assert (C1 : createFailure (if decide (name ∈ objects KService (kube w))
                                then Some (ErrAlreadyExists KService name) else None)
                 = None) by (by case_decide).
    rewrite C1, Hq. cbn [negb]. rewrite bind_unfold.
    destruct (kubeCreate_objects KStatefulSet name w1 U1) as (U2 & F2 & O2).
    destruct (kubeCreate KStatefulSet name w1) as [e2 w2]. cbn [fst snd] in *. subst e2.
    rewrite decide_True by (rewrite (O1 KStatefulSet); by rewrite decide_False).
    rewrite bind_unfold.
    destruct (kubeDelete_objects KService name w2 U2) as (U3 & _ & O3).
    destruct (kubeDelete KService name w2) as [e3 w3]. cbn [fst snd ret] in *.
    split; [done|]. split.
    + change (services (kube w3)) with (objects KService (kube w3)).
      rewrite O3, decide_True by done. intros Hx.
      apply elem_of_difference in Hx as [_ Hx]. apply Hx. by apply elem_of_singleton.
    + change (statefulsets (kube w3)) with (objects KStatefulSet (kube w3)).
      rewrite O3, decide_False by done. rewrite O2, decide_True by done.
      rewrite O1, decide_False by done. symmetry. by apply gset_add_present.
  - unfold CreateDinDDeployment. rewrite bind_unfold.
    destruct (kubeCreate_objects KService name w Hup) as (U1 & F1 & O1).
    destruct (kubeCreate KService name w) as [e1 w1]. cbn [fst snd] in *. subst e1.
    assert (C1 : createFailure (if decide (name ∈ objects KService (kube w))
                                then Some (ErrAlreadyExists KService name) else None)
                 = None) by (by case_decide).
    rewrite C1. rewrite bind_unfold.
    destruct (kubeCreate_objects KDeployment name w1 U1) as (U2 & F2 & O2).
    destruct (kubeCreate KDeployment name w1) as [e2 w2]. cbn [fst snd] in *. subst e2.
    rewrite decide_True by (rewrite (O1 KDeployment); by rewrite decide_False).
    rewrite bind_unfold.
    destruct (kubeDelete_objects KService name w2 U2) as (U3 & _ & O3).
    destruct (kubeDelete KService name w2) as [e3 w3]. cbn [fst snd ret] in *.
    split; [done|]. split.
    + change (services (kube w3)) with (objects KService (kube w3)).
      rewrite O3, decide_True by done. intros Hx.
      apply elem_of_difference in Hx as [_ Hx]. apply Hx. by apply elem_of_singleton.
    + change (deployments (kube w3)) with (objects KDeployment (kube w3)).
      rewrite O3, decide_False by done. rewrite O2, decide_True by done.
      rewrite O1, decide_False by done. symmetry. by apply gset_add_present.
Qed.

Lemma failed_create_removes_service_witness :
  kubeUp busyWorld /\
  "k8s-playground-0a1b2c3d" ∈ services (kube busyWorld) /\
  "k8s-playground-0a1b2c3d"
    ∉ services (kube (snd (CreateDinDStatefulSet (fun _ => true)
                             "k8s-playground-0a1b2c3d" "10Gi" busyWorld))).
Proof.
  assert (Hk : kubeUp busyWorld) by constructor.
  assert (Hin : "k8s-playground-0a1b2c3d" ∈ statefulsets (kube busyWorld))
    by (cbn; by apply elem_of_singleton).
  split; [exact Hk|]. split; [cbn; by apply elem_of_singleton|].
  exact (proj1 (proj2 (proj1 (failed_create_removes_service (fun _ => true)
           "k8s-playground-0a1b2c3d" "10Gi" busyWorld Hk eq_refl) Hin))).
Defined.

(** X10.  Creating a workload and deleting it again leaves the cluster as
    it was.  On a cluster that refuses no call and has neither a stateful
    set nor a service of that name, [CreateDinDStatefulSet] returns the pod
    name [{name}-0] and both objects exist; [DeleteDinDStatefulSet] then
    returns no error, and the stateful sets, services and deployments of
    the namespace are those from before the creation, and so are the
    claims, less the claim [docker-graph-storage-{name}-0] that the stateful
    set had made. *)
Theorem create_then_delete (quantityParses : string -> bool)
    (name pvcSize : string) (w : World) :
  kubeUp w -> quantityParses pvcSize = true ->
  name ∉ statefulsets (kube w) -> name ∉ services (kube w) ->
  let c := CreateDinDStatefulSet quantityParses name pvcSize w in
  let d := DeleteDinDStatefulSet name (snd c) in
  fst c = Ok (name +:+ "-0") /\
  name ∈ statefulsets (kube (snd c)) /\ name ∈ services (kube (snd c)) /\
  fst d = None /\
  statefulsets (kube (snd d)) = statefulsets (kube w) /\
  services (kube (snd d)) = services (kube w) /\
  deployments (kube (snd d)) = deployments (kube w) /\
  pvcs (kube (snd d)) = pvcs (kube w) ∖ {[pvcNameOf name]}.
Proof.
  intros Hup Hq Hs Hv c d. subst c d.
  unfold CreateDinDStatefulSet. rewrite bind_unfold.
  destruct (kubeCreate_objects KService name w Hup) as (U1 & F1 & O1).
  destruct (kubeCreate KService name w) as [e1 w1]. cbn [fst snd] in *. subst e1.
  rewrite decide_False by done. cbn [createFailure]. rewrite Hq. cbn [negb].
  rewrite bind_unfold.
  destruct (kubeCreate_objects KStatefulSet name w1 U1) as (U2 & F2 & O2).
  destruct (kubeCreate KStatefulSet name w1) as [e2 w2]. cbn [fst snd] in *. subst e2.
  rewrite decide_False by (rewrite (O1 KStatefulSet); by rewrite decide_False).
  cbn [ret fst snd].
  unfold DeleteDinDStatefulSet. rewrite bind_unfold.
  destruct (kubeDelete_objects KStatefulSet name w2 U2) as (U3 & F3 & O3).
  destruct (kubeDelete KStatefulSet name w2) as [e3 w3]. cbn [fst snd] in *.
  rewrite F3, bind_unfold.
  destruct (kubeDelete_objects KService name w3 U3) as (U4 & F4 & O4).
  destruct (kubeDelete KService name w3) as [e4 w4]. cbn [fst snd] in *.
  rewrite F4, bind_unfold.
  destruct (kubeDelete_objects KPVC (pvcNameOf name) w4 U4) as (U5 & F5 & O5).
  destruct (kubeDelete KPVC (pvcNameOf name) w4) as [e5 w5]. cbn [fst snd] in *.
  rewrite F5. cbn [ret fst snd].
  assert (R : forall (X : gset string), name ∉ X -> ({[name]} ∪ X) ∖ {[name]} = X).
  { intros X HX. rewrite difference_union_distr_l_L, difference_diag_L, union_empty_l_L.
    symmetry. by apply gset_remove_absent. }
  split; [done|]. split; [|split; [|split; [done|]]].
  - change (statefulsets (kube w2)) with (objects KStatefulSet (kube w2)).
    rewrite O2, decide_True by done. apply elem_of_union_l. by apply elem_of_singleton.
  - change (services (kube w2)) with (objects KService (kube w2)).
    rewrite O2, decide_False by done. rewrite O1, decide_True by done.
    apply elem_of_union_l. by apply elem_of_singleton.
  - change (statefulsets (kube w5)) with (objects KStatefulSet (kube w5)).
    change (services (kube w5)) with (objects KService (kube w5)).
    change (deployments (kube w5)) with (objects KDeployment (kube w5)).
    change (pvcs (kube w5)) with (objects KPVC (kube w5)).
    repeat first [ rewrite O5 | rewrite O4 | rewrite O3 | rewrite O2 | rewrite O1
                 | rewrite decide_True by done | rewrite decide_False by done ].
    rewrite !R by done. done.
Qed.

Lemma create_then_delete_witness :
  kubeUp (sampleWorld StatusPending [] 0) /\
  fst (CreateDinDStatefulSet (fun _ => true) "k8s-playground-0a1b2c3d" "10Gi"
         (sampleWorld StatusPending [] 0)) = Ok "k8s-playground-0a1b2c3d-0" /\
  statefulsets (kube (snd (DeleteDinDStatefulSet "k8s-playground-0a1b2c3d"
     (snd (CreateDinDStatefulSet (fun _ => true) "k8s-playground-0a1b2c3d" "10Gi"
             (sampleWorld StatusPending [] 0)))))) = ∅.
Proof.
  assert (Hk : kubeUp (sampleWorld StatusPending [] 0)) by constructor.
  split; [exact Hk|].
  pose proof (create_then_delete (fun _ => true) "k8s-playground-0a1b2c3d" "10Gi"
                (sampleWorld StatusPending [] 0) Hk eq_refl
                (not_elem_of_empty _) (not_elem_of_empty _)) as H.
  cbv zeta in H. destruct H as (H1 & _ & _ & _ & H5 & _). split; [exact H1|exact H5].
Defined.

(** ** The generator, when the store and the cluster answer *)

Lemma hd_head {A} (d x : A) l : head l = Some x -> hd d l = x.
Proof. by destruct l; intros [= ->]. Qed.

Lemma usableIP_spec ip :
  usableIP ip = true -> String.eqb ip EmptyString || String.eqb ip "None" = false.
Proof.
  unfold usableIP. destruct (String.eqb ip EmptyString), (String.eqb ip "None"); done.
Qed.

(** [IsPodRunning] reads the next answer to a pod read, and nothing else. *)
Lemma IsPodRunning_frame namespace name w w' :
  podGets (kube w') = podGets (kube w) ->
  IsPodRunning namespace name w'
  = (fst (IsPodRunning namespace name w),
     set_kube (set_podGets (tl (podGets (kube w'))) (kube w')) w').
Proof.
  intros E. unfold IsPodRunning, GetPod. rewrite !bind_unfold. rewrite E.
  destruct (hd _ _) as [pod|e]; [|done].
  destruct (_ || _); [done|]. destruct (negb _); [done|].
  by destruct (podContainers pod).
Qed.

Section GeneratorRuns.

Variable namespace : string.
Variable caseTable : utf8.rune -> utf8.rune.
Variable quantityParses : string -> bool.
Variable dindImageBaseRepository : string.
Variable dindImageVersions : gmap string string.
Variable DIND_PVC_SIZE : string.

Abbreviation runItem := (processItem namespace caseTable quantityParses
  dindImageBaseRepository dindImageVersions DIND_PVC_SIZE).
Abbreviation runLoop := (pendingLoop namespace caseTable quantityParses
  dindImageBaseRepository dindImageVersions DIND_PVC_SIZE).

(** Up to the wait for the pod: the record is written as [generating],
    the service and the stateful set are created, and the wait begins. *)
Lemma processItem_created (item : QueueItem) (w : World) (tag ip : string) :
  redisUp w -> kubeUp w ->
  (8 <= String.length (ID item))%nat ->
  dindImageVersions !! K8sVersion item = Some tag ->
  WorkloadType item <> "deployment" ->
  head (serviceGets (kube w)) = Some (inl ip) -> usableIP ip = true ->
  head (execs (kube w)) = Some ExecDone ->
  workloadNameOf item ∉ statefulsets (kube w) ->
  quantityParses (getEnv DIND_PVC_SIZE "10Gi") = true ->
  let it1 := stamped (set_Status StatusGenerating item) w in
  exists w6,
    runItem item w
    = awaitPod namespace (S (length (wakes w)))
        (set_PodID (workloadNameOf item) it1) (workloadNameOf item)
        (if String.eqb (WorkloadType item) EmptyString
         then "statefulset" else WorkloadType item)
        (workloadNameOf item +:+ "-0") w6 /\
    hash w6 = <[ID item := it1]> (hash w) /\
    redis_faults w6 = tl (redis_faults w) /\
    wakes w6 = wakes w /\ podGets (kube w6) = podGets (kube w) /\
    statefulsets (kube w6) = {[workloadNameOf item]} ∪ statefulsets (kube w) /\
    services (kube w6) = {[workloadNameOf item]} ∪ services (kube w) /\
    journal w6 = journal w ++ [EvHSet it1; EvCreate KService (workloadNameOf item);
                               EvCreate KStatefulSet (workloadNameOf item)].
Proof.
  intros Hr Hk Hid Hv Ht Hip Hu Hex Hfresh Hq it1.
  unfold processItem.
  mstep. rewrite UpdateItem_ok by (by apply redisUp_next). mstep.
  change (ID (stamped _ w)) with (ID item).
  rewrite slicePrefix_Some by done.
  change (K8sVersion (stamped _ w)) with (K8sVersion item). rewrite Hv.
  fold (workloadNameOf item). fold it1.
  set (w1 := afterWrite _ w).
  change (WorkloadType it1) with (WorkloadType item).
  change (Owner it1) with (Owner item).
  mstep.
  unfold GetServiceClusterIP.
  change (serviceGets (kube w1)) with (serviceGets (kube w)).
  rewrite (hd_head _ _ _ Hip), (usableIP_spec _ Hu).
  set (w2 := set_kube _ w1). mstep.
  unfold EnsureNFSDirectory.
  change (execs (kube w2)) with (execs (kube w)).
  rewrite (hd_head _ _ _ Hex).
  set (w3 := set_kube _ w2). mstep.
  assert (Hty : String.eqb (if String.eqb (WorkloadType item) EmptyString
                            then "statefulset" else WorkloadType item) "deployment"
                = false).
  { destruct (String.eqb (WorkloadType item) EmptyString); [done|].
    by apply String.eqb_neq. }
  rewrite Hty.
  assert (Hkf : nextKubeFault w3 = None) by (by apply kubeUp_next).
  unfold CreateDinDStatefulSet. rewrite bind_unfold.
  rewrite kubeCreate_ok by done. cbv zeta.
  set (w4 := set_kube _ (emit _ w3)).
  assert (Hkf4 : forall w5, kube_faults (kube w5) = tl (kube_faults (kube w)) ->
                            nextKubeFault w5 = None).
  { intros w5 E. unfold nextKubeFault. rewrite E.
    by apply Forall_None_head, Forall_tail. }
  case_decide as Hsvc.
  - cbn [createFailure IsAlreadyExists]. rewrite Hq. cbn [negb].
    rewrite bind_unfold, kubeCreate_ok by (by apply Hkf4). cbv zeta.
    rewrite decide_False by done.
    cbv beta iota delta [ret]. rewrite bind_unfold. cbv beta iota.
    eexists. split; [reflexivity|]. cbn. rewrite <- !app_assoc.
    repeat split; try done. by apply gset_add_present.
  - cbn [createFailure]. rewrite Hq. cbn [negb].
    rewrite bind_unfold, kubeCreate_ok by (by apply Hkf4). cbv zeta.
    rewrite decide_False by done.
    cbv beta iota delta [ret]. rewrite bind_unfold. cbv beta iota.
    eexists. split; [reflexivity|]. cbn. rewrite <- !app_assoc. done.
Qed.

(** The first turn of the wait, on a tick. *)
Lemma awaitPod_first_tick (item : QueueItem) (name wt : string) (w w6 : World) n :
  head (wakes w) = Some WakeTick -> wakes w6 = wakes w ->
  podGets (kube w6) = podGets (kube w) ->
  let w7 := set_wakes (tl (wakes w6)) w6 in
  let w8 := set_kube (set_podGets (tl (podGets (kube w7))) (kube w7)) w7 in
  let podName := name +:+ "-0" in
  String.eqb podName EmptyString = false ->
  awaitPod namespace (S n) item name wt podName w6
  = match fst (IsPodRunning namespace podName w) with
    | inr e =>
      ((item, Fail (wrap ("failed to check pod status for " +:+ podName) e)),
       emit (EvLog ("Failed to check pod status for " +:+ podName
                    +:+ ", assuming creation failed: " +:+ e)) w8)
    | inl true =>
      (let* (item, err) := UpdateItem (set_Status StatusAvailable item) in
       match err with
       | Some m => ret (item, Fail (wrap "failed to update item status to available" m))
       | None => ret (item, Ok tt)
       end) w8
    | inl false =>
      (let* _ := GetPod namespace podName in
       awaitPod namespace n item name wt podName) w8
    end.
Proof.
  intros Hwk E5 E6 w7 w8 podName Hne.
  cbn [awaitPod]. unfold nextWake. rewrite bind_unfold.
  rewrite E5, (hd_head _ _ _ Hwk). rewrite Hne. cbn [andb].
  cbv beta iota delta [ret]. rewrite bind_unfold. cbv beta iota. rewrite Hne.
  rewrite bind_unfold.
  rewrite (IsPodRunning_frame namespace podName w) by (by rewrite <- E6).
  rewrite <- E5. fold w7. fold w8.
  destruct (fst (IsPodRunning namespace podName w)) as [[|]|e]; try done.
Qed.

Lemma IsPodRunning_ready name w pod :
  head (podGets (kube w)) = Some (inl pod) -> readyPod pod = true ->
  fst (IsPodRunning namespace name w) = inl true.
Proof.
  intros Hpod Hrdy. unfold IsPodRunning, GetPod. rewrite bind_unfold.
  rewrite (hd_head _ _ _ Hpod).
  unfold readyPod in Hrdy. apply andb_true_iff in Hrdy as [Hrdy Hc].
  apply andb_true_iff in Hrdy as [Hph Hn].
  apply String.eqb_eq in Hph. rewrite Hph.
  change (String.eqb PodRunning PodFailed || String.eqb PodRunning PodSucceeded)
    with false.
  change (negb (String.eqb PodRunning PodRunning)) with false.
  cbv beta iota.
  destruct (podContainers pod) as [|c l] eqn:Ec; [done|].
  cbv beta iota delta [ret]. cbn [fst].
  by apply containersReady_true.
Qed.

(** X11.  The generator brings a pending record to [available].  With a
    store and a cluster that answer (a version that is configured, an id
    of at least 8 bytes, a workload type other than [deployment], a usable
    ClusterIP for the NFS service, a mkdir that runs, a PVC size that
    parses, no stateful set of that name yet, and the pod found ready at
    the first tick of the wait), one pass of [processPendingItems] over the
    record returns no error; the record is stored as [available] with
    [PodID] set to [k8s-playground-] followed by the first 8 bytes of its
    id, its other fields unchanged but for the stamp; and the stateful set
    and the service of that name exist. *)
Theorem generator_makes_available (item : QueueItem) (w : World)
    (tag ip : string) (pod : Pod) :
  redisUp w -> kubeUp w ->
  (8 <= String.length (ID item))%nat ->
  dindImageVersions !! K8sVersion item = Some tag ->
  WorkloadType item <> "deployment" ->
  head (serviceGets (kube w)) = Some (inl ip) -> usableIP ip = true ->
  head (execs (kube w)) = Some ExecDone ->
  workloadNameOf item ∉ statefulsets (kube w) ->
  quantityParses (getEnv DIND_PVC_SIZE "10Gi") = true ->
  head (wakes w) = Some WakeTick ->
  head (podGets (kube w)) = Some (inl pod) -> readyPod pod = true ->
  let r := runLoop [item] w in
  fst r = Ok tt /\
  (exists t, hash (snd r) !! ID item
             = Some (set_StatusUpdatedAt t
                       (set_PodID (workloadNameOf item)
                          (set_Status StatusAvailable item)))) /\
  workloadNameOf item ∈ statefulsets (kube (snd r)) /\
  workloadNameOf item ∈ services (kube (snd r)).
Proof.
  intros Hr Hk Hid Hv Ht Hip Hu Hex Hfresh Hq Hwk Hpod Hrdy r.
  destruct (processItem_created item w tag ip) as (w6 & E & H1 & H2 & H3 & H4 & H5 & H6 & H7);
    try done.
  assert (exists t wf, r = (Ok tt, wf) /\
            hash wf !! ID item
            = Some (set_StatusUpdatedAt t
                      (set_PodID (workloadNameOf item) (set_Status StatusAvailable item))) /\
            kube wf = set_podGets (tl (podGets (kube w6))) (kube w6))
    as (t & wf & Er & Hh & Hkb).
  { subst r. cbn [pendingLoop]. rewrite bind_unfold, E.
    rewrite (awaitPod_first_tick _ _ _ w) by done.
    rewrite (IsPodRunning_ready _ w pod) by done.
    rewrite bind_unfold, UpdateItem_ok.
    2:{ unfold nextFault. cbn. rewrite H2. by apply Forall_None_head, Forall_tail. }
    cbv beta iota delta [ret].
    eexists _, _. split; [reflexivity|]. split; [|reflexivity].
    cbn [afterWrite hash].
    match goal with |- <[?k := _]> _ !! _ = _ => change k with (ID item) end.
    by rewrite lookup_insert_eq. }
  rewrite Er. cbn [fst snd]. split; [done|]. split; [by exists t|].
  rewrite Hkb. cbn. rewrite H5, H6.
  split; apply elem_of_union_l; by apply elem_of_singleton.
Qed.

(** X12.  A pod that cannot come up leaves the record in [error], with its
    workload recorded and still in the cluster.  Same setting as above,
    but the check of the pod at the first tick fails with [e] (a container
    in CrashLoopBackOff, say): the record is stored with status [error],
    the message [failed to check pod status for {pod}: e], and [PodID] set
    to the name of the workload; the generator deletes nothing: the
    stateful set and the service it created are still there. *)
Theorem generator_records_failed_pod (item : QueueItem) (w : World)
    (tag ip e : string) :
  redisUp w -> kubeUp w ->
  (8 <= String.length (ID item))%nat ->
  dindImageVersions !! K8sVersion item = Some tag ->
  WorkloadType item <> "deployment" ->
  head (serviceGets (kube w)) = Some (inl ip) -> usableIP ip = true ->
  head (execs (kube w)) = Some ExecDone ->
  workloadNameOf item ∉ statefulsets (kube w) ->
  quantityParses (getEnv DIND_PVC_SIZE "10Gi") = true ->
  head (wakes w) = Some WakeTick ->
  fst (IsPodRunning namespace (workloadNameOf item +:+ "-0") w) = inr e ->
  let r := runLoop [item] w in
  let msg := wrap ("failed to check pod status for " +:+ workloadNameOf item +:+ "-0") e in
  fst r = Ok tt /\
  (exists t, hash (snd r) !! ID item
             = Some (set_StatusUpdatedAt t
                       (set_ErrorMessage msg
                          (set_PodID (workloadNameOf item)
                             (set_Status StatusError item))))) /\
  existsb isDelete (newEvents w (snd r)) = false /\
  workloadNameOf item ∈ statefulsets (kube (snd r)) /\
  workloadNameOf item ∈ services (kube (snd r)).
Proof.
  intros Hr Hk Hid Hv Ht Hip Hu Hex Hfresh Hq Hwk Hpod r msg.
  destruct (processItem_created item w tag ip) as (w6 & E & H1 & H2 & H3 & H4 & H5 & H6 & H7);
    try done.
  subst r. cbn [pendingLoop]. rewrite bind_unfold, E.
  rewrite (awaitPod_first_tick _ _ _ w) by done.
  rewrite Hpod. mstep.
  rewrite UpdateItem_ok.
  2:{ unfold nextFault. cbn. rewrite H2. by apply Forall_None_head, Forall_tail. }
  mstep. cbn [fst snd].
  split; [done|]. split; [|split].
  - eexists. cbn [afterWrite hash emit].
    match goal with |- <[?k := _]> _ !! _ = _ => change k with (ID item) end.
    rewrite lookup_insert_eq. reflexivity.
  - unfold newEvents. cbn [journal afterWrite emit set_kube set_wakes].
    rewrite H7, <- !app_assoc, drop_app_length. reflexivity.
  - cbn. rewrite H5, H6. split; apply elem_of_union_l; by apply elem_of_singleton.
Qed.

End GeneratorRuns.

Lemma generator_makes_available_witness :
  redisUp readyWorld /\ kubeUp readyWorld /\
  sampleVersions !! K8sVersion pendingItem = Some "v1.33.1" /\
  fst (pendingLoop "default" noCase (fun _ => true) "tyottodekiru/dind"
         sampleVersions EmptyString [pendingItem] readyWorld) = Ok tt /\
  workloadNameOf pendingItem
    ∈ statefulsets (kube (snd (pendingLoop "default" noCase (fun _ => true)
                                 "tyottodekiru/dind" sampleVersions EmptyString
                                 [pendingItem] readyWorld))).
Proof.
  assert (Hr : redisUp readyWorld) by constructor.
  assert (Hk : kubeUp readyWorld) by constructor.
  assert (Hv : sampleVersions !! K8sVersion pendingItem = Some "v1.33.1")
    by reflexivity.
  split; [exact Hr|]. split; [exact Hk|]. split; [exact Hv|].
  assert (Hid : (8 <= String.length (ID pendingItem))%nat) by (cbn; lia).
  assert (Ht : WorkloadType pendingItem <> "deployment") by discriminate.
  pose proof (generator_makes_available "default" noCase (fun _ => true)
                "tyottodekiru/dind" sampleVersions EmptyString
                pendingItem readyWorld "v1.33.1" "10.96.0.12"
                (mkPod "k8s-playground-0a1b2c3d-0" PodRunning
                   [mkCS "dind" true None None])
                Hr Hk Hid Hv Ht eq_refl eq_refl eq_refl (not_elem_of_empty _)
                eq_refl eq_refl eq_refl eq_refl) as H.
  cbv zeta in H. destruct H as (H1 & _ & H3 & _). split; [exact H1|exact H3].
Defined.

Lemma generator_records_failed_pod_witness :
  redisUp crashingWorld /\ kubeUp crashingWorld /\
  fst (IsPodRunning "default" (workloadNameOf pendingItem +:+ "-0") crashingWorld)
    = inr "container dind in CrashLoopBackOff or ImagePull error state" /\
  workloadNameOf pendingItem
    ∈ statefulsets (kube (snd (pendingLoop "default" noCase (fun _ => true)
                                 "tyottodekiru/dind" sampleVersions EmptyString
                                 [pendingItem] crashingWorld))).
Proof.
  assert (Hr : redisUp crashingWorld) by constructor.
  assert (Hk : kubeUp crashingWorld) by constructor.
  assert (Hp : fst (IsPodRunning "default" (workloadNameOf pendingItem +:+ "-0")
                      crashingWorld)
               = inr "container dind in CrashLoopBackOff or ImagePull error state")
    by reflexivity.
  split; [exact Hr|]. split; [exact Hk|]. split; [exact Hp|].
  assert (Hid : (8 <= String.length (ID pendingItem))%nat) by (cbn; lia).
  assert (Ht : WorkloadType pendingItem <> "deployment") by discriminate.
  pose proof (generator_records_failed_pod "default" noCase (fun _ => true)
                "tyottodekiru/dind" sampleVersions EmptyString
                pendingItem crashingWorld "v1.33.1" "10.96.0.12" _
                Hr Hk Hid eq_refl Ht eq_refl eq_refl eq_refl (not_elem_of_empty _)
                eq_refl eq_refl Hp) as H.
  cbv zeta in H. destruct H as (_ & _ & _ & H4 & _). exact H4.
Defined.

(** ** The handlers, for the owner *)



Section OwnerFacts.

Variable NAMESPACE : string.
Variable k8sClientPresent : bool.
Variable GetServicesInPod : string -> string -> M (Body + string).
Variable handleTerminalSession : QueueItem -> string -> string -> M Response.
Variable proxyThroughDinDContainer :
  string -> string -> string -> string -> M Response.

(** X14.  What the owner destroys, the killer terminates.  For a record
    of the principal, whatever its status, and a store that takes the
    writes: [destroyEnvironment] answers 200 and stores the record as
    [shutdown], unchanged otherwise but for the stamp; the next tick of
    the killer then stores it as [terminated], whatever the cluster
    answers. *)
Theorem destroy_then_killer (ownerID id : string) (item : QueueItem) (w : World) :
  keyed (hash w) -> redisUp w ->
  hash w !! id = Some item -> Owner item = ownerID ->
  let d := destroyEnvironment ownerID id w in
  let k := processShutdownItems (snd d) in
  fst d = mkResponse StatusOK (MessageBody "Environment marked for destruction") /\
  (exists t, hash (snd d) !! id
             = Some (set_StatusUpdatedAt t (set_Status StatusShutdown item))) /\
  fst k = None /\
  (exists t, hash (snd k) !! id
             = Some (set_StatusUpdatedAt t (set_Status StatusTerminated item))).
Proof.
  intros Hk Hup Hit Ho d k.
  pose proof (Hk _ _ Hit) as Hid. cbn in Hid.
  assert (exists t wd, d = (mkResponse StatusOK (MessageBody "Environment marked for destruction"), wd)
            /\ hash wd = <[id := set_StatusUpdatedAt t (set_Status StatusShutdown item)]> (hash w)
            /\ redisUp wd) as (t & wd & Ed & Hh & Hu).
  { subst d. unfold destroyEnvironment.
    rewrite bind_unfold, GetItem_ok by (by apply redisUp_next). rewrite Hit.
    apply String.eqb_eq in Ho. rewrite Ho. cbn [negb].
    unfold timeNow. mstep.
    set (w1 := set_clock _ _ _).
    assert (U1 : redisUp w1) by (by apply redisUp_tail).
    rewrite UpdateItem_ok by (by apply redisUp_next). mstep.
    eexists _, _. split; [reflexivity|]. split.
    - cbn [afterWrite hash]. rewrite <- Hid. reflexivity.
    - by apply redisUp_afterWrite. }
  subst k. rewrite Ed. cbn [fst snd].
  split; [done|]. split; [exists t; by rewrite Hh, lookup_insert_eq|].
  assert (Hkd : keyed (hash wd)).
  { rewrite Hh. apply map_Forall_insert_2; [exact Hid|exact Hk]. }
  destruct (processShutdownItems_tick wd Hkd Hu) as (K1 & K2 & _).
  split; [exact K1|].
  specialize (K2 id _ ltac:(by rewrite Hh, lookup_insert_eq)).
  rewrite decide_True in K2 by done. destruct K2 as (t' & K2). by exists t'.
Qed.

(** X15.  A rename changes the name and the stamp, and nothing else.  For
    a record of the principal, a body that passes the binding and a store
    that takes the write, [updateEnvironmentDisplayName] answers 200 with
    the record it stored: the loaded record with the new display name and
    a new stamp; owner, status, expiry, version, workload and id are as
    they were, and no other key of the hash has changed. *)
Theorem rename_keeps_the_rest (ownerID id name : string) (decoded : string + string)
    (item : QueueItem) (w : World) :
  keyed (hash w) -> redisUp w ->
  hash w !! id = Some item -> Owner item = ownerID ->
  bindDisplayName decoded = inl name ->
  let r := updateEnvironmentDisplayName ownerID id decoded w in
  exists t,
    fst r = mkResponse StatusOK
              (EnvironmentBody (set_StatusUpdatedAt t (set_DisplayName name item))) /\
    hash (snd r) = <[id := set_StatusUpdatedAt t (set_DisplayName name item)]> (hash w).
Proof.
  intros Hk Hup Hit Ho Hb r. subst r.
  pose proof (Hk _ _ Hit) as Hid. cbn in Hid.
  unfold updateEnvironmentDisplayName. rewrite Hb.
  rewrite bind_unfold, GetItem_ok by (by apply redisUp_next). rewrite Hit.
  apply String.eqb_eq in Ho. rewrite Ho. cbn [negb].
  unfold timeNow. mstep.
  set (w1 := set_clock _ _ _).
  assert (U1 : redisUp w1) by (by apply redisUp_tail).
  rewrite UpdateItem_ok by (by apply redisUp_next). mstep.
  eexists. cbn [fst snd afterWrite hash]. split; [reflexivity|].
  rewrite <- Hid. reflexivity.
Qed.

(** X16.  The handlers go on to the pod only for an available record of
    the principal that has a workload.  In every other case (the store
    fails, the record is missing, it belongs to someone else, it is not
    [available], it has no [PodID]) the answer and the world after the
    request do not depend on service discovery, on the terminal session or
    on the proxy: none of them is run. *)
Theorem pod_is_reached_only_when_available (req : Request) (ownerID id : string)
    (w : World)
    (GetServicesInPod' : string -> string -> M (Body + string))
    (handleTerminalSession' : QueueItem -> string -> string -> M Response)
    (proxyThroughDinDContainer' : string -> string -> string -> string -> M Response) :
  ~ reachesPod ownerID id w ->
  serve NAMESPACE k8sClientPresent GetServicesInPod handleTerminalSession
    proxyThroughDinDContainer req ownerID id w
  = serve NAMESPACE k8sClientPresent GetServicesInPod' handleTerminalSession'
      proxyThroughDinDContainer' req ownerID id w.
Proof.
  intros Hn.
  assert (Hcase : forall item, nextFault w = None -> hash w !! id = Some item ->
            negb (String.eqb (Owner item) ownerID) = false ->
            negb (String.eqb (Status item) StatusAvailable) = false ->
            String.eqb (PodID item) EmptyString = true).
  { intros item Hf Hit Ho Hs.
    destruct (String.eqb (PodID item) EmptyString) eqn:Hp; [done|].
    exfalso. apply Hn. split; [done|]. exists item.
    apply negb_false_iff, String.eqb_eq in Ho, Hs. apply String.eqb_neq in Hp.
    done. }
  destruct req as [|decoded| | |path port]; cbn [serve]; try reflexivity.
  - unfold connectEnvironment. rewrite !bind_unfold.
    destruct (nextFault w) as [m|] eqn:Hf.
    { by rewrite (GetItem_refused _ _ m). }
    rewrite !GetItem_ok by done.
    destruct (hash w !! id) as [item|] eqn:Hit; [|done].
    destruct (negb (String.eqb (Owner item) ownerID)) eqn:Ho; [done|].
    destruct (negb (String.eqb (Status item) StatusAvailable)) eqn:Hs; [done|].
    destruct (negb k8sClientPresent); [done|].
    by rewrite (Hcase item).
  - unfold getEnvironmentServices. rewrite !bind_unfold.
    destruct (nextFault w) as [m|] eqn:Hf.
    { by rewrite (GetItem_refused _ _ m). }
    rewrite !GetItem_ok by done.
    destruct (hash w !! id) as [item|] eqn:Hit; [|done].
    destruct (negb (String.eqb (Owner item) ownerID)) eqn:Ho; [done|].
    destruct (negb (String.eqb (Status item) StatusAvailable)) eqn:Hs; [done|].
    by rewrite (Hcase item).
  - unfold proxyToPod. rewrite !bind_unfold.
    destruct (nextFault w) as [m|] eqn:Hf.
    { by rewrite (GetItem_refused _ _ m). }
    rewrite !GetItem_ok by done.
    destruct (hash w !! id) as [item|] eqn:Hit; [|done].
    destruct (negb (String.eqb (Owner item) ownerID)) eqn:Ho; [done|].
    destruct (negb (String.eqb (Status item) StatusAvailable)) eqn:Hs; [done|].
    by rewrite (Hcase item).
Qed.

End OwnerFacts.

(** X17.  The two limits on the display name do not count the same thing.
    [createEnvironment] refuses a name of more than 50 bytes
    ([len(req.DisplayName)]) with a 400 and stores nothing, while the
    binding of the rename ([max=50]) counts characters: a name of at most
    50 characters that takes more than 50 bytes in UTF-8 cannot be given
    at creation but passes the binding of [updateEnvironmentDisplayName]. *)
Theorem display_name_limits_differ (dindWorkloadType ownerID k8sVersion name : string)
    (w : World) :
  k8sVersion <> EmptyString ->
  (RuneCount name <= 50 < String.length name)%nat ->
  createEnvironment dindWorkloadType ownerID (inl (k8sVersion, name)) w
  = (mkResponse StatusBadRequest
       (ErrorBody "DisplayName cannot exceed 50 characters"), w) /\
  bindDisplayName (inl name) = inl name.
Proof.
  intros Hv [Hr Hl]. split.
  - unfold createEnvironment. apply String.eqb_neq in Hv. rewrite Hv.
    by rewrite (proj2 (Nat.ltb_lt _ _) Hl).
  - unfold bindDisplayName.
    assert (Hne : String.eqb name EmptyString = false).
    { apply String.eqb_neq. intros ->. cbn in Hl. lia. }
    rewrite Hne. by rewrite (proj2 (Nat.ltb_ge _ _) Hr).
Qed.

Lemma display_name_limits_differ_witness :
  (RuneCount accentedName <= 50 < String.length accentedName)%nat /\
  httpStatus (fst (createEnvironment "statefulset" "alice@example.com"
                     (inl ("1.33", accentedName)) emptyStore)) = 400%nat /\
  bindDisplayName (inl accentedName) = inl accentedName.
Proof.
  assert (Hv : "1.33" <> EmptyString) by discriminate.
  assert (Hr : (RuneCount accentedName <= 50 < String.length accentedName)%nat)
    by (vm_compute; lia).
  split; [exact Hr|].
  destruct (display_name_limits_differ "statefulset" "alice@example.com" "1.33"
              accentedName emptyStore Hv Hr) as [H1 H2].
  split; [by rewrite H1|exact H2].
Defined.

Lemma destroy_then_killer_witness :
  keyed (hash (sampleWorld StatusAvailable [] 0)) /\
  redisUp (sampleWorld StatusAvailable [] 0) /\
  fst (processShutdownItems
         (snd (destroyEnvironment "alice@example.com" sampleID
                 (sampleWorld StatusAvailable [] 0)))) = None /\
  exists t, hash (snd (processShutdownItems
                         (snd (destroyEnvironment "alice@example.com" sampleID
                                 (sampleWorld StatusAvailable [] 0))))) !! sampleID
            = Some (set_StatusUpdatedAt t
                      (set_Status StatusTerminated (sampleItem StatusAvailable))).
Proof.
  assert (Hk : keyed (hash (sampleWorld StatusAvailable [] 0))).
  { apply map_Forall_singleton. reflexivity. }
  assert (Hr : redisUp (sampleWorld StatusAvailable [] 0)) by constructor.
  split; [exact Hk|]. split; [exact Hr|].
  pose proof (destroy_then_killer "alice@example.com" sampleID
                (sampleItem StatusAvailable) _ Hk Hr eq_refl eq_refl) as H.
  cbv zeta in H. destruct H as (_ & _ & H3 & H4). split; [exact H3|exact H4].
Defined.

Lemma rename_keeps_the_rest_witness :
  keyed (hash (sampleWorld StatusAvailable [] 7)) /\
  redisUp (sampleWorld StatusAvailable [] 7) /\
  bindDisplayName (inl "demo") = inl "demo" /\
  exists t,
    hash (snd (updateEnvironmentDisplayName "alice@example.com" sampleID (inl "demo")
                 (sampleWorld StatusAvailable [] 7)))
    = <[sampleID := set_StatusUpdatedAt t
                      (set_DisplayName "demo" (sampleItem StatusAvailable))]>
        (hash (sampleWorld StatusAvailable [] 7)).
Proof.
  assert (Hk : keyed (hash (sampleWorld StatusAvailable [] 7))).
  { apply map_Forall_singleton. reflexivity. }
  assert (Hr : redisUp (sampleWorld StatusAvailable [] 7)) by constructor.
  assert (Hb : bindDisplayName (inl "demo") = inl "demo") by reflexivity.
  split; [exact Hk|]. split; [exact Hr|]. split; [exact Hb|].
  destruct (rename_keeps_the_rest "alice@example.com" sampleID "demo" (inl "demo")
              (sampleItem StatusAvailable) _ Hk Hr eq_refl eq_refl Hb) as (t & _ & H).
  by exists t.
Defined.

Lemma pod_is_reached_only_when_available_witness :
  ~ reachesPod "alice@example.com" sampleID (sampleWorld StatusPending [] 0) /\
  serve "default" true noServices noTerminal noProxy ReqConnect
    "alice@example.com" sampleID (sampleWorld StatusPending [] 0)
  = serve "default" true (fun _ _ => ret (inr "unreachable"))
      (fun _ _ _ => ret (mkResponse StatusInternalServerError OtherBody))
      (fun _ _ _ _ => ret (mkResponse StatusNotFound OtherBody)) ReqConnect
      "alice@example.com" sampleID (sampleWorld StatusPending [] 0).
Proof.
  assert (Hn : ~ reachesPod "alice@example.com" sampleID (sampleWorld StatusPending [] 0)).
  { intros (_ & item & Hit & _ & Hs & _).
    change (hash (sampleWorld StatusPending [] 0)) with
      ({[ sampleID := sampleItem StatusPending ]} : gmap string QueueItem) in Hit.
    apply lookup_singleton_Some in Hit as [_ <-]. discriminate. }
  split; [exact Hn|].
  exact (pod_is_reached_only_when_available "default" true noServices noTerminal
           noProxy ReqConnect "alice@example.com" sampleID _ _ _ _ Hn).
Defined.

(** ** The buffers of the keystroke parser *)

Lemma printableByte_ascii c : printableByte c = true -> (code c <? utf8.RuneSelf)%N = true.
Proof.
  unfold printableByte, utf8.RuneSelf. intros H. apply N.ltb_lt.
  apply orb_true_iff in H as [H|H].
  - apply andb_true_iff in H as [_ H]. apply N.leb_le in H. lia.
  - apply N.eqb_eq in H. lia.
Qed.

Lemma trimSpaceStop_clean s :
  forallb printableByte s = true -> forallb printableByte (gostrings.trimSpaceStop s) = true.
Proof.
  induction s as [|c t IH]; [done|]. intros H. cbn [gostrings.trimSpaceStop].
  pose proof H as H'. cbn in H'. apply andb_true_iff in H' as [Hc Ht].
  pose proof (printableByte_ascii c Hc) as Ha. apply N.ltb_lt in Ha.
  destruct (utf8.RuneSelf <=? code c)%N eqn:E; [apply N.leb_le in E; lia|].
  destruct (gostrings.asciiSpace c); [by apply IH|done].
Qed.

Lemma TrimSpace_clean s :
  forallb printableByte s = true -> forallb printableByte (gostrings.TrimSpace s) = true.
Proof.
  unfold gostrings.TrimSpace.
  induction s as [|c t IH]; [done|]. intros H. cbn [gostrings.trimSpaceStart].
  pose proof H as H'. cbn in H'. apply andb_true_iff in H' as [Hc Ht].
  pose proof (printableByte_ascii c Hc) as Ha. apply N.ltb_lt in Ha.
  destruct (utf8.RuneSelf <=? code c)%N eqn:E; [apply N.leb_le in E; lia|].
  destruct (gostrings.asciiSpace c); [by apply IH|].
  rewrite forallb_rev. apply trimSpaceStop_clean. by rewrite forallb_rev.
Qed.

Lemma removelast_clean s :
  forallb printableByte s = true -> forallb printableByte (removelast s) = true.
Proof.
  induction s as [|c [|d t] IH]; [done..|]. intros H.
  change (removelast (c :: d :: t)) with (c :: removelast (d :: t)).
  cbn [forallb] in *. apply andb_true_iff in H as [Hc Ht].
  rewrite Hc. by apply IH.
Qed.

Lemma filter_clean data : forallb printableByte (List.filter printableByte data) = true.
Proof.
  apply forallb_forall. intros c Hc. by apply filter_In in Hc as [_ Hc].
Qed.

Section BufferFacts.
Variable jsonObjectKeys : bytes -> option (list string).

Abbreviation ParseIn := (ParseCommandFromWebSocketDataWithSession jsonObjectKeys).

Lemma Parse_other data sid other (cb : gmap string string) :
  other <> sid -> snd (ParseIn data sid cb) !! other = cb !! other.
Proof.
  intros Hne. rewrite parser_refines. unfold lineDiscipline.
  destruct (_ || _); [done|]. destruct (hasNewline data).
  { cbn. by rewrite lookup_insert_ne. }
  destruct (isErase data); cbn; by rewrite lookup_insert_ne.
Qed.

Lemma Parse_clean data sid (cb : gmap string string) :
  cleanBuffers cb ->
  cleanLine (fst (ParseIn data sid cb)) /\ cleanBuffers (snd (ParseIn data sid cb)).
Proof.
  intros Hc. rewrite parser_refines. unfold lineDiscipline.
  assert (Hline : forallb printableByte (s2b (default EmptyString (cb !! sid))) = true).
  { destruct (cb !! sid) as [line|] eqn:E; [|done]. exact (Hc _ _ E). }
  destruct (_ || _); [done|]. destruct (hasNewline data); cbn [fst snd].
  { split.
    - unfold cleanLine. rewrite s2b_b2s. by apply TrimSpace_clean.
    - by apply map_Forall_insert_2. }
  destruct (isErase data); cbn [fst snd]; (split; [done|]);
    apply map_Forall_insert_2; try done; unfold cleanLine; rewrite s2b_b2s.
  - by apply removelast_clean.
  - rewrite forallb_app, Hline. apply filter_clean.
Qed.

(** X18.  The sessions of the parser do not share a line.  Whatever is
    fed to one session, in any number of messages, the buffer of every
    other session id is as it was. *)
Theorem parser_sessions_are_separate (inputs : list bytes) (sid other : string)
    (cb : gmap string string) :
  other <> sid ->
  snd (feed jsonObjectKeys inputs sid cb) !! other = cb !! other.
Proof.
  intros Hne. revert cb. induction inputs as [|data rest IH]; intros cb; [done|].
  cbn [feed].
  pose proof (Parse_other data sid other cb Hne) as H1.
  destruct (ParseIn data sid cb) as [c cb1]. cbn [snd] in H1.
  specialize (IH cb1).
  destruct (feed jsonObjectKeys rest sid cb1) as [cs cb2]. cbn [snd] in *.
  by rewrite IH.
Qed.

(** X19.  The audit never records a control byte.  If the buffered lines
    hold only printable ASCII and tabs (as they do in the empty map), then
    whatever bytes arrive (escape sequences, UTF-8, NUL), the lines still
    do afterwards, and so does every command that is returned. *)
Theorem parser_keeps_lines_printable (inputs : list bytes) (sid : string)
    (cb : gmap string string) :
  cleanBuffers cb ->
  Forall cleanLine (fst (feed jsonObjectKeys inputs sid cb)) /\
  cleanBuffers (snd (feed jsonObjectKeys inputs sid cb)).
Proof.
  revert cb. induction inputs as [|data rest IH]; intros cb Hc; [done|].
  cbn [feed].
  destruct (Parse_clean data sid cb Hc) as [H1 H2].
  destruct (ParseIn data sid cb) as [c cb1]. cbn [fst snd] in *.
  destruct (IH cb1 H2) as [H3 H4].
  destruct (feed jsonObjectKeys rest sid cb1) as [cs cb2]. cbn [fst snd] in *.
  split; [by constructor|done].
Qed.

End BufferFacts.

Lemma parser_sessions_are_separate_witness :
  "s2" <> "s1" /\
  snd (feed braceJSON [s2b "rm -rf /"; [CR]] "s1" {[ "s2" := "ls" ]}) !! "s2"
  = Some "ls".
Proof.
  assert (H : "s2" <> "s1") by discriminate.
  split; [exact H|].
  rewrite (parser_sessions_are_separate braceJSON _ "s1" "s2" _ H).
  reflexivity.
Defined.

Lemma parser_keeps_lines_printable_witness :
  cleanBuffers ∅ /\
  Forall cleanLine
    (fst (feed braceJSON [[ESC; "["%char; "A"%char]; s2b "ls"; [CR]] "s1" ∅)).
Proof.
  assert (H : cleanBuffers ∅) by apply map_Forall_empty.
  split; [exact H|].
  exact (proj1 (parser_keeps_lines_printable braceJSON _ "s1" ∅ H)).
Defined.

(** ** The services read off netstat *)

Lemma systemPort_false port :
  systemPort port = false -> (1024 <= port \/ port = 80 \/ port = 443)%Z.
Proof.
  unfold systemPort. intros H.
  destruct (port <? 1024)%Z eqn:E1; [|apply Z.ltb_ge in E1; lia].
  destruct (port =? 80)%Z eqn:E2; [apply Z.eqb_eq in E2; lia|].
  destruct (port =? 443)%Z eqn:E3; [apply Z.eqb_eq in E3; lia|].
  destruct (port =? 8080)%Z eqn:E4; [apply Z.eqb_eq in E4; apply Z.ltb_lt in E1; lia|].
  destruct (port =? 3000)%Z eqn:E5; [apply Z.eqb_eq in E5; apply Z.ltb_lt in E1; lia|].
  destruct (port =? 8000)%Z eqn:E6; [apply Z.eqb_eq in E6; apply Z.ltb_lt in E1; lia|].
  done.
Qed.

Lemma existsb_port_false (l : list ServiceInfo) port :
  existsb (fun existing => (Port existing =? port)%Z) l = false -> port ∉ Port <$> l.
Proof.
  intros H Hin. apply list_elem_of_fmap in Hin as (s & -> & Hs).
  apply not_true_iff_false in H. apply H. apply existsb_exists.
  exists s. split; [by apply list_elem_of_In|by apply Z.eqb_eq].
Qed.

Lemma netstatAddress_protocol fields address protocol :
  netstatAddress fields = (address, protocol) -> address <> [] ->
  (gostrings.HasPrefix protocol (s2b "tcp")
   || gostrings.HasPrefix protocol (s2b "udp")) = true.
Proof.
  unfold netstatAddress.
  destruct (_ || _) eqn:E; [by intros [= <- <-]|].
  destruct (_ && _); [by intros [= <- <-]|]. by intros [= <- <-].
Qed.

Lemma netstatLine_inv services line :
  netstatInv services -> netstatInv (netstatLine services line).
Proof.
  intros [Hnd Hall]. unfold netstatLine.
  destruct (_ || _); [done|]. destruct (_ <? _)%nat; [done|].
  destruct (netstatAddress _) as [address protocol] eqn:Ea.
  case_bool_decide as Hne; [done|]. cbn [negb].
  destruct (_ || _); [done|].
  destruct (strconv.Atoi _) as [port|]; [|done].
  destruct (systemPort port) eqn:Hsys; [done|].
  destruct (existsb _ services) eqn:Hex; [done|].
  split.
  - rewrite fmap_app. apply NoDup_app. split; [done|]. split.
    + intros p Hp Hin. cbn in Hin. apply list_elem_of_singleton in Hin. subst p.
      by apply (existsb_port_false services port).
    + cbn. apply NoDup_singleton.
  - apply Forall_app. split; [done|]. constructor; [|constructor].
    unfold wellReported. cbn [Name Port Protocol Description].
    split; [done|]. split; [done|]. split; [by apply systemPort_false|].
    rewrite s2b_b2s. by eapply netstatAddress_protocol.
Qed.

Lemma fold_netstat_inv lines services :
  netstatInv services -> netstatInv (fold_left netstatLine lines services).
Proof.
  revert services. induction lines as [|line rest IH]; intros services H; [done|].
  cbn. apply IH. by apply netstatLine_inv.
Qed.

(** X20.  What [parseNetstatOutput] reports, whatever the output it is
    given: no port twice; every service named [service-{port}] and
    described by [getServiceDescription]; no port below 1024 other than 80
    and 443; and a protocol that starts with [tcp] or [udp]. *)
Theorem parseNetstatOutput_sound (output : string) :
  NoDup (Port <$> parseNetstatOutput output) /\
  Forall wellReported (parseNetstatOutput output).
Proof.
  apply fold_netstat_inv. split; [constructor|constructor].
Qed.

Lemma netstatLine_ss services line : ssLine line -> netstatLine services line = services.
Proof.
  intros (recvQ & rest & Hf & Hc). unfold netstatLine.
  destruct (_ || _); [done|]. rewrite Hf.
  destruct (_ <? _)%nat; [done|].
  unfold netstatAddress, field. cbn [nth].
  change (gostrings.HasPrefix (s2b "LISTEN") (s2b "tcp")) with false.
  change (gostrings.HasPrefix (s2b "LISTEN") (s2b "udp")) with false.
  change (gostrings.Contains (s2b "LISTEN") (s2b ":")) with false.
  rewrite Hc. cbn [orb andb]. rewrite andb_false_r. done.
Qed.

Lemma netstatLine_other services line :
  gostrings.Contains (gostrings.TrimSpace line) (s2b "LISTEN") = false ->
  netstatLine services line = services.
Proof. unfold netstatLine. intros ->. by rewrite orb_true_r. Qed.

(** X21.  The output of [ss] is never understood.  The command that
    [getDinDContainerServices] runs falls back from [netstat] to [ss -tlnp
    | grep LISTEN], whose lines start with the state [LISTEN] and a queue
    length ([LISTEN 0 128 *:80 *:*], as the comment in
    [parseNetstatOutput] has it); the loop looks for the address in the
    first two fields only.  So for an output in which every line that
    mentions [LISTEN] is such a line (the rest, as the empty piece after
    the last newline, is skipped anyway) [parseNetstatOutput] yields no
    service, and [getDinDContainerServices] returns none. *)
Theorem ss_output_yields_nothing (output : string) :
  ssOutput output ->
  parseNetstatOutput output = [] /\
  getDinDContainerServices (OutDone output) = inl [].
Proof.
  intros H.
  assert (E : parseNetstatOutput output = []).
  { unfold parseNetstatOutput. unfold ssOutput in H.
    revert H. generalize (gostrings.Split1 (s2b output) LF).
    intros lines H. induction H as [|line rest Hl _ IH]; [done|].
    cbn [fold_left].
    destruct (gostrings.Contains (gostrings.TrimSpace line) (s2b "LISTEN")) eqn:Ec.
    - by rewrite netstatLine_ss by (by apply Hl).
    - by rewrite netstatLine_other. }
  split; [exact E|].
  unfold getDinDContainerServices. rewrite E. by destruct (_ || _).
Qed.

(** Two lines of [ss -tlnp], each ended by a newline. *)
Lemma ss_output_yields_nothing_witness :
  ssOutput ssSample /\
  parseNetstatOutput ssSample = [] /\
  getDinDContainerServices (OutDone ssSample) = inl [].
Proof.
  assert (H : ssOutput ssSample).
  { unfold ssOutput.
    assert (E : gostrings.Split1 (s2b ssSample) LF
                = [s2b "LISTEN 0      128                *:80               *:*";
                   s2b "LISTEN 0      4096         0.0.0.0:8080       0.0.0.0:*";
                   []])
      by (vm_compute; reflexivity).
    rewrite E. apply Forall_cons. split; [|apply Forall_cons; split;
      [|apply Forall_cons; split; [|by constructor]]].
    - intros _. exists (s2b "0"), [s2b "128"; s2b "*:80"; s2b "*:*"].
      split; vm_compute; reflexivity.
    - intros _. exists (s2b "0"), [s2b "4096"; s2b "0.0.0.0:8080"; s2b "0.0.0.0:*"].
      split; vm_compute; reflexivity.
    - intros C. vm_compute in C. discriminate C. }
  split; [exact H|]. exact (ss_output_yields_nothing ssSample H).
Defined.

Example parseNetstatOutput_sample :
  parseNetstatOutput netstatSample
  = [mkService "service-8080" 8080 "tcp" "HTTP Proxy/Alternative"].
Proof. vm_compute. reflexivity. Qed.

(** ** Pages of the command log *)

Lemma int_range :
  strconv.minInt = (-9223372036854775808)%Z /\ strconv.maxInt = 9223372036854775807%Z.
Proof. split; reflexivity. Qed.

Ltac ints := pose proof int_range as [? ?]; lia.

Lemma addInt_small a b :
  (strconv.minInt <= a + b <= strconv.maxInt)%Z -> logging.addInt a b = (a + b)%Z.
Proof.
  destruct int_range as [-> ->]. unfold logging.addInt. intros H.
  change (2 ^ 63)%Z with 9223372036854775808%Z.
  change (2 ^ 64)%Z with 18446744073709551616%Z.
  rewrite Z.mod_small by lia. lia.
Qed.

Lemma take_take_drop {A} (l : list A) a b :
  take a l ++ take b (drop a l) = take (a + b) l.
Proof.
  revert l. induction a as [|a IH]; intros l; [by rewrite drop_0|].
  destruct l as [|x l]; [by rewrite drop_nil, !take_nil|]. cbn. by rewrite IH.
Qed.

Lemma insertSorted_perm less x l : logging.insertSorted less x l ≡ₚ x :: l.
Proof.
  induction l as [|y l IH]; [done|]. cbn. destruct (less y x); [|done].
  rewrite IH. apply Permutation_swap.
Qed.

Lemma insertionSort_perm less l : logging.insertionSort less l ≡ₚ l.
Proof.
  induction l as [|x l IH]; [done|]. cbn. rewrite insertSorted_perm. by rewrite IH.
Qed.

Section LogFacts.

Variable getLogFiles : list string + string.
Variable readLogsFromFile : string -> list logging.CommandLog + string.
Variable sortSlice : (logging.CommandLog -> logging.CommandLog -> bool) ->
                     list logging.CommandLog -> list logging.CommandLog.

(** [sort.Slice] rearranges the slice it is given. *)
Hypothesis sortSlice_perm : forall less l, sortSlice less l ≡ₚ l.

Abbreviation Logs := (logging.GetCommandLogs getLogFiles readLogsFromFile sortSlice).
Abbreviation found := (logging.matching getLogFiles readLogsFromFile sortSlice).

Lemma GetCommandLogs_page userID environmentID limit offset files :
  getLogFiles = inl files ->
  (0 <= offset)%Z -> (0 <= limit)%Z -> (offset + limit <= strconv.maxInt)%Z ->
  Logs userID environmentID limit offset
  = Ok (take (Z.to_nat limit) (drop (Z.to_nat offset) (found userID environmentID))).
Proof.
  intros Hf Ho Hl Hb. unfold logging.GetCommandLogs, logging.matching. rewrite Hf.
  set (l := sortSlice _ _).
  destruct (Z.of_nat (length l) <=? offset)%Z eqn:E.
  - apply Z.leb_le in E. rewrite drop_ge by lia. by rewrite take_nil.
  - apply Z.leb_gt in E.
    rewrite addInt_small by ints.
    unfold logging.slice.
    assert (E1 : (offset <? 0)%Z = false) by (apply Z.ltb_ge; lia). rewrite E1.
    destruct (Z.of_nat (length l) <? offset + limit)%Z eqn:E2.
    + apply Z.ltb_lt in E2.
      assert (E3 : (Z.of_nat (length l) <? offset)%Z = false) by (apply Z.ltb_ge; lia).
      rewrite E3. cbn [orb]. f_equal.
      rewrite !take_ge; [done| |]; rewrite length_drop; lia.
    + apply Z.ltb_ge in E2.
      assert (E3 : (offset + limit <? offset)%Z = false) by (apply Z.ltb_ge; lia).
      rewrite E3. cbn [orb]. do 2 f_equal. lia.
Qed.

(** X22.  The pages of the command log.  For a log directory that can be
    listed, an offset and a limit that are not negative (and whose sum is
    an [int]), [GetCommandLogs] returns the entries that match the
    criteria, an empty criterion matching all, in the order of the sort,
    from the offset on and at most [limit] of them; an offset beyond the
    end gives the empty page; and two consecutive pages are the page of
    their joint size: paging loses no entry and repeats none. *)
Theorem GetCommandLogs_pages (userID environmentID : string) (limit limit' offset : Z)
    (files : list string) :
  getLogFiles = inl files ->
  (0 <= offset)%Z -> (0 <= limit)%Z -> (0 <= limit')%Z ->
  (offset + limit + limit' <= strconv.maxInt)%Z ->
  let all := found userID environmentID in
  (forall e, e ∈ all <->
             logging.matches userID environmentID e = true /\
             e ∈ logging.readAll readLogsFromFile files) /\
  exists page page',
    Logs userID environmentID limit offset = Ok page /\
    Logs userID environmentID limit' (offset + limit) = Ok page' /\
    Logs userID environmentID (limit + limit') offset = Ok (page ++ page') /\
    page = take (Z.to_nat limit) (drop (Z.to_nat offset) all) /\
    (length page <= Z.to_nat limit)%nat /\
    ((Z.of_nat (length all) <= offset)%Z -> page = []).
Proof.
  intros Hf Ho Hl Hl' Hb all. split.
  - intros e. subst all. unfold logging.matching. rewrite Hf.
    rewrite (sortSlice_perm _ _). rewrite list_elem_of_In, filter_In, <- list_elem_of_In.
    tauto.
  - eexists _, _.
    rewrite (GetCommandLogs_page _ _ limit offset files) by (done || lia).
    rewrite (GetCommandLogs_page _ _ limit' (offset + limit) files) by (done || lia).
    rewrite (GetCommandLogs_page _ _ (limit + limit') offset files) by (done || lia).
    fold all.
    split; [reflexivity|]. split; [reflexivity|]. split; [|split; [done|split]].
    + f_equal. rewrite Z2Nat.inj_add by lia. rewrite <- take_take_drop.
      f_equal. f_equal. rewrite drop_drop. f_equal. lia.
    + rewrite length_take. lia.
    + intros Hge. rewrite drop_ge by lia. by rewrite take_nil.
Qed.

(** X23.  The bounds of the window.  On a log with fewer than 2^63 - 1000
    matching entries, the window that [getCommandLogs] of the app
    controller reads off the query (a limit from 1 to 1000, 100 by default,
    and an offset that is not negative) never makes [GetCommandLogs] panic.
    But [GetCommandLogs] itself checks neither bound: called with a
    negative limit, as [HandleAdminLogs] calls it for [?limit=-1], it
    slices [filteredLogs[offset:offset+limit]] and panics as soon as one
    entry lies at the offset. *)
Theorem GetCommandLogs_bounds (userID environmentID : string) :
  (Z.of_nat (length (found userID environmentID)) + 1000 <= strconv.maxInt)%Z ->
  (forall limitQuery offsetQuery,
     let '(limit, offset) := logging.windowOf limitQuery offsetQuery in
     (1 <= limit <= 1000)%Z /\ (0 <= offset)%Z /\
     forall m, Logs userID environmentID limit offset <> Crash m) /\
  (forall limit offset,
     (strconv.minInt <= limit < 0)%Z ->
     (0 <= offset < Z.of_nat (length (found userID environmentID)))%Z ->
     Logs userID environmentID limit offset = Crash "slice bounds out of range").
Proof.
  intros Hlen. split.
  - intros lq oq. unfold logging.windowOf.
    set (limit := match strconv.Atoi (s2b (default "100" lq)) with
                  | Some l => if (0 <? l)%Z && (l <=? 1000)%Z then l else 100%Z
                  | None => 100%Z end).
    set (offset := match strconv.Atoi (s2b (default "0" oq)) with
                   | Some o => if (0 <=? o)%Z then o else 0%Z
                   | None => 0%Z end).
    assert (Hl : (1 <= limit <= 1000)%Z).
    { subst limit. destruct (strconv.Atoi (s2b (default "100" lq))) as [l|]; [|cbn; lia].
      destruct (0 <? l)%Z eqn:E1; [|cbn; lia].
      destruct (l <=? 1000)%Z eqn:E2; [|cbn; lia].
      apply Z.ltb_lt in E1. apply Z.leb_le in E2. cbn. lia. }
    assert (Ho : (0 <= offset)%Z).
    { subst offset. destruct (strconv.Atoi (s2b (default "0" oq))) as [o|]; [|cbn; lia].
      destruct (0 <=? o)%Z eqn:E1; [|cbn; lia]. apply Z.leb_le in E1. cbn. lia. }
    split; [done|]. split; [done|]. intros m.
    unfold logging.GetCommandLogs, logging.matching in *.
    destruct getLogFiles as [files|e]; [|done].
    set (l := sortSlice _ _) in *.
    destruct (Z.of_nat (length l) <=? offset)%Z eqn:E; [done|].
    apply Z.leb_gt in E.
    rewrite addInt_small by ints.
    unfold logging.slice.
    assert (E1 : (offset <? 0)%Z = false) by (apply Z.ltb_ge; lia). rewrite E1.
    destruct (Z.of_nat (length l) <? offset + limit)%Z.
    + assert (E3 : (Z.of_nat (length l) <? offset)%Z = false) by (apply Z.ltb_ge; lia).
      by rewrite E3.
    + assert (E3 : (offset + limit <? offset)%Z = false) by (apply Z.ltb_ge; lia).
      by rewrite E3.
  - intros limit offset Hl Ho.
    unfold logging.GetCommandLogs, logging.matching in *.
    destruct getLogFiles as [files|e]; [|cbn in Ho; lia].
    set (l := sortSlice _ _) in *.
    assert (E : (Z.of_nat (length l) <=? offset)%Z = false) by (apply Z.leb_gt; lia).
    rewrite E.
    rewrite addInt_small by ints.
    assert (E2 : (Z.of_nat (length l) <? offset + limit)%Z = false)
      by (apply Z.ltb_ge; lia).
    rewrite E2. unfold logging.slice.
    assert (E3 : (offset + limit <? offset)%Z = true) by (apply Z.ltb_lt; lia).
    rewrite E3. by rewrite orb_true_r.
Qed.

End LogFacts.

Lemma GetCommandLogs_pages_witness :
  (forall less l, logging.insertionSort less l ≡ₚ l) /\
  exists page page',
    logging.GetCommandLogs (inl ["commands-2025-01-01.log"]) logging.sampleFiles
      logging.insertionSort "alice@example.com" EmptyString 1 0 = Ok page /\
    logging.GetCommandLogs (inl ["commands-2025-01-01.log"]) logging.sampleFiles
      logging.insertionSort "alice@example.com" EmptyString 1 1 = Ok page' /\
    logging.GetCommandLogs (inl ["commands-2025-01-01.log"]) logging.sampleFiles
      logging.insertionSort "alice@example.com" EmptyString 2 0 = Ok (page ++ page').
Proof.
  split; [exact insertionSort_perm|].
  assert (H0 : (0 <= 0)%Z) by lia.
  assert (H1 : (0 <= 1)%Z) by lia.
  assert (Hb : (0 + 1 + 1 <= strconv.maxInt)%Z) by (vm_compute; congruence).
  destruct (GetCommandLogs_pages (inl ["commands-2025-01-01.log"]) logging.sampleFiles
              logging.insertionSort insertionSort_perm "alice@example.com" EmptyString
              1 1 0 ["commands-2025-01-01.log"] eq_refl H0 H1 H1 Hb)
    as (_ & p & p' & E1 & E2 & E3 & _).
  exists p, p'. split; [exact E1|]. split; [exact E2|exact E3].
Defined.

Lemma GetCommandLogs_bounds_witness :
  (forall less l, logging.insertionSort less l ≡ₚ l) /\
  logging.GetCommandLogs (inl ["commands-2025-01-01.log"]) logging.sampleFiles
    logging.insertionSort EmptyString EmptyString (-1) 0
  = Crash "slice bounds out of range".
Proof.
  split; [exact insertionSort_perm|].
  assert (Hlen : (Z.of_nat (length (logging.matching (inl ["commands-2025-01-01.log"])
                                       logging.sampleFiles logging.insertionSort
                                       EmptyString EmptyString)) + 1000
                  <= strconv.maxInt)%Z) by (vm_compute; congruence).
  assert (Hl : (strconv.minInt <= -1 < 0)%Z) by (vm_compute; split; congruence).
  assert (Ho : (0 <= 0 < Z.of_nat (length (logging.matching
                    (inl ["commands-2025-01-01.log"]) logging.sampleFiles
                    logging.insertionSort EmptyString EmptyString)))%Z)
    by (vm_compute; split; congruence).
  exact (proj2 (GetCommandLogs_bounds (inl ["commands-2025-01-01.log"])
                  logging.sampleFiles logging.insertionSort
                  EmptyString EmptyString Hlen) (-1)%Z 0%Z Hl Ho).
Defined.

Example GetCommandLogs_newest_first :
  logging.GetCommandLogs (inl ["commands-2025-01-01.log"]) logging.sampleFiles
    logging.insertionSort "alice@example.com" EmptyString 10 0
  = Ok [ logging.mkLog "log_3" "env-a" "alice@example.com" "alice" "pod-a" "whoami" 20 "s1";
         logging.mkLog "log_1" "env-a" "alice@example.com" "alice" "pod-a" "ls" 10 "s1" ].
Proof. vm_compute. reflexivity. Qed.

(** ** Writing to the WebSocket *)

Lemma writeLoop_spec turns p total c :
  (length p <= turns)%nat ->
  let r := writeLoop turns p total c in
  let n := fst (fst r) in
  exists msgs,
    sent (snd r) = sent c ++ msgs /\
    (total <= n)%nat /\
    concat msgs = take (n - total) p /\
    Forall chunk msgs /\
    (snd (fst r) = None -> (n - total = length p)%nat) /\
    (Forall (eq None) (write_faults c) -> snd (fst r) = None).
Proof.
  revert p total c. induction turns as [|turns IH]; intros p total c Hlen r n.
  - destruct p; [|cbn in Hlen; lia]. subst r n. cbn.
    exists []. rewrite app_nil_r, Nat.sub_diag. done.
  - destruct p as [|x p'].
    { subst r n. cbn. exists []. rewrite app_nil_r, Nat.sub_diag. done. }
    subst r n. cbn [writeLoop].
    set (p := x :: p') in *.
    set (k := if (maxChunkSize <? length p)%nat then maxChunkSize else length p).
    assert (Hk : (0 < k <= maxChunkSize)%nat /\ (k <= length p)%nat).
    { subst k. unfold maxChunkSize in *. destruct (4096 <? length p)%nat eqn:E.
      - apply Nat.ltb_lt in E. lia.
      - apply Nat.ltb_ge in E. subst p. cbn [length] in *. lia. }
    unfold WriteMessage.
    destruct (mjoin (head (write_faults c))) as [e|] eqn:Hf.
    + cbn [fst snd]. exists []. rewrite app_nil_r, Nat.sub_diag.
      repeat split; try done.
      intros Hup. by rewrite (Forall_None_head _ Hup) in Hf.
    + set (c1 := mkConn _ _).
      destruct (IH (drop k p) (total + k)%nat c1) as (msgs & H1 & H2 & H3 & H4 & H5 & H6).
      { rewrite length_drop. lia. }
      exists (take k p :: msgs). cbn [fst snd] in *.
      split; [rewrite H1; unfold c1; cbn [sent]; by rewrite <- app_assoc|].
      split; [lia|]. split; [|split; [|split]].
      * cbn [concat]. rewrite H3.
        replace (fst (fst (writeLoop turns (drop k p) (total + k) c1)) - total)%nat
          with (k + (fst (fst (writeLoop turns (drop k p) (total + k) c1)) - (total + k)))%nat
          by lia.
        by rewrite take_take_drop.
      * constructor; [|done]. unfold chunk. rewrite length_take. lia.
      * intros Hn. specialize (H5 Hn). rewrite length_drop in H5. lia.
      * intros Hup. apply H6. subst c1. cbn. by apply Forall_tail.
Qed.

(** X24.  What [Write] reports as written is what it sent.  Whatever the
    connection does, [Write p] sends the bytes of [p] in order, in binary
    messages of 1 to 4096 bytes each: the messages sent, laid end to end,
    are the first [n] bytes of [p], [n] being the count it returns; without
    an error that is all of [p] (and nothing is sent for an empty [p]);
    and it returns an error only if a [WriteMessage] failed. *)
Theorem Write_sends_chunks (p : bytes) (c : Conn) :
  let n := fst (fst (Write p c)) in
  exists msgs,
    sent (snd (Write p c)) = sent c ++ msgs /\
    concat msgs = take n p /\
    Forall chunk msgs /\
    (snd (fst (Write p c)) = None -> n = length p) /\
    (Forall (eq None) (write_faults c) -> snd (fst (Write p c)) = None).
Proof.
  intros n. subst n. unfold Write.
  destruct (writeLoop_spec (length p) p 0 c (le_n _)) as (msgs & H1 & H2 & H3 & H4 & H5 & H6).
  exists msgs. rewrite Nat.sub_0_r in H3, H5. done.
Qed.

Example Write_three_chunks :
  let p := repeat "x"%char (4500 + 4500) in
  length <$> sent (snd (Write p (mkConn [] []))) = [4096; 4096; 808]%nat /\
  fst (Write p (mkConn [] [None; Some "broken pipe"])) = (4096%nat, Some "broken pipe").
Proof. vm_compute. done. Qed.

(** ** Sessions, login and the two middlewares *)

Lemma asBool_true v : asBool v = Some true <-> v = Some (VBool true).
Proof.
  split; [|by intros ->].
  destruct v as [[[]| |]|]; cbn; congruence.
Qed.

Lemma asString_Some v s : asString v = Some s <-> v = Some (VString s).
Proof.
  split; [|by intros ->].
  destruct v as [[| |]|]; cbn; congruence.
Qed.

Lemma turnAway_answers upgrade status message location context :
  turnAway upgrade status message location <> CallNext context.
Proof. unfold turnAway. by destruct (String.eqb upgrade "websocket"). Qed.

Lemma authMiddleware_owner authMethod stored upgrade context :
  fst (authMiddleware authMethod stored upgrade) = CallNext context ->
  exists session owner,
    stored = inl session /\ loggedInAs authMethod session owner /\
    context !! "owner_id" = Some owner.
Proof.
  unfold authMiddleware. destruct stored as [session|]; [|discriminate].
  destruct (asBool (Values session !! "authenticated")) as [[]|] eqn:A;
    try (intros H; by apply turnAway_answers in H).
  apply asBool_true in A.
  destruct (String.eqb_spec authMethod "google") as [->|G].
  - destruct (asString (Values session !! "user_email")) as [email|] eqn:E;
      [|intros H; by apply turnAway_answers in H].
    apply asString_Some in E.
    destruct (String.eqb_spec email EmptyString) as [->|N];
      [intros H; by apply turnAway_answers in H|].
    cbn [fst]. intros [= <-]. exists session, email.
    split; [done|]. split; [|by rewrite lookup_insert_eq].
    split; [done|]. by left.
  - destruct (String.eqb_spec authMethod "password") as [->|P];
      [|intros H; by apply turnAway_answers in H].
    destruct (asString (Values session !! "user_id")) as [userID|] eqn:E;
      [|intros H; by apply turnAway_answers in H].
    apply asString_Some in E.
    destruct (String.eqb_spec userID legacyOwnerID) as [->|N];
      [|intros H; by apply turnAway_answers in H].
    cbn [fst]. intros [= <-]. exists session, legacyOwnerID.
    split; [done|]. split; [|by rewrite lookup_insert_eq].
    split; [done|]. by right.
Qed.

Lemma authMiddleware_passes authMethod session upgrade owner :
  loggedInAs authMethod session owner ->
  exists context,
    authMiddleware authMethod (inl session) upgrade = (CallNext context, None) /\
    context !! "owner_id" = Some owner.
Proof.
  intros [A [(-> & N & E)|(-> & -> & E)]]; unfold authMiddleware;
    rewrite A, E; cbn.
  - destruct (String.eqb_spec owner EmptyString) as [->|_]; [done|].
    eexists. split; [done|]. by rewrite lookup_insert_eq.
  - eexists. split; [done|]. by rewrite lookup_insert_eq.
Qed.

(** X25. [authMiddleware] calls the next handler with [owner_id] set to
    [owner] exactly when the store returns a session that is marked
    authenticated and that carries, under Google login, [owner] as a
    non-empty [user_email] or, under password login, the legacy admin id as
    [user_id]; a store error, an unknown method or any other session is
    answered by the middleware itself. *)
Theorem authMiddleware_lets_through authMethod stored upgrade owner :
  (exists context,
     fst (authMiddleware authMethod stored upgrade) = CallNext context /\
     context !! "owner_id" = Some owner)
  <-> exists session, stored = inl session /\ loggedInAs authMethod session owner.
Proof.
  split.
  - intros (context & H & O).
    destruct (authMiddleware_owner _ _ _ _ H) as (session & owner' & -> & L & O').
    exists session. split; [done|]. congruence.
  - intros (session & -> & L).
    destruct (authMiddleware_passes _ _ upgrade _ L) as (context & E & O).
    exists context. by rewrite E.
Qed.

Lemma s2b_nil s : s2b s = [] -> s = EmptyString.
Proof. intros H. rewrite <- (b2s_s2b s), H. done. Qed.

Lemma isAdmin_listed adminUsers owner :
  isAdmin adminUsers owner = true <-> listedAdmin adminUsers owner.
Proof.
  unfold isAdmin, listedAdmin. rewrite existsb_exists. split.
  - intros (admin & I & E). exists admin. apply list_elem_of_In in I.
    by apply bool_decide_eq_true in E.
  - intros (admin & I & E). exists admin. apply list_elem_of_In in I.
    split; [done|]. by apply bool_decide_eq_true.
Qed.

Lemma nobody_listed_in_empty owner :
  owner <> EmptyString -> ~ listedAdmin EmptyString owner.
Proof.
  intros N (admin & I & E). vm_compute in I.
  apply list_elem_of_singleton in I. subst admin.
  vm_compute in E. symmetry in E. by apply s2b_nil in E.
Qed.

Lemma adminMiddleware_google ADMIN_USERS context owner :
  context !! "owner_id" = Some owner ->
  adminMiddleware "google" ADMIN_USERS context
  = if String.eqb ADMIN_USERS EmptyString
    then AbortJSON StatusForbidden "No admin users configured"
    else if isAdmin ADMIN_USERS owner then CallNext context
    else AbortJSON StatusForbidden "Access denied: admin privileges required".
Proof.
  intros O. unfold adminMiddleware. rewrite O.
  change (String.eqb "google" "password") with false.
  change (String.eqb "google" "google") with true. cbn [andb].
  unfold getEnv. destruct (String.eqb_spec ADMIN_USERS EmptyString) as [->|NE].
  - done.
  - cbn [negb]. destruct (String.eqb_spec ADMIN_USERS EmptyString) as [->|_]; done.
Qed.

(** X26. A request reaches a handler of the [/admin] group, which runs
    [authMiddleware] and then [adminMiddleware], exactly when its session
    is a logged-in one and either the method is password login or the
    owner's address is one of the comma-separated entries of [ADMIN_USERS],
    white space around an entry not counting. *)
Theorem adminGroup_lets_through authMethod ADMIN_USERS stored upgrade :
  (exists context,
     adminGroup authMethod ADMIN_USERS stored upgrade = CallNext context)
  <-> exists session owner,
        stored = inl session /\ loggedInAs authMethod session owner /\
        (authMethod = "password" \/ listedAdmin ADMIN_USERS owner).
Proof.
  unfold adminGroup. split.
  - intros (context' & H).
    destruct (fst (authMiddleware authMethod stored upgrade)) as [context| | |] eqn:A;
      try discriminate.
    destruct (authMiddleware_owner _ _ _ _ A) as (session & owner & -> & L & O).
    exists session, owner. split; [done|]. split; [done|].
    destruct L as [_ [(-> & N & _)|(-> & -> & _)]]; [|by left].
    right. rewrite (adminMiddleware_google _ _ owner) in H by done.
    destruct (String.eqb ADMIN_USERS EmptyString); [discriminate|].
    destruct (isAdmin ADMIN_USERS owner) eqn:I; [|discriminate].
    by apply isAdmin_listed.
  - intros (session & owner & -> & L & Adm).
    destruct (authMiddleware_passes _ _ upgrade _ L) as (context & -> & O).
    cbn [fst]. exists context.
    destruct L as [_ [(-> & N & _)|(-> & -> & _)]];
      [|by unfold adminMiddleware; rewrite O].
    destruct Adm as [?|Adm]; [done|].
    rewrite (adminMiddleware_google _ _ owner) by done.
    destruct (String.eqb_spec ADMIN_USERS EmptyString) as [->|NE].
    + by destruct (nobody_listed_in_empty owner N).
    + apply isAdmin_listed in Adm. by rewrite Adm.
Qed.

(** X27. With password login and a session that is saved, the right
    password leaves a session that [authMiddleware] lets through as the
    legacy admin user, whatever the session held before; any other password
    is answered 401 and leaves the session as it was; and after
    [handleLogout] the session is let through by no method. *)
Theorem login_then_logout legacyAuthPassword password session upgrade :
  let after := handleLegacyLogin "password" legacyAuthPassword password session None in
  (password = legacyAuthPassword ->
   fst after = Redirect StatusFound "/dashboard" /\
   authMiddleware "password" (inl (snd after)) upgrade
   = (CallNext {[ "owner_id" := legacyOwnerID ]}, None)) /\
  (password <> legacyAuthPassword ->
   after = (HTML StatusUnauthorized "Invalid password", session)) /\
  forall authMethod before context,
    fst (authMiddleware authMethod (inl (snd (handleLogout before None))) upgrade)
    <> CallNext context.
Proof.
  cbv zeta. split; [|split].
  - intros ->.
    assert (handleLegacyLogin "password" legacyAuthPassword legacyAuthPassword
              session None
            = (Redirect StatusFound "/dashboard",
               mkCookie (<["user_id" := VString legacyOwnerID]>
                           (<["authenticated" := VBool true]> (Values session)))
                        (MaxAge session))) as ->.
    { unfold handleLegacyLogin.
      change (String.eqb "password" "password") with true.
      by rewrite String.eqb_refl. }
    cbn [fst snd]. split; [done|].
    unfold authMiddleware. cbn [Values].
    rewrite lookup_insert_ne by done. rewrite lookup_insert_eq.
    rewrite lookup_insert_eq. done.
  - intros N. unfold handleLegacyLogin.
    change (String.eqb "password" "password") with true. cbn [negb].
    apply String.eqb_neq in N. by rewrite N.
  - intros authMethod before context H.
    apply authMiddleware_owner in H as (s & owner & [= <-] & [A _] & _).
    cbn in A. rewrite !lookup_delete_ne in A by done.
    by rewrite lookup_insert_eq in A.
Qed.
